(** * Gesture particle system: a shallow embedding and its properties

    The development follows the three JavaScript sources of the project:

    - [GestureDetector]: the class of gestureDetector.js, the continuous
      openness estimator with its temporal smoothing;
    - [ParticleSystem]: the class of the particle-system module, pattern
      generation and the per-particle original / target / current position
      arrays;
    - [Threshold]: the single-file variant (particles.js) with its binary
      open / closed gesture.

    JavaScript numbers are modelled as real numbers extended with NaN
    ([JS.num]): the arithmetic is read over the reals, binary64 rounding is
    not modelled.  A [Float32Array] carries the numbers written into it; the
    conversion to binary32 that a store performs is [JS.Math_fround], and
    [JS.held] is what a cell then holds, for the properties that bound the
    contents of a buffer.  [Math.random] is an explicit stream of draws
    threaded through the code. *)

From Stdlib Require Import Reals Lra Lia List Arith ZArith Bool Zfloor.
From Stdlib Require PrimFloat.
Import ListNotations.
Open Scope R_scope.

(* ================================================================== *)
(** ** The number and array layer *)
(* ================================================================== *)

Module JS.

(** A JavaScript number: a real, or [None] for NaN.  [undefined] behaves as
    NaN under every arithmetic operator used by the sources, so a missing
    array cell is read as [None] as well. *)
Definition num := option R.

Definition lift1 (f : R -> R) (a : num) : num :=
  match a with Some x => Some (f x) | None => None end.

Definition lift2 (f : R -> R -> R) (a b : num) : num :=
  match a, b with Some x, Some y => Some (f x y) | _, _ => None end.

Definition add := lift2 Rplus.
Definition sub := lift2 Rminus.
Definition mul := lift2 Rmult.

(** [a > b]: false as soon as one side is NaN. *)
Definition gtb (a b : R) : bool := if Rlt_dec b a then true else false.
Definition ltb (a b : R) : bool := if Rlt_dec a b then true else false.

(** [Math.min] and [Math.max] return NaN when an argument is NaN. *)
Definition Math_min := lift2 Rmin.
Definition Math_max := lift2 Rmax.

(** [b] to the power [y] for [0 <= b] and [0 < y]: 0 at 0, [exp (y ln b)]
    otherwise. *)
Definition rpow (b y : R) : R := if Req_dec_T b 0 then 0 else Rpower b y.

(** [Math.pow(x, y)] for a positive non-integer exponent [y]: NaN on a
    negative base. *)
Definition Math_pow (x : num) (y : R) : num :=
  match x with
  | None => None
  | Some b => if Rlt_dec b 0 then None else Some (rpow b y)
  end.

(** [Math.cbrt] is defined on every real. *)
Definition Math_cbrt (x : R) : R :=
  if Req_dec_T x 0 then 0
  else if Rlt_dec 0 x then Rpower x (1 / 3)
  else - Rpower (- x) (1 / 3).

(** [Math.acos] is NaN outside [-1, 1]. *)
Definition Math_acos (x : R) : num :=
  if Rlt_dec x (-1) then None
  else if Rlt_dec 1 x then None
  else Some (acos x).

(** [Math.floor] on a real. *)
Definition Math_floor (x : R) : R := IZR (Zfloor x).

(** *** Plain arrays

    [a[i]] reads [undefined] past the end; [a[i] = v] past the end grows the
    array, the cells in between being holes that read [undefined]. *)
Definition get (a : list num) (i : nat) : num := nth i a None.

Fixpoint set (a : list num) (i : nat) (v : num) : list num :=
  match i, a with
  | O, [] => [v]
  | O, _ :: t => v :: t
  | S j, [] => None :: set [] j v
  | S j, h :: t => h :: set t j v
  end.

Definition push3 (a : list num) (x y z : num) : list num := a ++ [x; y; z].

(** *** Typed arrays ([Float32Array])

    The length is fixed at allocation; a write past the end is dropped, a
    read past the end gives [undefined].  [tset] records the number written;
    the buffer keeps its conversion to binary32, see [held] below. *)
Definition Float32Array (n : nat) : list num := repeat (Some 0) n.

Fixpoint tset (a : list num) (i : nat) (v : num) : list num :=
  match i, a with
  | _, [] => []
  | O, _ :: t => v :: t
  | S j, h :: t => h :: tset t j v
  end.

(** *** The conversion of a [Float32Array] store

    A store converts the number to binary32, rounding to nearest, ties to
    even: with [2 ^ (e - 1) <= |x| < 2 ^ e] the result is the multiple of
    [2 ^ (e - 24)] nearest to [x], and of [2 ^ -149] in the subnormal range.
    This is [Math.fround].  Magnitudes from [2 ^ 128] on, which the
    conversion turns into an infinity, are not modelled; no buffer of the
    sources comes near them. *)

(** [2 ^ e] *)
Definition bpow (e : Z) : R := powerRZ 2 e.

(** The binade of [x]: the [e] with [2 ^ (e - 1) <= |x| < 2 ^ e]. *)
Definition mag (x : R) : Z := (Zfloor (ln (Rabs x) / ln 2) + 1)%Z.

(** The exponent of the last binary32 digit of a number of binade [e]. *)
Definition fexp (e : Z) : Z := Z.max (e - 24) (-149).

(** The integer nearest to [y], the even one of the two at a tie. *)
Definition rne (y : R) : Z :=
  let f := Zfloor y in
  if Rlt_dec (y - IZR f) (1 / 2) then f
  else if Rlt_dec (1 / 2) (y - IZR f) then (f + 1)%Z
  else if Z.even f then f else (f + 1)%Z.

Definition Math_fround (x : R) : R :=
  let e := fexp (mag x) in IZR (rne (x * bpow (- e))) * bpow e.

(** What cell [i] of a [Float32Array] holds, [a] carrying the numbers
    written. *)
Definition held (a : list num) (i : nat) : num := lift1 Math_fround (get a i).

(** *** Counting loops: [for (let i = 0; i < n; i++) body] *)
Definition for_loop {S : Type} (n : nat) (body : nat -> S -> S) (s : S) : S :=
  fold_left (fun acc i => body i acc) (seq 0 n) s.

(** *** [Math.random]: the draws of one run, consumed in order. *)
Record rng := { draws : nat -> R; next : nat }.

Definition random (g : rng) : R * rng :=
  (draws g (next g), {| draws := draws g; next := Datatypes.S (next g) |}).

(** Every draw lies in [0, 1), as [Math.random] guarantees. *)
Definition unit_draws (f : nat -> R) : Prop := forall k, 0 <= f k < 1.

(** An object [{ x, y }]. *)
Record point := { px : R; py : R }.

End JS.

(** The one place where the text claims exact values: the scale factor of
    [updateGestureInfluence], here as binary64 arithmetic computes it. *)
Module Binary64.
Import PrimFloat.

#[warnings="-inexact-float"] Definition scale (openness : float) : float :=
  (0.3 + openness * 1.7)%float.

End Binary64.

(* ================================================================== *)
(** ** gestureDetector.js: class GestureDetector *)
(* ================================================================== *)

Module GestureDetector.
Import JS.

(** One hand keypoint; [z] may be absent ([p.z || 0] in [distance]). *)
Record landmark := { lx : R; ly : R; lz : option R }.

(** One detected hand: [results.multiHandLandmarks[k]] together with the
    score of [results.multiHandedness[k]]; the external detector delivers the
    two arrays in parallel. *)
Record hand := { landmarks : list landmark; score : R }.

(** The argument of [onResults]: the detected hands, possibly none. *)
Definition results := list hand.

Record gesture := {
  openness : num;
  position : point;
  isDetected : bool;
  confidence : R
}.

(** What [analyzeGesture] returns. *)
Record raw_gesture := { raw_openness : num; raw_position : point }.

Inductive event :=
| GestureUpdate (g : gesture)
| HandDetected
| HandLost.

(** The fields of the detector that the estimation path reads or writes.
    A callback field is [true] when a listener is installed ([null]
    otherwise). *)
Record detector := {
  sensitivity : R;
  currentGesture : gesture;
  onGestureUpdate : bool;
  onHandDetected : bool;
  onHandLost : bool;
  smoothingFactor : R;
  previousOpenness : num;
  previousPosition : point;
  wasHandDetected : bool   (* never initialised: [undefined], falsy *)
}.

(** The state the constructor leaves. *)
Definition constructor : detector := {|
  sensitivity := 1.0;
  currentGesture := {| openness := Some 0.5;
                       position := {| px := 0.5; py := 0.5 |};
                       isDetected := false;
                       confidence := 0 |};
  onGestureUpdate := false;
  onHandDetected := false;
  onHandLost := false;
  smoothingFactor := 0.3;
  previousOpenness := Some 0.5;
  previousPosition := {| px := 0.5; py := 0.5 |};
  wasHandDetected := false
|}.

Definition zcoord (p : landmark) : R :=
  match lz p with Some z => z | None => 0 end.

Definition distance (p1 p2 : landmark) : R :=
  let dx := lx p1 - lx p2 in
  let dy := ly p1 - ly p2 in
  let dz := zcoord p1 - zcoord p2 in
  sqrt (dx * dx + dy * dy + dz * dz).

Definition lerp (a b t : R) : R := a + (b - a) * t.

(** [lerp] on a possibly-NaN first or second argument. *)
Definition nlerp (a b : num) (t : R) : num :=
  add a (mul (sub b a) (Some t)).

Definition WRIST : nat := 0.
Definition THUMB_TIP : nat := 4.
Definition INDEX_TIP : nat := 8.
Definition MIDDLE_TIP : nat := 12.
Definition RING_TIP : nat := 16.
Definition PINKY_TIP : nat := 20.
Definition INDEX_MCP : nat := 5.
Definition MIDDLE_MCP : nat := 9.
Definition RING_MCP : nat := 13.
Definition PINKY_MCP : nat := 17.

Definition fingerTips : list nat :=
  [THUMB_TIP; INDEX_TIP; MIDDLE_TIP; RING_TIP; PINKY_TIP].
Definition fingerMCPs : list nat :=
  [1%nat; INDEX_MCP; MIDDLE_MCP; RING_MCP; PINKY_MCP].

(** [Math.min(tipToMCP / (mcpToWrist * 1.5), 1)].  Both arguments are square
    roots, hence non-negative.  When the divisor is zero the quotient is NaN
    for 0/0 and +Infinity otherwise, and [Math.min(Infinity, 1)] is 1. *)
Definition extension (tipToMCP mcpToWrist : R) : num :=
  if Req_dec_T (mcpToWrist * 1.5) 0 then
    if Req_dec_T tipToMCP 0 then None else Some 1
  else Some (Rmin (tipToMCP / (mcpToWrist * 1.5)) 1).

(** The extension of the finger with tip [tipIndex] and base [mcpIndex];
    [None] when a landmark is missing (the property access on [undefined]
    throws a TypeError). *)
Definition finger_extension (lm : list landmark) (tipIndex mcpIndex : nat)
  : option num :=
  match nth_error lm tipIndex, nth_error lm mcpIndex, nth_error lm WRIST with
  | Some tip, Some mcp, Some wrist =>
      Some (extension (distance tip mcp) (distance mcp wrist))
  | _, _, _ => None
  end.

(** The loop over the five fingers, accumulating [totalExtension]
    ([maxExtension] is computed by the source but never read). *)
Fixpoint sum_extensions (lm : list landmark) (fingers : list (nat * nat))
  (totalExtension : num) : option num :=
  match fingers with
  | [] => Some totalExtension
  | (tipIndex, mcpIndex) :: rest =>
      match finger_extension lm tipIndex mcpIndex with
      | Some e => sum_extensions lm rest (add totalExtension e)
      | None => None
      end
  end.

(** [analyzeGesture]; [None] stands for the TypeError thrown on a landmark
    list that lacks one of the indices read. *)
Definition analyzeGesture (lm : list landmark) : option raw_gesture :=
  match nth_error lm WRIST, nth_error lm INDEX_MCP, nth_error lm PINKY_MCP with
  | Some w, Some i, Some p =>
      let palmCenter := {| px := (lx w + lx i + lx p) / 3;
                           py := (ly w + ly i + ly p) / 3 |} in
      match sum_extensions lm (combine fingerTips fingerMCPs) (Some 0) with
      | Some totalExtension =>
          let openness :=
            Math_pow (lift1 (fun t => t / INR (length fingerTips)) totalExtension)
                     0.8 in
          Some {| raw_openness := Math_max (Some 0) (Math_min (Some 1) openness);
                  raw_position := palmCenter |}
      | None => None
      end
  | _, _, _ => None
  end.

Definition emit (installed : bool) (e : event) : list event :=
  if installed then [e] else [].

(** [onResults]: the new detector state and the callbacks invoked, in order.
    [None]: a TypeError was thrown (by [drawHand] or [analyzeGesture], both
    before any field is written), the state is as before the call.  The
    canvas drawing itself touches no field of the detector. *)
Definition onResults (res : results) (d : detector)
  : option (detector * list event) :=
  match res with
  | h :: _ =>
      match analyzeGesture (landmarks h) with
      | None => None
      | Some g =>
          let f := smoothingFactor d in
          let o := nlerp (previousOpenness d) (raw_openness g) f in
          let p := {| px := lerp (px (previousPosition d)) (px (raw_position g)) f;
                      py := lerp (py (previousPosition d)) (py (raw_position g)) f |} in
          let cg := {| openness := o; position := p;
                       isDetected := true; confidence := score h |} in
          Some ({| sensitivity := sensitivity d;
                   currentGesture := cg;
                   onGestureUpdate := onGestureUpdate d;
                   onHandDetected := onHandDetected d;
                   onHandLost := onHandLost d;
                   smoothingFactor := f;
                   previousOpenness := o;
                   previousPosition := p;
                   wasHandDetected := true |},
                emit (onGestureUpdate d) (GestureUpdate cg)
                ++ emit (negb (wasHandDetected d) && onHandDetected d) HandDetected)
      end
  | [] =>
      let c := currentGesture d in
      let cg := {| openness := nlerp (openness c) (Some 0.5) 0.05;
                   position := {| px := lerp (px (position c)) 0.5 0.05;
                                  py := lerp (py (position c)) 0.5 0.05 |};
                   isDetected := false;
                   confidence := confidence c |} in
      Some ({| sensitivity := sensitivity d;
               currentGesture := cg;
               onGestureUpdate := onGestureUpdate d;
               onHandDetected := onHandDetected d;
               onHandLost := onHandLost d;
               smoothingFactor := smoothingFactor d;
               previousOpenness := previousOpenness d;
               previousPosition := previousPosition d;
               wasHandDetected := false |},
            emit (wasHandDetected d && onHandLost d) HandLost
            ++ emit (onGestureUpdate d) (GestureUpdate cg))
  end.

(** One camera frame.  A TypeError thrown by [onResults] rejects the promise
    of that frame only; the detector keeps its state and the next frame is
    processed as usual. *)
Definition frame (res : results) (d : detector) : detector * list event :=
  match onResults res d with
  | Some r => r
  | None => (d, [])
  end.

(** A run of frames: the final state and, frame by frame, the callbacks
    invoked (in order). *)
Fixpoint run (frames : list results) (d : detector)
  : detector * list (list event) :=
  match frames with
  | [] => (d, [])
  | res :: rest =>
      let (d1, ev1) := frame res d in
      let (d2, evs) := run rest d1 in
      (d2, ev1 :: evs)
  end.

(** [K] consecutive frames without a hand. *)
Fixpoint nohand (K : nat) (d : detector) : detector :=
  match K with
  | O => d
  | S k => fst (frame [] (nohand k d))
  end.

Definition is_detected (e : event) : bool :=
  match e with HandDetected => true | _ => false end.
Definition is_lost (e : event) : bool :=
  match e with HandLost => true | _ => false end.

(** How many events of a frame satisfy [f]. *)
Definition occurrences (f : event -> bool) (ev : list event) : nat :=
  length (filter f ev).

Definition flag (b : bool) : nat := if b then 1 else 0.

(** Both edge listeners are installed. *)
Definition listening (d : detector) : Prop :=
  onHandDetected d = true /\ onHandLost d = true.

(** The edge notifications of a trace, as the flags "hand appeared". *)
Fixpoint edges (ev : list event) : list bool :=
  match ev with
  | [] => []
  | HandDetected :: r => true :: edges r
  | HandLost :: r => false :: edges r
  | GestureUpdate _ :: r => edges r
  end.

(** [alternates t l]: starting with a hand tracked ([t = true]) or not, the
    edge flags [l] strictly alternate, the first one leaving state [t]. *)
Fixpoint alternates (t : bool) (l : list bool) : Prop :=
  match l with
  | [] => True
  | b :: r => b = negb t /\ alternates b r
  end.

Definition setSensitivity (s : R) (d : detector) : detector :=
  {| sensitivity := s;
     currentGesture := currentGesture d;
     onGestureUpdate := onGestureUpdate d;
     onHandDetected := onHandDetected d;
     onHandLost := onHandLost d;
     smoothingFactor := 0.2 + (1 - s) * 0.3;
     previousOpenness := previousOpenness d;
     previousPosition := previousPosition d;
     wasHandDetected := wasHandDetected d |}.

(** *** Specification-side definitions and sample data *)

Definition origin : landmark := {| lx := 0; ly := 0; lz := None |}.

(** The keypoint [i] of a complete hand. *)
Definition keypoint (lm : list landmark) (i : nat) : landmark := nth i lm origin.

(** The extension score as the specification words it. *)
Definition spec_extension (lm : list landmark) (tip mcp : nat) : R :=
  Rmin (distance (keypoint lm tip) (keypoint lm mcp)
        / (1.5 * distance (keypoint lm mcp) (keypoint lm WRIST))) 1.

(** The raw openness as the specification words it: the mean of the five
    scores to the power 0.8, clamped to [0, 1]. *)
Definition spec_openness (lm : list landmark) : R :=
  let mean := (spec_extension lm THUMB_TIP 1
               + spec_extension lm INDEX_TIP INDEX_MCP
               + spec_extension lm MIDDLE_TIP MIDDLE_MCP
               + spec_extension lm RING_TIP RING_MCP
               + spec_extension lm PINKY_TIP PINKY_MCP) / 5 in
  Rmax 0 (Rmin 1 (rpow mean 0.8)).

(** A hand none of whose five base knuckles coincides with the wrist. *)
Definition knuckles_off_wrist (lm : list landmark) : Prop :=
  forall mcp, In mcp fingerMCPs ->
    distance (keypoint lm mcp) (keypoint lm WRIST) <> 0.

(** A hand laid out along the x axis: keypoint [i] at (i, 0). *)
Definition sample_point (i : nat) : landmark :=
  {| lx := INR i; ly := 0; lz := None |}.

Definition sample_hand : list landmark := map sample_point (seq 0 21).

Definition sample_frame : hand := {| landmarks := sample_hand; score := 0.9 |}.

(** The state of the relaxation scenario: openness 1 at (0.9, 0.1). *)
Definition open_corner : detector :=
  {| sensitivity := 1.0;
     currentGesture := {| openness := Some 1;
                          position := {| px := 0.9; py := 0.1 |};
                          isDetected := true;
                          confidence := 0.9 |};
     onGestureUpdate := true;
     onHandDetected := true;
     onHandLost := true;
     smoothingFactor := 0.3;
     previousOpenness := Some 1;
     previousPosition := {| px := 0.9; py := 0.1 |};
     wasHandDetected := true |}.

(** The edge flags one frame contributes. *)
Definition edge_of (before after : bool) : list bool :=
  if Bool.eqb before after then [] else [after].

(** A frame is usable when it carries no hand or a complete one. *)
Definition usable (res : results) : Prop :=
  match res with
  | [] => True
  | h :: _ => (21 <= length (landmarks h))%nat
  end.

Definition has_hand (res : results) : bool :=
  match res with [] => false | _ :: _ => true end.

End GestureDetector.

(* ================================================================== *)
(** ** The particle-system module: class ParticleSystem *)
(* ================================================================== *)

Module ParticleSystem.
Import JS.

Inductive pattern :=
| sphere | cube | torus | spiral | galaxy | heart | dna | wave
| other.   (* any other string: the [default] branch *)

(** A [THREE.Color]: three channels. *)
Record Color := { cr : R; cg : R; cb : R }.

Record system := {
  particleCount : nat;
  particleSize : R;
  animationSpeed : R;
  currentPattern : pattern;
  primaryColor : Color;
  secondaryColor : Color;
  targetPositions : list num;
  originalPositions : list num;
  velocities : list num;
  gestureInfluence : R;
  gesturePosition : point;
  time : R;
  isAnimating : bool;
  (* the attribute arrays of [this.particles.geometry] *)
  positions : list num;
  colors : list num;
  sizes : list num;
  alphas : list num;
  randomSeeds : list num;
  (* [this.particles.rotation.y]; the other two angles are only ever set
     to 0 *)
  rotation_y : R;
  (* the state of [Math.random] *)
  rand : rng
}.

Definition radius : R := 15.

Definition vec (x y z : R) : num * num * num := (Some x, Some y, Some z).

(** The body of the [switch] in [generatePattern]: the position of particle
    [i] out of [n], and the generator after the draws it consumed (in
    evaluation order). *)
Definition place (pat : pattern) (n i : nat) (g : rng) : (num * num * num) * rng :=
  let t := INR i / INR n in
  match pat with
  | sphere =>
      let (u, g) := random g in
      let phi := Math_acos (2 * u - 1) in
      let (v, g) := random g in
      let theta := v * PI * 2 in
      let (w, g) := random g in
      let r := radius * Math_cbrt w in
      ((lift1 (fun phi => r * sin phi * cos theta) phi,
        lift1 (fun phi => r * sin phi * sin theta) phi,
        lift1 (fun phi => r * cos phi) phi), g)
  | cube =>
      let (a, g) := random g in
      let (b, g) := random g in
      let (c, g) := random g in
      (vec ((a - 0.5) * radius * 2) ((b - 0.5) * radius * 2)
           ((c - 0.5) * radius * 2), g)
  | torus =>
      let (a, g) := random g in
      let torusAngle := a * PI * 2 in
      let (b, g) := random g in
      let tubeAngle := b * PI * 2 in
      let torusRadius := radius * 0.8 in
      let (c, g) := random g in
      let tubeRadius := radius * 0.3 * c in
      (vec ((torusRadius + tubeRadius * cos tubeAngle) * cos torusAngle)
           (tubeRadius * sin tubeAngle)
           ((torusRadius + tubeRadius * cos tubeAngle) * sin torusAngle), g)
  | spiral =>
      let spiralT := t * PI * 8 in
      let spiralRadius := radius * (0.2 + t * 0.8) in
      let (a, g) := random g in
      let (b, g) := random g in
      (vec (spiralRadius * cos spiralT + (a - 0.5) * 2)
           ((t - 0.5) * radius * 2)
           (spiralRadius * sin spiralT + (b - 0.5) * 2), g)
  | galaxy =>
      let (a, g) := random g in
      let arm := Math_floor (a * 3) in
      let armAngle := (arm / 3) * PI * 2 in
      let (b, g) := random g in
      let dist := b * radius in
      let spread := (1 - dist / radius) * 0.5 in
      let galaxyAngle := armAngle + (dist / radius) * PI * 2 in
      let (c, g) := random g in
      let (d, g) := random g in
      let (e, g) := random g in
      (vec (dist * cos galaxyAngle + (c - 0.5) * spread * radius)
           ((d - 0.5) * spread * radius * 0.3)
           (dist * sin galaxyAngle + (e - 0.5) * spread * radius), g)
  | heart =>
      let ht := t * PI * 2 in
      let heartScale := radius * 0.8 in
      let x := heartScale * 0.8 * (16 * sin ht ^ 3) / 16 in
      let y := heartScale * 0.8
               * (13 * cos ht - 5 * cos (2 * ht) - 2 * cos (3 * ht) - cos (4 * ht))
               / 16 in
      let (a, g) := random g in
      let z := (a - 0.5) * radius * 0.5 in
      let (b, g) := random g in
      let (c, g) := random g in
      (vec (x + (b - 0.5) * 1.5) (y + (c - 0.5) * 1.5) z, g)
  | dna =>
      let dnaT := t * PI * 6 in
      let strand := INR (i mod 2)%nat in
      let dnaRadius := radius * 0.4 in
      let dnaOffset := strand * PI in
      let (a, g) := random g in
      let (b, g) := random g in
      (vec (dnaRadius * cos (dnaT + dnaOffset) + (a - 0.5) * 1)
           ((t - 0.5) * radius * 3)
           (dnaRadius * sin (dnaT + dnaOffset) + (b - 0.5) * 1), g)
  | wave =>
      let waveX := INR (i mod 100)%nat / 100 - 0.5 in
      let waveZ := INR (i / 100)%nat / (INR n / 100) - 0.5 in
      let (a, g) := random g in
      (vec (waveX * radius * 3)
           (sin (waveX * PI * 4) * cos (waveZ * PI * 4) * radius * 0.5
            + (a - 0.5) * 1)
           (waveZ * radius * 3), g)
  | other =>
      let (a, g) := random g in
      let (b, g) := random g in
      let (c, g) := random g in
      (vec ((a - 0.5) * radius * 2) ((b - 0.5) * radius * 2)
           ((c - 0.5) * radius * 2), g)
  end.

(** One iteration of the loop of [generatePattern]. *)
Definition generate_step (pat : pattern) (n i : nat) (s : list num * rng)
  : list num * rng :=
  let '(positions, g) := s in
  let '((x, y, z), g') := place pat n i g in
  let i3 := (i * 3)%nat in
  (tset (tset (tset positions i3 x) (i3 + 1) y) (i3 + 2) z, g').

Definition generatePattern (pat : pattern) (n : nat) (g : rng) : list num * rng :=
  for_loop n (generate_step pat n) (Float32Array (n * 3), g).

(** The arrays [createParticles] fills in its loop, with the generator. *)
Record buffers := {
  b_positions : list num;
  b_colors : list num;
  b_sizes : list num;
  b_alphas : list num;
  b_randomSeeds : list num;
  b_original : list num;
  b_target : list num;
  b_velocities : list num;
  b_rand : rng
}.

Section Three.

(** The colour arithmetic of three.js, which is not part of the repository:
    [new Color().lerpColors(a, b, t)], [color.getHSL(hsl)] and
    [color.setHSL(h, s, l)] (which overwrites all three channels). *)
Variable lerpColors : Color -> Color -> R -> Color.
Variable getHSL : Color -> R * R * R.
Variable setHSL : R -> R -> R -> Color.

(** The gradient colour of particle [i], as both [createParticles] and
    [setColors] compute it. *)
Definition particle_color (primary secondary : Color) (n i : nat) : Color :=
  let t := INR i / INR n in
  let color := lerpColors primary secondary t in
  let '(h, s, l) := getHSL color in
  setHSL h (Rmin (s * 1.2) 1.0) (Rmin (l * 1.1) 0.7).

Definition write_color (colors : list num) (i3 : nat) (c : Color) : list num :=
  tset (tset (tset colors i3 (Some (cr c))) (i3 + 1) (Some (cg c)))
       (i3 + 2) (Some (cb c)).

Definition create_step (s : system) (patternPositions : list num) (i : nat)
  (b : buffers) : buffers :=
  let n := particleCount s in
  let i3 := (i * 3)%nat in
  let positions :=
    tset (tset (tset (b_positions b) i3 (get patternPositions i3))
               (i3 + 1) (get patternPositions (i3 + 1)))
         (i3 + 2) (get patternPositions (i3 + 2)) in
  let color := particle_color (primaryColor s) (secondaryColor s) n i in
  let (r1, g) := random (b_rand b) in
  let (r2, g) := random g in
  let (r3, g) := random g in
  {| b_positions := positions;
     b_colors := write_color (b_colors b) i3 color;
     b_sizes := tset (b_sizes b) i (Some (particleSize s * (0.4 + r1 * 0.6)));
     b_alphas := tset (b_alphas b) i (Some (0.7 + r2 * 0.3));
     b_randomSeeds := tset (b_randomSeeds b) i (Some r3);
     b_original := push3 (b_original b) (get positions i3)
                         (get positions (i3 + 1)) (get positions (i3 + 2));
     b_target := push3 (b_target b) (get positions i3)
                       (get positions (i3 + 1)) (get positions (i3 + 2));
     b_velocities := push3 (b_velocities b) (Some 0) (Some 0) (Some 0);
     b_rand := g |}.

Definition createParticles (s : system) : system :=
  let n := particleCount s in
  let '(patternPositions, g) := generatePattern (currentPattern s) n (rand s) in
  let b := for_loop n (create_step s patternPositions)
             {| b_positions := Float32Array (n * 3);
                b_colors := Float32Array (n * 3);
                b_sizes := Float32Array n;
                b_alphas := Float32Array n;
                b_randomSeeds := Float32Array n;
                b_original := [];
                b_target := [];
                b_velocities := [];
                b_rand := g |} in
  {| particleCount := n;
     particleSize := particleSize s;
     animationSpeed := animationSpeed s;
     currentPattern := currentPattern s;
     primaryColor := primaryColor s;
     secondaryColor := secondaryColor s;
     targetPositions := b_target b;
     originalPositions := b_original b;
     velocities := b_velocities b;
     gestureInfluence := gestureInfluence s;
     gesturePosition := gesturePosition s;
     time := time s;
     isAnimating := isAnimating s;
     positions := b_positions b;
     colors := b_colors b;
     sizes := b_sizes b;
     alphas := b_alphas b;
     randomSeeds := b_randomSeeds b;
     rotation_y := 0;
     rand := b_rand b |}.

Definition setPattern_step (newPositions : list num) (i : nat)
  (s : list num * list num) : list num * list num :=
  let (target, original) := s in
  (set target i (get newPositions i), set original i (get newPositions i)).

Definition setPattern (pat : pattern) (s : system) : system :=
  let '(newPositions, g) := generatePattern pat (particleCount s) (rand s) in
  let '(target, original) :=
    for_loop (particleCount s * 3) (setPattern_step newPositions)
             (targetPositions s, originalPositions s) in
  {| particleCount := particleCount s;
     particleSize := particleSize s;
     animationSpeed := animationSpeed s;
     currentPattern := pat;
     primaryColor := primaryColor s;
     secondaryColor := secondaryColor s;
     targetPositions := target;
     originalPositions := original;
     velocities := velocities s;
     gestureInfluence := gestureInfluence s;
     gesturePosition := gesturePosition s;
     time := time s;
     isAnimating := isAnimating s;
     positions := positions s;
     colors := colors s;
     sizes := sizes s;
     alphas := alphas s;
     randomSeeds := randomSeeds s;
     rotation_y := rotation_y s;
     rand := g |}.

Definition setColors (primary secondary : Color) (s : system) : system :=
  {| particleCount := particleCount s;
     particleSize := particleSize s;
     animationSpeed := animationSpeed s;
     currentPattern := currentPattern s;
     primaryColor := primary;
     secondaryColor := secondary;
     targetPositions := targetPositions s;
     originalPositions := originalPositions s;
     velocities := velocities s;
     gestureInfluence := gestureInfluence s;
     gesturePosition := gesturePosition s;
     time := time s;
     isAnimating := isAnimating s;
     positions := positions s;
     colors :=
       for_loop (particleCount s)
         (fun i colors =>
            write_color colors (i * 3)
              (particle_color primary secondary (particleCount s) i))
         (colors s);
     sizes := sizes s;
     alphas := alphas s;
     randomSeeds := randomSeeds s;
     rotation_y := rotation_y s;
     rand := rand s |}.

Definition setParticleCount (count : nat) (s : system) : system :=
  createParticles
    {| particleCount := count;
       particleSize := particleSize s;
       animationSpeed := animationSpeed s;
       currentPattern := currentPattern s;
       primaryColor := primaryColor s;
       secondaryColor := secondaryColor s;
       targetPositions := targetPositions s;
       originalPositions := originalPositions s;
       velocities := velocities s;
       gestureInfluence := gestureInfluence s;
       gesturePosition := gesturePosition s;
       time := time s;
       isAnimating := isAnimating s;
       positions := positions s;
       colors := colors s;
       sizes := sizes s;
       alphas := alphas s;
       randomSeeds := randomSeeds s;
       rotation_y := rotation_y s;
       rand := rand s |}.

End Three.

(** The dispersion added to one coordinate when [openness > 0.7]. *)
Definition jitter (draw dispersion : R) : R := (draw - 0.5) * dispersion * 10.

Definition gesture_step (original : list num) (openness : R) (position : point)
  (sensitivity : R) (i : nat) (s : list num * rng) : list num * rng :=
  let (target, g) := s in
  let i3 := (i * 3)%nat in
  let tx := get original i3 in
  let ty := get original (i3 + 1) in
  let tz := get original (i3 + 2) in
  let scale := 0.3 + openness * 1.7 in
  let tx := mul tx (Some scale) in
  let ty := mul ty (Some scale) in
  let tz := mul tz (Some scale) in
  let '(tx, ty, tz, g) :=
    if gtb openness 0.7 then
      let dispersion := (openness - 0.7) * 3 * sensitivity in
      let (a, g) := random g in
      let (b, g) := random g in
      let (c, g) := random g in
      (add tx (Some (jitter a dispersion)),
       add ty (Some (jitter b dispersion)),
       add tz (Some (jitter c dispersion)), g)
    else (tx, ty, tz, g) in
  let gesturePull := sensitivity * 0.3 in
  let tx := add tx (Some ((px position - 0.5) * 20 * gesturePull)) in
  let ty := add ty (Some ((0.5 - py position) * 20 * gesturePull)) in
  (set (set (set target i3 tx) (i3 + 1) ty) (i3 + 2) tz, g).

Definition updateGestureInfluence (openness : R) (position : point)
  (sensitivity : R) (s : system) : system :=
  let '(target, g) :=
    for_loop (particleCount s)
      (gesture_step (originalPositions s) openness position sensitivity)
      (targetPositions s, rand s) in
  {| particleCount := particleCount s;
     particleSize := particleSize s;
     animationSpeed := animationSpeed s;
     currentPattern := currentPattern s;
     primaryColor := primaryColor s;
     secondaryColor := secondaryColor s;
     targetPositions := target;
     originalPositions := originalPositions s;
     velocities := velocities s;
     gestureInfluence := openness;
     gesturePosition := position;
     time := time s;
     isAnimating := isAnimating s;
     positions := positions s;
     colors := colors s;
     sizes := sizes s;
     alphas := alphas s;
     randomSeeds := randomSeeds s;
     rotation_y := rotation_y s;
     rand := g |}.

(** [positions[j] += (targetPositions[j] - positions[j]) * lerpFactor]. *)
Definition approach (target : list num) (lerpFactor : R) (positions : list num)
  (j : nat) : list num :=
  tset positions j
       (add (get positions j)
            (mul (sub (get target j) (get positions j)) (Some lerpFactor))).

Definition animate_step (n : nat) (target : list num) (speed time : R)
  (i : nat) (positions : list num) : list num :=
  let i3 := (i * 3)%nat in
  let lerpFactor := 0.05 * speed in
  let positions := approach target lerpFactor positions i3 in
  let positions := approach target lerpFactor positions (i3 + 1) in
  let positions := approach target lerpFactor positions (i3 + 2) in
  let floatSpeed := 0.5 + (INR i / INR n) * 0.5 in
  let floatAmount := 0.1 * speed in
  tset positions (i3 + 1)
       (add (get positions (i3 + 1))
            (Some (sin (time * floatSpeed + INR i * 0.1) * floatAmount))).

(** One frame of [animate] (the re-arming through [requestAnimationFrame]
    and the draw call leave the state alone). *)
Definition animate (s : system) : system :=
  if negb (isAnimating s) then s
  else
    let time' := time s + 0.016 * animationSpeed s in
    {| particleCount := particleCount s;
       particleSize := particleSize s;
       animationSpeed := animationSpeed s;
       currentPattern := currentPattern s;
       primaryColor := primaryColor s;
       secondaryColor := secondaryColor s;
       targetPositions := targetPositions s;
       originalPositions := originalPositions s;
       velocities := velocities s;
       gestureInfluence := gestureInfluence s;
       gesturePosition := gesturePosition s;
       time := time';
       isAnimating := isAnimating s;
       positions :=
         for_loop (particleCount s)
           (animate_step (particleCount s) (targetPositions s)
                         (animationSpeed s) time')
           (positions s);
       colors := colors s;
       sizes := sizes s;
       alphas := alphas s;
       randomSeeds := randomSeeds s;
       rotation_y := rotation_y s + 0.001 * animationSpeed s;
       rand := rand s |}.

Definition reset (s : system) : system :=
  {| particleCount := particleCount s;
     particleSize := particleSize s;
     animationSpeed := animationSpeed s;
     currentPattern := currentPattern s;
     primaryColor := primaryColor s;
     secondaryColor := secondaryColor s;
     targetPositions :=
       for_loop (particleCount s * 3)
         (fun i target => set target i (get (originalPositions s) i))
         (targetPositions s);
     originalPositions := originalPositions s;
     velocities := velocities s;
     gestureInfluence := 0;
     gesturePosition := {| px := 0.5; py := 0.5 |};
     time := time s;
     isAnimating := isAnimating s;
     positions := positions s;
     colors := colors s;
     sizes := sizes s;
     alphas := alphas s;
     randomSeeds := randomSeeds s;
     rotation_y := 0;
     rand := rand s |}.

(** [new ParticleSystem(container)]: the field initialisers, then [init],
    which calls [createParticles] and runs the first [animate] frame.
    [primary] and [secondary] are [new THREE.Color(0x00d4ff)] and
    [new THREE.Color(0xff00d4)]; [g] is the state of [Math.random]. *)
Definition constructor (lerpColors : Color -> Color -> R -> Color)
  (getHSL : Color -> R * R * R) (setHSL : R -> R -> R -> Color)
  (primary secondary : Color) (g : rng) : system :=
  animate
    (createParticles lerpColors getHSL setHSL
       {| particleCount := 5000;
          particleSize := 2;
          animationSpeed := 1.0;
          currentPattern := sphere;
          primaryColor := primary;
          secondaryColor := secondary;
          targetPositions := [];
          originalPositions := [];
          velocities := [];
          gestureInfluence := 0;
          gesturePosition := {| px := 0; py := 0 |};
          time := 0;
          isAnimating := true;
          positions := [];
          colors := [];
          sizes := [];
          alphas := [];
          randomSeeds := [];
          rotation_y := 0;
          rand := g |}).

(** *** Specification-side definitions and sample data *)

(** The three position arrays hold three scalars per particle. *)
Definition consistent (s : system) : Prop :=
  length (originalPositions s) = (particleCount s * 3)%nat
  /\ length (targetPositions s) = (particleCount s * 3)%nat
  /\ length (positions s) = (particleCount s * 3)%nat.

(** What [updateGestureInfluence] stores in target cell [j], the generator
    being at draw [start] when the loop begins. *)
Definition target_cell (original : list num) (openness : R) (position : point)
  (sensitivity : R) (draw : nat -> R) (start j : nat) : num :=
  let scaled := mul (get original j) (Some (0.3 + openness * 1.7)) in
  let dispersed :=
    if gtb openness 0.7
    then add scaled
             (Some (jitter (draw (start + j)%nat)
                           ((openness - 0.7) * 3 * sensitivity)))
    else scaled in
  match (j mod 3)%nat with
  | O => add dispersed (Some ((px position - 0.5) * 20 * (sensitivity * 0.3)))
  | 1%nat => add dispersed (Some ((0.5 - py position) * 20 * (sensitivity * 0.3)))
  | _ => dispersed
  end.

Definition center : point := {| px := 0.5; py := 0.5 |}.

(** How many random numbers one particle of a pattern consumes. *)
Definition draws_per (pat : pattern) : nat :=
  match pat with
  | spiral | dna => 2
  | wave => 1
  | galaxy => 5
  | _ => 3
  end.

(** The generator [k] draws later. *)
Definition advance (g : rng) (k : nat) : rng :=
  {| draws := draws g; next := (next g + k)%nat |}.

(** Cell [j] of two arrays holds the same value. *)
Definition same_cell (p1 p2 : list num) (j : nat) : Prop := get p1 j = get p2 j.

(** Cell [j] of two arrays holds two reals at most [w] apart. *)
Definition close_cell (p1 p2 : list num) (j : nat) (w : R) : Prop :=
  exists a b, get p1 j = Some a /\ get p2 j = Some b /\ Rabs (a - b) <= w.

(** Cell [j] of two [Float32Array]s holds two numbers at most [w] apart. *)
Definition close_held (p1 p2 : list num) (j : nat) (w : R) : Prop :=
  exists a b, held p1 j = Some a /\ held p2 j = Some b /\ Rabs (a - b) <= w.

(** A stand-in for the colour arithmetic: channel-wise interpolation, and
    the three channels read and written as they are. *)
Definition sample_lerpColors (a b : Color) (t : R) : Color :=
  {| cr := cr a + (cr b - cr a) * t;
     cg := cg a + (cg b - cg a) * t;
     cb := cb a + (cb b - cb a) * t |}.

Definition sample_getHSL (c : Color) : R * R * R := (cr c, cg c, cb c).

Definition sample_setHSL (h s l : R) : Color := {| cr := h; cg := s; cb := l |}.

(** Draws 0, 1/2, 2/3, 3/4, ... *)
Definition ramp : rng := {| draws := fun k => INR k / (INR k + 1); next := 0 |}.

(** Another generator, five draws into its run, whose coming draws are those
    of [ramp]. *)
Definition late_ramp : rng :=
  {| draws := fun k => INR (k - 5) / (INR (k - 5) + 1); next := 5 |}.

Definition cyan : Color := {| cr := 0; cg := 0.8; cb := 1 |}.

Definition magenta : Color := {| cr := 1; cg := 0; cb := 0.8 |}.

(** Two particles, at (1, 2, 3) and (4, 5, 6), drifting from the origin. *)
Definition sample_system : system :=
  {| particleCount := 2;
     particleSize := 2;
     animationSpeed := 1;
     currentPattern := spiral;
     primaryColor := cyan;
     secondaryColor := magenta;
     targetPositions := [Some 1; Some 2; Some 3; Some 4; Some 5; Some 6];
     originalPositions := [Some 1; Some 2; Some 3; Some 4; Some 5; Some 6];
     velocities := [Some 0; Some 0; Some 0; Some 0; Some 0; Some 0];
     gestureInfluence := 0;
     gesturePosition := {| px := 0.5; py := 0.5 |};
     time := 0;
     isAnimating := true;
     positions := [Some 0; Some 0; Some 0; Some 0; Some 0; Some 0];
     colors := [Some 0; Some 0; Some 0; Some 0; Some 0; Some 0];
     sizes := [Some 1; Some 1];
     alphas := [Some 1; Some 1];
     randomSeeds := [Some 0; Some 0];
     rotation_y := 0;
     rand := ramp |}.

End ParticleSystem.

(* ================================================================== *)
(** ** particles.js: the open / closed variant *)
(* ================================================================== *)

Module Threshold.
Import JS.

(** A keypoint as this file reads it: [z] is used without a default, so an
    absent [z] makes every distance NaN. *)
Record landmark := { lx : R; ly : R; lz : option R }.

Inductive handState := open | closed.

(** The module-level variables the gesture path touches. *)
Record globals := {
  particleCount : nat;
  isHandOpen : bool;
  targetScale : R;
  currentScale : R;
  (* [particleGeometry.attributes.position.array] and
     [particleGeometry.userData.initialPositions] *)
  positions : list num;
  initialPositions : list num;
  rotation_x : R;
  rotation_y : R
}.

Definition distance (p1 p2 : landmark) : num :=
  match lz p1, lz p2 with
  | Some z1, Some z2 =>
      let dx := lx p1 - lx p2 in
      let dy := ly p1 - ly p2 in
      let dz := z1 - z2 in
      Some (sqrt (dx * dx + dy * dy + dz * dz))
  | _, _ => None
  end.

(** [d > 0.1], false on NaN. *)
Definition exceeds (d : num) (threshold : R) : bool :=
  match d with Some x => gtb x threshold | None => false end.

Definition count (b : bool) : nat := if b then 1 else 0.

Definition thumbExtended (thumbTip thumbMCP : landmark) : bool :=
  exceeds (distance thumbTip thumbMCP) 0.1.

Definition fingerExtended (tip mcp : landmark) : bool := ltb (ly tip) (ly mcp).

(** The number of extended fingers, from the ten keypoints read. *)
Definition extendedCount (thumbTip indexTip middleTip ringTip pinkyTip
                          thumbMCP indexMCP middleMCP ringMCP pinkyMCP : landmark)
  : nat :=
  count (thumbExtended thumbTip thumbMCP)
  + count (fingerExtended indexTip indexMCP)
  + count (fingerExtended middleTip middleMCP)
  + count (fingerExtended ringTip ringMCP)
  + count (fingerExtended pinkyTip pinkyMCP).

(** [detectHandGesture]; [None] is the TypeError of reading a coordinate of
    a missing keypoint. *)
Definition detectHandGesture (landmarks : list landmark) : option handState :=
  match nth_error landmarks 4, nth_error landmarks 8, nth_error landmarks 12,
        nth_error landmarks 16, nth_error landmarks 20,
        nth_error landmarks 2, nth_error landmarks 5, nth_error landmarks 9,
        nth_error landmarks 13, nth_error landmarks 17 with
  | Some thumbTip, Some indexTip, Some middleTip, Some ringTip, Some pinkyTip,
    Some thumbMCP, Some indexMCP, Some middleMCP, Some ringMCP, Some pinkyMCP =>
      if (3 <=? extendedCount thumbTip indexTip middleTip ringTip pinkyTip
                 thumbMCP indexMCP middleMCP ringMCP pinkyMCP)%nat
      then Some open else Some closed
  | _, _, _, _, _, _, _, _, _, _ => None
  end.

Definition with_target (isOpen : bool) (scale : R) (s : globals) : globals :=
  {| particleCount := particleCount s;
     isHandOpen := isOpen;
     targetScale := scale;
     currentScale := currentScale s;
     positions := positions s;
     initialPositions := initialPositions s;
     rotation_x := rotation_x s;
     rotation_y := rotation_y s |}.

(** [onHandsResults]: [multiHandLandmarks] is the list of detected hands;
    [None] when [detectHandGesture] throws (nothing is written before). *)
Definition onHandsResults (multiHandLandmarks : list (list landmark))
  (s : globals) : option globals :=
  match multiHandLandmarks with
  | landmarks :: _ =>
      match detectHandGesture landmarks with
      | Some open => Some (with_target true 1.5 s)
      | Some closed => Some (with_target false 0.3 s)
      | None => None
      end
  | [] => Some (with_target (isHandOpen s) 1.0 s)
  end.

Definition scale_step (initialPositions : list num) (contractionFactor : R)
  (i : nat) (positions : list num) : list num :=
  let i3 := (i * 3)%nat in
  let scaled j := mul (get initialPositions j) (Some contractionFactor) in
  tset (tset (tset positions i3 (scaled i3)) (i3 + 1) (scaled (i3 + 1)%nat))
       (i3 + 2) (scaled (i3 + 2)%nat).

(** One frame of [animate]. *)
Definition animate (s : globals) : globals :=
  let currentScale' := currentScale s + (targetScale s - currentScale s) * 0.05 in
  {| particleCount := particleCount s;
     isHandOpen := isHandOpen s;
     targetScale := targetScale s;
     currentScale := currentScale';
     positions :=
       for_loop (particleCount s)
         (scale_step (initialPositions s) currentScale') (positions s);
     initialPositions := initialPositions s;
     rotation_x := rotation_x s + 0.0005;
     rotation_y := rotation_y s + 0.001 |}.

(** *** Specification-side definitions and sample data *)

Definition nowhere : landmark := {| lx := 0; ly := 0; lz := None |}.

(** The keypoint [i] of a complete hand. *)
Definition joint (lm : list landmark) (i : nat) : landmark := nth i lm nowhere.

(** The number of extended fingers of a complete hand. *)
Definition extended_fingers (lm : list landmark) : nat :=
  extendedCount (joint lm 4) (joint lm 8) (joint lm 12) (joint lm 16)
                (joint lm 20) (joint lm 2) (joint lm 5) (joint lm 9)
                (joint lm 13) (joint lm 17).

(** The rule as the specification words it.  [at_least k ps]: at least [k]
    of the propositions [ps] hold. *)
Fixpoint at_least (k : nat) (ps : list Prop) : Prop :=
  match k, ps with
  | O, _ => True
  | S _, [] => False
  | S k', p :: rest => (p /\ at_least k' rest) \/ at_least k rest
  end.

(** The thumb is extended: its tip, keypoint 4, is more than 0.1 away from
    its base, keypoint 2, in space. *)
Definition thumb_far (lm : list landmark) : Prop :=
  exists z4 z2,
    lz (joint lm 4) = Some z4 /\ lz (joint lm 2) = Some z2
    /\ 0.1 < sqrt ((lx (joint lm 4) - lx (joint lm 2))
                   * (lx (joint lm 4) - lx (joint lm 2))
                   + (ly (joint lm 4) - ly (joint lm 2))
                     * (ly (joint lm 4) - ly (joint lm 2))
                   + (z4 - z2) * (z4 - z2)).

(** A finger is extended: its tip is above its knuckle in the image, that
    is, has the smaller y. *)
Definition tip_above (lm : list landmark) (tip knuckle : nat) : Prop :=
  ly (joint lm tip) < ly (joint lm knuckle).

(** The five fingers of the rule: thumb, index, middle, ring, pinky. *)
Definition five_fingers (lm : list landmark) : list Prop :=
  [thumb_far lm; tip_above lm 8 5; tip_above lm 12 9; tip_above lm 16 13;
   tip_above lm 20 17].

(** A fist seen from the back: every keypoint on one spot of the image, the
    thumb folded in. *)
Definition fist_hand : list landmark :=
  repeat {| lx := 0.5; ly := 0.5; lz := Some 0 |} 21.

(** A hand held upright: every tip above (smaller y than) its knuckle. *)
Definition upright_point (i : nat) : landmark :=
  {| lx := 0; ly := 1 - INR i / 32; lz := Some 0 |}.

Definition upright_hand : list landmark := map upright_point (seq 0 21).

Definition sample_globals : globals :=
  {| particleCount := 1;
     isHandOpen := false;
     targetScale := 1.0;
     currentScale := 1.0;
     positions := [Some 1; Some 2; Some 3];
     initialPositions := [Some 1; Some 2; Some 3];
     rotation_x := 0;
     rotation_y := 0 |}.

End Threshold.

(* ================================================================== *)
(** ** gestureDetector.js: the rest of the class *)
(* ================================================================== *)

Module GestureSession.
Import JS GestureDetector.

(** The five objects [getGestureDescription] can return, by their text:
    'Searching...', 'Closed Fist', 'Partially Closed', 'Partially Open' and
    'Open Hand' (each comes with its own icon). *)
Inductive description :=
| Searching | ClosedFist | PartiallyClosed | PartiallyOpen | OpenHand.

(** [openness < bound], false on NaN. *)
Definition below (openness : num) (bound : R) : bool :=
  match openness with Some o => ltb o bound | None => false end.

Definition getGestureDescription (g : gesture) : description :=
  if negb (isDetected g) then Searching
  else if below (openness g) 0.3 then ClosedFist
  else if below (openness g) 0.5 then PartiallyClosed
  else if below (openness g) 0.7 then PartiallyOpen
  else OpenHand.

Definition getGesture (d : detector) : gesture := currentGesture d.

(** The descriptions of a tracked hand, from closed to open. *)
Definition rank (t : description) : nat :=
  match t with
  | Searching => 0
  | ClosedFist => 1
  | PartiallyClosed => 2
  | PartiallyOpen => 3
  | OpenHand => 4
  end.

(** The detector together with its [isRunning] flag. *)
Record session := { detector_of : detector; isRunning : bool }.

(** The state [init] leaves once the camera has started. *)
Definition init (d : detector) : session :=
  {| detector_of := d; isRunning := true |}.

Definition pause (c : session) : session :=
  {| detector_of := detector_of c; isRunning := false |}.

Definition resume (c : session) : session :=
  {| detector_of := detector_of c; isRunning := true |}.

Definition stop (c : session) : session :=
  {| detector_of := detector_of c; isRunning := false |}.

(** The camera's [onFrame]: the image is sent to the landmark model, whose
    answer [res] reaches [onResults], only while [isRunning]. *)
Definition onFrame (res : results) (c : session) : session * list event :=
  if isRunning c
  then let (d, ev) := frame res (detector_of c) in
       ({| detector_of := d; isRunning := true |}, ev)
  else (c, []).

Fixpoint onFrames (frames : list results) (c : session) : session :=
  match frames with
  | [] => c
  | res :: rest => onFrames rest (fst (onFrame res c))
  end.

(** [K] consecutive frames showing the hand [h]. *)
Fixpoint hold (h : hand) (K : nat) (d : detector) : detector :=
  match K with
  | O => d
  | S k => fst (frame [h] (hold h k d))
  end.

(** *** Predicates of the properties *)

(** NaN, or a number of [0, 1]. *)
Definition unit_num (x : num) : Prop :=
  match x with None => True | Some v => 0 <= v <= 1 end.

Definition in_unit_square (p : point) : Prop :=
  (0 <= px p <= 1) /\ (0 <= py p <= 1).

(** The wrist and the index and pinky knuckles of the first hand, when
    present, lie in the image. *)
Definition palm_in_image (res : results) : Prop :=
  match res with
  | [] => True
  | h :: _ =>
      forall i p, In i [WRIST; INDEX_MCP; PINKY_MCP] ->
        nth_error (landmarks h) i = Some p ->
        (0 <= lx p <= 1) /\ (0 <= ly p <= 1)
  end.

Definition well_ranged (d : detector) : Prop :=
  (0 <= smoothingFactor d <= 1)
  /\ unit_num (openness (currentGesture d))
  /\ unit_num (previousOpenness d)
  /\ in_unit_square (position (currentGesture d))
  /\ in_unit_square (previousPosition d).

(** Some finger whose tip, base knuckle and the wrist all coincide. *)
Definition collapsed_finger (lm : list landmark) : Prop :=
  exists tip mcp, In (tip, mcp) (combine fingerTips fingerMCPs)
    /\ distance (keypoint lm tip) (keypoint lm mcp) = 0
    /\ distance (keypoint lm mcp) (keypoint lm WRIST) = 0.

(** The keypoint [p] seen from a camera that magnifies by [k] and shifts the
    image by [(a, b)]. *)
Definition reframe (k a b : R) (p : landmark) : landmark :=
  {| lx := k * lx p + a;
     ly := k * ly p + b;
     lz := match lz p with Some z => Some (k * z) | None => None end |}.

(** A hand all of whose keypoints sit on one spot. *)
Definition dot_hand : list landmark := repeat origin 21.

Definition dot_frame : hand := {| landmarks := dot_hand; score := 0.5 |}.

(** Is [i] the index of a fingertip (4, 8, 12, 16 or 20)? *)
Definition is_tip (i : nat) : bool := Nat.eqb (i mod 4) 0 && negb (Nat.eqb i 0).

(** A flat open hand: the wrist at 0 on the x axis, every other keypoint at
    1 but the five fingertips, which are at 3. *)
Definition open_palm_point (i : nat) : landmark :=
  {| lx := if Nat.eqb i 0 then 0 else if is_tip i then 3 else 1;
     ly := 0; lz := None |}.

Definition open_palm : list landmark := map open_palm_point (seq 0 21).

Definition open_frame : hand := {| landmarks := open_palm; score := 0.9 |}.

(** A hand whose keypoints all sit on the wrist but the five fingertips. *)
Definition stub_point (i : nat) : landmark :=
  {| lx := if is_tip i then 1 else 0; ly := 0; lz := None |}.

Definition stub_hand : list landmark := map stub_point (seq 0 21).

End GestureSession.

(* ================================================================== *)
(** ** The particle-system module: the rest of the class *)
(* ================================================================== *)

Module ParticleControls.
Import JS ParticleSystem.

Definition size_step (size : R) (i : nat) (s : list num * rng) : list num * rng :=
  let (sizes, g) := s in
  let (r, g) := random g in
  (tset sizes i (Some (size * (0.5 + r * 0.5))), g).

Definition setParticleSize (size : R) (s : system) : system :=
  let '(sizes', g) :=
    for_loop (particleCount s) (size_step size) (sizes s, rand s) in
  {| particleCount := particleCount s;
     particleSize := size;
     animationSpeed := animationSpeed s;
     currentPattern := currentPattern s;
     primaryColor := primaryColor s;
     secondaryColor := secondaryColor s;
     targetPositions := targetPositions s;
     originalPositions := originalPositions s;
     velocities := velocities s;
     gestureInfluence := gestureInfluence s;
     gesturePosition := gesturePosition s;
     time := time s;
     isAnimating := isAnimating s;
     positions := positions s;
     colors := colors s;
     sizes := sizes';
     alphas := alphas s;
     randomSeeds := randomSeeds s;
     rotation_y := rotation_y s;
     rand := g |}.

Definition setAnimationSpeed (speed : R) (s : system) : system :=
  {| particleCount := particleCount s;
     particleSize := particleSize s;
     animationSpeed := speed;
     currentPattern := currentPattern s;
     primaryColor := primaryColor s;
     secondaryColor := secondaryColor s;
     targetPositions := targetPositions s;
     originalPositions := originalPositions s;
     velocities := velocities s;
     gestureInfluence := gestureInfluence s;
     gesturePosition := gesturePosition s;
     time := time s;
     isAnimating := isAnimating s;
     positions := positions s;
     colors := colors s;
     sizes := sizes s;
     alphas := alphas s;
     randomSeeds := randomSeeds s;
     rotation_y := rotation_y s;
     rand := rand s |}.

(** [dispose]: of the fields kept here only [isAnimating] changes (the
    scene, the renderer and the canvas are released). *)
Definition dispose (s : system) : system :=
  {| particleCount := particleCount s;
     particleSize := particleSize s;
     animationSpeed := animationSpeed s;
     currentPattern := currentPattern s;
     primaryColor := primaryColor s;
     secondaryColor := secondaryColor s;
     targetPositions := targetPositions s;
     originalPositions := originalPositions s;
     velocities := velocities s;
     gestureInfluence := gestureInfluence s;
     gesturePosition := gesturePosition s;
     time := time s;
     isAnimating := false;
     positions := positions s;
     colors := colors s;
     sizes := sizes s;
     alphas := alphas s;
     randomSeeds := randomSeeds s;
     rotation_y := rotation_y s;
     rand := rand s |}.

(** [K] animation frames in a row. *)
Fixpoint animate_frames (K : nat) (s : system) : system :=
  match K with
  | O => s
  | S k => animate (animate_frames k s)
  end.

(** The bloom fields of the system: [this.bloomEnabled],
    [this.bloomStrength] and the shader uniform
    [this.particles.material.uniforms.bloomStrength.value]. *)
Record bloom := { bloomEnabled : bool; bloomStrength : R; uniform : R }.

(** After the constructor: the field initialisers, and the uniform of the
    material [createParticles] builds. *)
Definition bloom_constructor : bloom :=
  {| bloomEnabled := true; bloomStrength := 1.2; uniform := 1.2 |}.

Definition setBloomStrength (strength : R) (b : bloom) : bloom :=
  {| bloomEnabled := bloomEnabled b; bloomStrength := strength; uniform := strength |}.

Definition setBloomEnabled (enabled : bool) (b : bloom) : bloom :=
  let b' := {| bloomEnabled := enabled;
               bloomStrength := bloomStrength b;
               uniform := uniform b |} in
  setBloomStrength (if enabled then bloomStrength b' else 0) b'.

(** *** What the loops store *)

(** The float offset [animate] adds to the y coordinate of particle [i]. *)
Definition float_offset (n : nat) (speed time : R) (i : nat) : R :=
  sin (time * (0.5 + (INR i / INR n) * 0.5) + INR i * 0.1) * (0.1 * speed).

(** What one frame of [animate] leaves in position cell [j]. *)
Definition animated_cell (n : nat) (target : list num) (speed time : R)
  (positions : list num) (j : nat) : num :=
  let moved := add (get positions j)
                   (mul (sub (get target j) (get positions j))
                        (Some (0.05 * speed))) in
  match (j mod 3)%nat with
  | 1%nat => add moved (Some (float_offset n speed time (j / 3)))
  | _ => moved
  end.

(** The channel of a colour that lands in cell [j] of the colour buffer. *)
Definition channel (c : Color) (j : nat) : R :=
  match (j mod 3)%nat with
  | O => cr c
  | 1%nat => cg c
  | _ => cb c
  end.

(** The state of the buffers after [k] iterations of the loop of
    [createParticles] started with the generator [g]. *)
Definition created (lerpColors : Color -> Color -> R -> Color)
  (getHSL : Color -> R * R * R) (setHSL : R -> R -> R -> Color)
  (s : system) (pp : list num) (g : rng) (k : nat) (b : buffers) : Prop :=
  let n := particleCount s in
  (length (b_positions b) = (n * 3)%nat
   /\ forall j, (j < k * 3)%nat -> get (b_positions b) j = get pp j)
  /\ (length (b_original b) = (k * 3)%nat
      /\ forall j, (j < k * 3)%nat -> get (b_original b) j = get pp j)
  /\ (length (b_target b) = (k * 3)%nat
      /\ forall j, (j < k * 3)%nat -> get (b_target b) j = get pp j)
  /\ b_velocities b = repeat (Some 0) (k * 3)
  /\ b_rand b = {| draws := draws g; next := (next g + 3 * k)%nat |}
  /\ (length (b_colors b) = (n * 3)%nat
      /\ forall j, (j < k * 3)%nat ->
           get (b_colors b) j
           = Some (channel (particle_color lerpColors getHSL setHSL
                              (primaryColor s) (secondaryColor s) n (j / 3)) j))
  /\ (length (b_sizes b) = n
      /\ forall i, (i < k)%nat ->
           get (b_sizes b) i
           = Some (particleSize s * (0.4 + draws g (next g + 3 * i)%nat * 0.6)))
  /\ (length (b_alphas b) = n
      /\ forall i, (i < k)%nat ->
           get (b_alphas b) i = Some (0.7 + draws g (next g + 3 * i + 1)%nat * 0.3))
  /\ (length (b_randomSeeds b) = n
      /\ forall i, (i < k)%nat ->
           get (b_randomSeeds b) i = Some (draws g (next g + 3 * i + 2)%nat)).

End ParticleControls.

(* ================================================================== *)
(** ** particles.js: the rest of the file *)
(* ================================================================== *)

Module ThresholdScene.
Import JS Threshold.

(** The argument of [createParticleSystem]: 'sphere', 'cube', or anything
    else ('random' and the [default] branch share their code). *)
Inductive pattern := sphere | cube | random_cloud.

Definition place (pat : pattern) (g : rng) : (num * num * num) * rng :=
  match pat with
  | sphere =>
      let (a, g) := random g in
      let theta := a * PI * 2 in
      let (b, g) := random g in
      let phi := Math_acos (2 * b - 1) in
      let (c, g) := random g in
      let radius := 15 + c * 10 in
      ((lift1 (fun phi => radius * sin phi * cos theta) phi,
        lift1 (fun phi => radius * sin phi * sin theta) phi,
        lift1 (fun phi => radius * cos phi) phi), g)
  | cube =>
      let size := 25 in
      let (a, g) := random g in
      let (b, g) := random g in
      let (c, g) := random g in
      ((Some ((a - 0.5) * size), Some ((b - 0.5) * size),
        Some ((c - 0.5) * size)), g)
  | random_cloud =>
      let spread := 30 in
      let (a, g) := random g in
      let (b, g) := random g in
      let (c, g) := random g in
      ((Some ((a - 0.5) * spread), Some ((b - 0.5) * spread),
        Some ((c - 0.5) * spread)), g)
  end.

Definition create_step (pat : pattern) (i : nat)
  (s : list num * list num * rng) : list num * list num * rng :=
  let '(positions, initialPositions, g) := s in
  let '((x, y, z), g') := place pat g in
  let i3 := (i * 3)%nat in
  (tset (tset (tset positions i3 x) (i3 + 1) y) (i3 + 2) z,
   tset (tset (tset initialPositions i3 x) (i3 + 1) y) (i3 + 2) z,
   g').

(** [createParticleSystem]: the two fresh buffers replace the old ones; the
    scale variables and the particle count are left alone. *)
Definition createParticleSystem (pat : pattern) (g : rng) (s : globals)
  : globals * rng :=
  let n := particleCount s in
  let '(positions', initialPositions', g') :=
    for_loop n (create_step pat)
             (Float32Array (n * 3), Float32Array (n * 3), g) in
  ({| particleCount := n;
      isHandOpen := isHandOpen s;
      targetScale := targetScale s;
      currentScale := currentScale s;
      positions := positions';
      initialPositions := initialPositions';
      rotation_x := 0;
      rotation_y := 0 |}, g').

(** What can happen between two looks at the scene: a camera result or an
    animation frame. *)
Inductive step :=
| Hands (multiHandLandmarks : list (list landmark))
| Tick.

(** A result that makes [onHandsResults] throw leaves the variables as they
    were. *)
Definition perform (e : step) (s : globals) : globals :=
  match e with
  | Hands hands =>
      match onHandsResults hands s with Some s' => s' | None => s end
  | Tick => animate s
  end.

Definition perform_all (es : list step) (s : globals) : globals :=
  fold_left (fun acc e => perform e acc) es s.

(** [K] animation frames in a row. *)
Fixpoint ticks (K : nat) (s : globals) : globals :=
  match K with
  | O => s
  | S k => animate (ticks k s)
  end.

(** Both scales lie between the closed and the open scale. *)
Definition scale_ok (s : globals) : Prop :=
  (0.3 <= currentScale s <= 1.5) /\ (0.3 <= targetScale s <= 1.5).

(** The four fingers other than the thumb that are extended. *)
Definition fingers_up (lm : list landmark) : nat :=
  count (fingerExtended (joint lm 8) (joint lm 5))
  + count (fingerExtended (joint lm 12) (joint lm 9))
  + count (fingerExtended (joint lm 16) (joint lm 13))
  + count (fingerExtended (joint lm 20) (joint lm 17)).

End ThresholdScene.

(* ================================================================== *)
(** ** Properties of the gesture estimator *)
(* ================================================================== *)

Section Estimator.
Import JS GestureDetector.

(** *** Landmark access *)

Lemma keypoint_defined (lm : list landmark) (i : nat) :
  (i < length lm)%nat -> nth_error lm i = Some (keypoint lm i).
Proof.
  intros H. unfold keypoint. now apply nth_error_nth'.
Qed.

Lemma distance_nonneg (p q : landmark) : 0 <= distance p q.
Proof. unfold distance. apply sqrt_pos. Qed.

Lemma extension_spec (tipToMCP mcpToWrist : R) :
  mcpToWrist <> 0 ->
  extension tipToMCP mcpToWrist = Some (Rmin (tipToMCP / (1.5 * mcpToWrist)) 1).
Proof.
  intros H. unfold extension.
  destruct (Req_dec_T (mcpToWrist * 1.5) 0) as [E | _]; [lra |].
  now rewrite (Rmult_comm 1.5).
Qed.

Lemma finger_extension_spec (lm : list landmark) (tip mcp : nat) :
  (tip < length lm)%nat -> (mcp < length lm)%nat -> (0 < length lm)%nat ->
  distance (keypoint lm mcp) (keypoint lm WRIST) <> 0 ->
  finger_extension lm tip mcp = Some (Some (spec_extension lm tip mcp)).
Proof.
  intros Ht Hm Hw Hd. unfold finger_extension.
  rewrite (keypoint_defined lm tip Ht), (keypoint_defined lm mcp Hm),
          (keypoint_defined lm WRIST Hw).
  now rewrite extension_spec.
Qed.

Lemma spec_extension_range (lm : list landmark) (tip mcp : nat) :
  0 <= spec_extension lm tip mcp <= 1.
Proof.
  unfold spec_extension. split; [| apply Rmin_r].
  apply Rmin_glb; [| lra].
  pose proof (distance_nonneg (keypoint lm tip) (keypoint lm mcp)) as H1.
  pose proof (distance_nonneg (keypoint lm mcp) (keypoint lm WRIST)) as H2.
  destruct (Req_dec_T (distance (keypoint lm mcp) (keypoint lm WRIST)) 0) as [E | N].
  - rewrite E, Rmult_0_r. unfold Rdiv. rewrite Rinv_0. lra.
  - apply Rmult_le_pos; [exact H1 |].
    apply Rlt_le, Rinv_0_lt_compat. lra.
Qed.

Lemma spec_extension_saturates (lm : list landmark) (tip mcp : nat) :
  distance (keypoint lm mcp) (keypoint lm WRIST) <> 0 ->
  1.5 * distance (keypoint lm mcp) (keypoint lm WRIST)
    <= distance (keypoint lm tip) (keypoint lm mcp) ->
  spec_extension lm tip mcp = 1.
Proof.
  intros N H. unfold spec_extension.
  pose proof (distance_nonneg (keypoint lm mcp) (keypoint lm WRIST)) as H2.
  apply Rmin_right.
  apply (Rmult_le_reg_r (1.5 * distance (keypoint lm mcp) (keypoint lm WRIST)));
    [lra |].
  unfold Rdiv. rewrite Rmult_assoc, Rinv_l by lra. lra.
Qed.

Lemma rpow_unit (m y : R) : 0 <= m <= 1 -> 0 < y -> 0 <= rpow m y <= 1.
Proof.
  intros [H0 H1] Hy. unfold rpow.
  destruct (Req_dec_T m 0) as [E | N]; [lra |].
  split.
  - unfold Rpower. left. apply exp_pos.
  - replace 1 with (Rpower 1 y)
      by (unfold Rpower; rewrite ln_1, Rmult_0_r; apply exp_0).
    apply Rle_Rpower_l; lra.
Qed.

Lemma fingers_in_range (lm : list landmark) (tip mcp : nat) :
  (21 <= length lm)%nat -> In (tip, mcp) (combine fingerTips fingerMCPs) ->
  (tip < length lm)%nat /\ (mcp < length lm)%nat /\ In mcp fingerMCPs.
Proof.
  intros Hlen Hin. simpl in Hin.
  repeat (destruct Hin as [Hin | Hin];
          [inversion Hin; subst; cbv [THUMB_TIP INDEX_TIP MIDDLE_TIP RING_TIP
             PINKY_TIP INDEX_MCP MIDDLE_MCP RING_MCP PINKY_MCP fingerMCPs];
           simpl; intuition lia |]).
  contradiction.
Qed.

Lemma extension_unit (tipToMCP mcpToWrist x : R) :
  0 <= tipToMCP -> 0 <= mcpToWrist ->
  extension tipToMCP mcpToWrist = Some x -> 0 <= x <= 1.
Proof.
  intros Ht Hw. unfold extension.
  destruct (Req_dec_T (mcpToWrist * 1.5) 0) as [E | N].
  - destruct (Req_dec_T tipToMCP 0); intros H; inversion H; lra.
  - intros H. inversion H. split; [| apply Rmin_r].
    apply Rmin_glb; [| lra].
    apply Rmult_le_pos; [exact Ht |].
    apply Rlt_le, Rinv_0_lt_compat. lra.
Qed.

(** X26.  On a complete hand every finger's extension score is NaN or a
    number of [0, 1], whatever the distances.  When no base knuckle lies on
    the wrist, the score is min(d(tip, knuckle) / (1.5 d(knuckle, wrist)), 1);
    it is exactly 1 once the tip is at least 1.5 times the knuckle-to-wrist
    distance away from the knuckle; and the raw openness is the mean of the
    five scores to the power 0.8, clamped to [0, 1] (a clamp that is then the
    identity). *)
Theorem extension_scores_and_openness (lm : list landmark) :
  (21 <= length lm)%nat ->
  (forall tip mcp, In (tip, mcp) (combine fingerTips fingerMCPs) ->
     exists e, finger_extension lm tip mcp = Some e
               /\ forall x, e = Some x -> 0 <= x <= 1)
  /\ (knuckles_off_wrist lm ->
      (forall tip mcp, In (tip, mcp) (combine fingerTips fingerMCPs) ->
         finger_extension lm tip mcp = Some (Some (spec_extension lm tip mcp))
         /\ spec_extension lm tip mcp <= 1
         /\ (1.5 * distance (keypoint lm mcp) (keypoint lm WRIST)
               <= distance (keypoint lm tip) (keypoint lm mcp) ->
             spec_extension lm tip mcp = 1))
      /\ exists g, analyzeGesture lm = Some g
           /\ raw_openness g = Some (spec_openness lm)
           /\ 0 <= spec_openness lm <= 1).
Proof.
  intros Hlen. split.
  { intros tip mcp Hin.
    destruct (fingers_in_range lm tip mcp Hlen Hin) as (Ht & Hm & _).
    unfold finger_extension.
    rewrite (keypoint_defined lm tip Ht), (keypoint_defined lm mcp Hm),
            (keypoint_defined lm WRIST) by (unfold WRIST; lia).
    eexists. split; [reflexivity |].
    intros x Hx. eapply extension_unit; [| | exact Hx]; apply distance_nonneg. }
  intros Hoff.
  assert (Hfinger : forall tip mcp,
             In (tip, mcp) (combine fingerTips fingerMCPs) ->
             finger_extension lm tip mcp
             = Some (Some (spec_extension lm tip mcp))).
  { intros tip mcp Hin.
    destruct (fingers_in_range lm tip mcp Hlen Hin) as (Ht & Hm & Hk).
    apply finger_extension_spec; try assumption; [lia | now apply Hoff]. }
  split.
  - intros tip mcp Hin.
    destruct (fingers_in_range lm tip mcp Hlen Hin) as (Ht & Hm & Hk).
    split; [now apply Hfinger |].
    split; [apply spec_extension_range |].
    apply spec_extension_saturates. now apply Hoff.
  - unfold analyzeGesture.
    rewrite (keypoint_defined lm WRIST), (keypoint_defined lm INDEX_MCP),
            (keypoint_defined lm PINKY_MCP)
      by (cbv [WRIST INDEX_MCP PINKY_MCP]; lia).
    cbn [combine fingerTips fingerMCPs sum_extensions].
    rewrite !Hfinger by (simpl; tauto).
    cbn [add lift2 lift1 length fingerTips].
    pose proof (spec_extension_range lm THUMB_TIP 1) as R1.
    pose proof (spec_extension_range lm INDEX_TIP INDEX_MCP) as R2.
    pose proof (spec_extension_range lm MIDDLE_TIP MIDDLE_MCP) as R3.
    pose proof (spec_extension_range lm RING_TIP RING_MCP) as R4.
    pose proof (spec_extension_range lm PINKY_TIP PINKY_MCP) as R5.
    set (total := 0 + _ + _ + _ + _ + _).
    assert (Hmean : total / INR 5
                    = (spec_extension lm THUMB_TIP 1
                       + spec_extension lm INDEX_TIP INDEX_MCP
                       + spec_extension lm MIDDLE_TIP MIDDLE_MCP
                       + spec_extension lm RING_TIP RING_MCP
                       + spec_extension lm PINKY_TIP PINKY_MCP) / 5).
    { subst total. simpl INR. lra. }
    rewrite Hmean.
    set (mean := (_ + _ + _ + _ + _) / 5).
    assert (Hm : 0 <= mean <= 1) by (subst mean; lra).
    unfold Math_pow.
    destruct (Rlt_dec mean 0) as [Hneg | _]; [lra |].
    eexists. split; [reflexivity |]. cbn [raw_openness Math_max Math_min lift2].
    pose proof (rpow_unit mean 0.8 Hm ltac:(lra)) as Hp.
    split.
    + reflexivity.
    + unfold spec_openness. fold mean.
      rewrite Rmin_right by lra. rewrite Rmax_right by lra. exact Hp.
Qed.

Lemma sample_keypoint (i : nat) :
  (i < 21)%nat -> keypoint sample_hand i = sample_point i.
Proof.
  intros Hi. unfold keypoint, sample_hand.
  rewrite (nth_indep _ origin (sample_point 0))
    by (rewrite length_map, length_seq; lia).
  now rewrite map_nth, seq_nth by lia.
Qed.

Lemma sample_distance (i j : nat) :
  (i < 21)%nat -> (j <= i)%nat ->
  distance (keypoint sample_hand i) (keypoint sample_hand j) = INR i - INR j.
Proof.
  intros Hi Hj. rewrite !sample_keypoint by lia.
  unfold distance, zcoord. cbn [lx ly lz sample_point Nat.add].
  replace ((INR i - INR j) * (INR i - INR j) + (0 - 0) * (0 - 0) + (0 - 0) * (0 - 0))
    with (Rsqr (INR i - INR j)) by (unfold Rsqr; ring).
  apply sqrt_Rsqr. apply le_INR in Hj. lra.
Qed.

Lemma sample_hand_off_wrist : knuckles_off_wrist sample_hand.
Proof.
  intros mcp Hin. unfold WRIST.
  assert (Hm : (0 < mcp < 21)%nat).
  { simpl in Hin. cbv [INDEX_MCP MIDDLE_MCP RING_MCP PINKY_MCP] in Hin.
    intuition lia. }
  rewrite sample_distance by lia.
  destruct Hm as [Hm _]. apply lt_INR in Hm. simpl in *. lra.
Qed.

Lemma extension_scores_and_openness_witness :
  (21 <= length sample_hand)%nat /\ knuckles_off_wrist sample_hand
  /\ exists g, analyzeGesture sample_hand = Some g
       /\ raw_openness g = Some (spec_openness sample_hand)
       /\ 0 <= spec_openness sample_hand <= 1.
Proof.
  split; [simpl; lia |]. split; [exact sample_hand_off_wrist |].
  destruct (extension_scores_and_openness sample_hand ltac:(simpl; lia))
    as [_ Hoff].
  apply (Hoff sample_hand_off_wrist).
Defined.

(** *** Smoothing factor *)

Lemma analyzeGesture_complete (lm : list landmark) :
  (21 <= length lm)%nat -> exists g, analyzeGesture lm = Some g.
Proof.
  intros Hlen. unfold analyzeGesture.
  rewrite (keypoint_defined lm WRIST), (keypoint_defined lm INDEX_MCP),
          (keypoint_defined lm PINKY_MCP)
    by (cbv [WRIST INDEX_MCP PINKY_MCP]; lia).
  cbn [combine fingerTips fingerMCPs sum_extensions]. unfold finger_extension.
  rewrite (keypoint_defined lm WRIST), (keypoint_defined lm INDEX_MCP),
          (keypoint_defined lm PINKY_MCP), (keypoint_defined lm THUMB_TIP),
          (keypoint_defined lm 1), (keypoint_defined lm INDEX_TIP),
          (keypoint_defined lm MIDDLE_TIP), (keypoint_defined lm MIDDLE_MCP),
          (keypoint_defined lm RING_TIP), (keypoint_defined lm RING_MCP),
          (keypoint_defined lm PINKY_TIP)
    by (cbv [WRIST INDEX_MCP PINKY_MCP THUMB_TIP INDEX_TIP MIDDLE_TIP
             MIDDLE_MCP RING_TIP RING_MCP PINKY_TIP]; lia).
  eexists. reflexivity.
Qed.

(** What is left of the gap to the new sample after one interpolation: the
    share [1 - t] of the previous value. *)
Remark lerp_gap (a b t : R) : lerp a b t - b = (1 - t) * (a - b).
Proof. unfold lerp. ring. Qed.

(** *** Frames without a hand *)

Lemma nohand_step (d : detector) :
  frame [] d
  = ({| sensitivity := sensitivity d;
        currentGesture :=
          {| openness := nlerp (openness (currentGesture d)) (Some 0.5) 0.05;
             position :=
               {| px := lerp (px (position (currentGesture d))) 0.5 0.05;
                  py := lerp (py (position (currentGesture d))) 0.5 0.05 |};
             isDetected := false;
             confidence := confidence (currentGesture d) |};
        onGestureUpdate := onGestureUpdate d;
        onHandDetected := onHandDetected d;
        onHandLost := onHandLost d;
        smoothingFactor := smoothingFactor d;
        previousOpenness := previousOpenness d;
        previousPosition := previousPosition d;
        wasHandDetected := false |},
     snd (frame [] d)).
Proof. reflexivity. Qed.




(** *** Edge notifications *)

Lemma edges_app (a b : list event) : edges (a ++ b) = edges a ++ edges b.
Proof.
  induction a as [| [g | |] a IH]; cbn; now rewrite ?IH.
Qed.

Lemma frame_edges (res : results) (d : detector) :
  listening d ->
  listening (fst (frame res d))
  /\ edges (snd (frame res d))
     = edge_of (wasHandDetected d) (wasHandDetected (fst (frame res d))).
Proof.
  intros [Hd Hl]. unfold frame, onResults.
  destruct res as [| h rest].
  - cbn. rewrite Hl. split; [now split |].
    rewrite edges_app.
    destruct (wasHandDetected d), (onGestureUpdate d); reflexivity.
  - destruct (analyzeGesture (landmarks h)) as [g |].
    + cbn. rewrite Hd. split; [now split |].
      rewrite edges_app.
      destruct (wasHandDetected d), (onGestureUpdate d); reflexivity.
    + cbn. split; [now split |].
      unfold edge_of. now rewrite Bool.eqb_reflx.
Qed.

Lemma alternates_edge (t t' : bool) (b : list bool) :
  alternates t' b -> alternates t (edge_of t t' ++ b).
Proof.
  unfold edge_of. destruct t, t'; cbn; auto.
Qed.

Lemma run_alternates (frames : list results) (d : detector) :
  listening d ->
  alternates (wasHandDetected d) (edges (concat (snd (run frames d)))).
Proof.
  revert d. induction frames as [| res rest IH]; intros d Hl.
  - exact I.
  - cbn [run].
    destruct (frame_edges res d Hl) as [Hl1 He].
    destruct (frame res d) as [d1 ev1] eqn:Hf. cbn [fst snd] in *.
    specialize (IH d1 Hl1).
    destruct (run rest d1) as [d2 evs]. cbn [snd concat] in *.
    rewrite edges_app, He.
    now apply alternates_edge.
Qed.

Lemma frame_notifies (res : results) (d : detector) :
  listening d -> usable res ->
  listening (fst (frame res d))
  /\ wasHandDetected (fst (frame res d)) = has_hand res
  /\ occurrences is_detected (snd (frame res d))
     = flag (negb (wasHandDetected d) && has_hand res)
  /\ occurrences is_lost (snd (frame res d))
     = flag (wasHandDetected d && negb (has_hand res)).
Proof.
  intros [Hd Hl] Hu. unfold frame, onResults.
  destruct res as [| h rest].
  - cbn. rewrite Hl. split; [now split |]. split; [reflexivity |].
    unfold occurrences. rewrite !filter_app.
    destruct (wasHandDetected d), (onGestureUpdate d); split; reflexivity.
  - destruct (analyzeGesture_complete _ Hu) as [g ->].
    cbn. rewrite Hd. split; [now split |]. split; [reflexivity |].
    unfold occurrences. rewrite !filter_app.
    destruct (wasHandDetected d), (onGestureUpdate d); split; reflexivity.
Qed.

(** Advance a run by one usable frame, recording what it notified. *)
Ltac run_frame Hl :=
  match goal with
  | |- context [frame ?res ?d] =>
      let d1 := fresh "d" in
      let ev := fresh "ev" in
      let F := fresh "F" in
      let Hl' := fresh "Hl" in
      let Hw := fresh "Hw" in
      let Hdet := fresh "Hdet" in
      let Hlost := fresh "Hlost" in
      destruct (frame_notifies res d Hl ltac:(assumption || exact I))
        as (Hl' & Hw & Hdet & Hlost);
      destruct (frame res d) as [d1 ev] eqn:F;
      cbn [fst snd has_hand] in Hl', Hw, Hdet, Hlost
  end.

(** C6.  With both listeners installed: a processed frame invokes
    [onHandDetected] exactly once when the hand flag goes from false to true
    and not at all otherwise, and [onHandLost] exactly once when it goes from
    true to false and not at all otherwise; the flag after the frame says
    whether the frame carried a hand.  Over any run the edge notifications
    strictly alternate.  From an untracked state the frames
    [no, no, yes, yes, no] give one [HandDetected], in frame 2, and one
    [HandLost], in frame 4. *)
Theorem edge_notifications :
  (forall d res d' ev,
      listening d -> onResults res d = Some (d', ev) ->
      listening d'
      /\ wasHandDetected d' = match res with [] => false | _ :: _ => true end
      /\ occurrences is_detected ev
         = flag (negb (wasHandDetected d) && wasHandDetected d')
      /\ occurrences is_lost ev
         = flag (wasHandDetected d && negb (wasHandDetected d')))
  /\ (forall frames d,
        listening d ->
        alternates (wasHandDetected d) (edges (concat (snd (run frames d)))))
  /\ (forall d h1 h2,
        listening d -> wasHandDetected d = false ->
        (21 <= length (landmarks h1))%nat -> (21 <= length (landmarks h2))%nat ->
        let evs := snd (run [[]; []; [h1]; [h2]; []] d) in
        map (occurrences is_detected) evs = [0; 0; 1; 0; 0]%nat
        /\ map (occurrences is_lost) evs = [0; 0; 0; 0; 1]%nat).
Proof.
  split; [| split].
  - intros d res d' ev [Hd Hl] Hres. unfold onResults in Hres.
    destruct res as [| h rest].
    + inversion Hres; subst; clear Hres. cbn. rewrite Hl.
      split; [now split |]. split; [reflexivity |].
      unfold occurrences. rewrite !filter_app.
      destruct (wasHandDetected d), (onGestureUpdate d); split; reflexivity.
    + destruct (analyzeGesture (landmarks h)) as [g |]; [| discriminate].
      inversion Hres; subst; clear Hres. cbn. rewrite Hd.
      split; [now split |]. split; [reflexivity |].
      unfold occurrences. rewrite !filter_app.
      destruct (wasHandDetected d), (onGestureUpdate d); split; reflexivity.
  - intros frames d Hl. now apply run_alternates.
  - intros d h1 h2 Hl0 Hw0 H1 H2.
    assert (U1 : usable [h1]) by exact H1.
    assert (U2 : usable [h2]) by exact H2.
    cbn [run].
    run_frame Hl0. run_frame Hl. run_frame Hl1. run_frame Hl2. run_frame Hl3.
    cbn [snd map].
    rewrite Hdet, Hdet0, Hdet1, Hdet2, Hdet3, Hlost, Hlost0, Hlost1, Hlost2, Hlost3.
    rewrite Hw0, Hw, Hw1, Hw2, Hw3. split; reflexivity.
Qed.

Lemma edge_notifications_witness :
  listening open_corner
  /\ alternates true
       (edges (concat (snd (run [[]; [sample_frame]; [sample_frame]; []] open_corner))))
  /\ map (occurrences is_detected)
       (snd (run [[]; []; [sample_frame]; [sample_frame]; []] (nohand 1 open_corner)))
     = [0; 0; 1; 0; 0]%nat
  /\ map (occurrences is_lost)
       (snd (run [[]; []; [sample_frame]; [sample_frame]; []] (nohand 1 open_corner)))
     = [0; 0; 0; 0; 1]%nat.
Proof.
  pose proof edge_notifications as (_ & Halt & Hex).
  split; [split; reflexivity |].
  split; [apply (Halt _ open_corner); split; reflexivity |].
  apply (Hex (nohand 1 open_corner) sample_frame sample_frame);
    [split; reflexivity | reflexivity | simpl; lia | simpl; lia].
Defined.

(** *** The smoothing state across frames without a hand *)




End Estimator.

(* ================================================================== *)
(** ** Arrays and loops *)
(* ================================================================== *)

Section Arrays.
Import JS.

Lemma for_loop_S {S : Type} (n : nat) (body : nat -> S -> S) (s : S) :
  for_loop (Datatypes.S n) body s = body n (for_loop n body s).
Proof.
  unfold for_loop. rewrite seq_S, fold_left_app. reflexivity.
Qed.

(** Loop invariants: [P k] holds of the state after [k] iterations. *)
Lemma for_loop_ind {S : Type} (P : nat -> S -> Prop) (n : nat)
  (body : nat -> S -> S) (s : S) :
  P O s ->
  (forall i acc, (i < n)%nat -> P i acc -> P (Datatypes.S i) (body i acc)) ->
  P n (for_loop n body s).
Proof.
  intros H0 Hstep.
  assert (H : forall k, (k <= n)%nat -> P k (for_loop k body s)).
  { induction k as [| k IH]; intros Hk; [exact H0 |].
    rewrite for_loop_S. apply Hstep; [lia |]. apply IH. lia. }
  apply H. lia.
Qed.

Lemma get_set (a : list num) (i j : nat) (v : num) :
  get (set a i v) j = if Nat.eqb i j then v else get a j.
Proof.
  unfold get. revert a j. induction i as [| i IH]; intros a j.
  - destruct a, j as [| [| j]]; reflexivity.
  - destruct a as [| h a], j as [| j]; cbn [set nth Nat.eqb]; try reflexivity.
    + rewrite IH. destruct (Nat.eqb i j), j; reflexivity.
    + apply IH.
Qed.

Lemma length_set (a : list num) (i : nat) (v : num) :
  length (set a i v) = Nat.max (length a) (Datatypes.S i).
Proof.
  revert a. induction i as [| i IH]; intros a.
  - destruct a; cbn; lia.
  - destruct a as [| h a]; cbn [set length]; rewrite IH; cbn; lia.
Qed.

Lemma length_tset (a : list num) (i : nat) (v : num) :
  length (tset a i v) = length a.
Proof.
  revert i. induction a as [| h a IH]; intros [| i]; cbn; auto.
Qed.

Lemma get_tset (a : list num) (i j : nat) (v : num) :
  (i < length a)%nat ->
  get (tset a i v) j = if Nat.eqb i j then v else get a j.
Proof.
  unfold get. revert i j. induction a as [| h a IH]; intros i j Hi.
  - cbn in Hi. lia.
  - destruct i as [| i], j as [| j]; cbn [tset nth Nat.eqb]; try reflexivity.
    apply IH. cbn in Hi. lia.
Qed.

Lemma length_Float32Array (n : nat) : length (Float32Array n) = n.
Proof. apply repeat_length. Qed.

Lemma length_push3 (a : list num) (x y z : num) :
  length (push3 a x y z) = (length a + 3)%nat.
Proof. unfold push3. rewrite length_app. reflexivity. Qed.

(** Two arrays of one length with the same cells are the same array. *)
Lemma array_ext (a b : list num) :
  length a = length b ->
  (forall j, (j < length a)%nat -> get a j = get b j) -> a = b.
Proof.
  intros Hlen Hget. apply (nth_ext a b None None Hlen). exact Hget.
Qed.

End Arrays.

(* ================================================================== *)
(** ** The binary32 conversion of a store *)
(* ================================================================== *)

Section Rounding.
Import JS.

Lemma Rabs_le_between (x a : R) : Rabs x <= a -> - a <= x <= a.
Proof. unfold Rabs. destruct (Rcase_abs x); lra. Qed.

Lemma bpow_pos (e : Z) : 0 < bpow e.
Proof. apply powerRZ_lt. lra. Qed.

Lemma bpow_exp (e : Z) : bpow e = exp (IZR e * ln 2).
Proof. unfold bpow. rewrite powerRZ_Rpower by lra. reflexivity. Qed.

Lemma ln2_pos : 0 < ln 2.
Proof. rewrite <- ln_1. apply ln_increasing; lra. Qed.

Lemma bpow_lt (a b : Z) : (a < b)%Z -> bpow a < bpow b.
Proof.
  intros H. rewrite !bpow_exp. apply exp_increasing.
  apply Rmult_lt_compat_r; [exact ln2_pos | now apply IZR_lt].
Qed.

Lemma bpow_le (a b : Z) : (a <= b)%Z -> bpow a <= bpow b.
Proof.
  intros H. destruct (Z.eq_dec a b) as [-> | N]; [lra |].
  left. apply bpow_lt. lia.
Qed.

Lemma bpow_add (a b : Z) : bpow (a + b) = bpow a * bpow b.
Proof. unfold bpow. apply powerRZ_add. lra. Qed.

Lemma bpow_inv (e : Z) : bpow e * bpow (- e) = 1.
Proof. rewrite <- bpow_add. replace (e + - e)%Z with 0%Z by lia. reflexivity. Qed.

Lemma bpow_IZR (n : Z) : (0 <= n)%Z -> bpow n = IZR (2 ^ n).
Proof.
  intros H. unfold bpow. rewrite <- (Z2Nat.id n H) at 1 2.
  rewrite <- pow_powerRZ. rewrite <- pow_IZR. reflexivity.
Qed.

(** The multiples of [bpow e2] are multiples of any finer [bpow e1]. *)
Lemma grid_refine (m : Z) (e1 e2 : Z) :
  (e1 <= e2)%Z -> IZR m * bpow e2 = IZR (m * 2 ^ (e2 - e1)) * bpow e1.
Proof.
  intros H. rewrite mult_IZR, <- bpow_IZR by lia.
  rewrite Rmult_assoc, <- bpow_add. f_equal. f_equal. lia.
Qed.

Lemma rne_floor (y : R) : (Zfloor y <= rne y <= Zfloor y + 1)%Z.
Proof.
  unfold rne. destruct (Rlt_dec _ _); [lia |].
  destruct (Rlt_dec _ _); [lia |]. destruct (Z.even _); lia.
Qed.

Lemma rne_IZR (k : Z) : rne (IZR k) = k.
Proof.
  unfold rne. rewrite ZfloorZ.
  destruct (Rlt_dec (IZR k - IZR k) (1 / 2)) as [_ | N]; [reflexivity | lra].
Qed.

Lemma rne_le (y1 y2 : R) : y1 <= y2 -> (rne y1 <= rne y2)%Z.
Proof.
  intros H. pose proof (Zfloor_le y1 y2 H) as Hf.
  pose proof (rne_floor y1) as B1. pose proof (rne_floor y2) as B2.
  destruct (Z.eq_dec (Zfloor y1) (Zfloor y2)) as [E | N]; [| lia].
  unfold rne. rewrite <- E.
  destruct (Rlt_dec (y1 - IZR (Zfloor y1)) (1 / 2)) as [L1 | L1];
  destruct (Rlt_dec (y2 - IZR (Zfloor y1)) (1 / 2)) as [L2 | L2];
  destruct (Rlt_dec (1 / 2) (y1 - IZR (Zfloor y1))) as [G1 | G1];
  destruct (Rlt_dec (1 / 2) (y2 - IZR (Zfloor y1))) as [G2 | G2];
  try lra; destruct (Z.even (Zfloor y1)); lia.
Qed.

Lemma rne_error (y : R) : Rabs (IZR (rne y) - y) <= 1 / 2.
Proof.
  pose proof (Zfloor_bound y) as [B1 B2]. unfold rne.
  destruct (Rlt_dec (y - IZR (Zfloor y)) (1 / 2)) as [L | L].
  { apply Rabs_le. lra. }
  destruct (Rlt_dec (1 / 2) (y - IZR (Zfloor y))) as [G | G].
  { rewrite plus_IZR. apply Rabs_le. lra. }
  destruct (Z.even (Zfloor y)); [| rewrite plus_IZR]; apply Rabs_le; lra.
Qed.

(** The binade of a number other than zero. *)
Lemma mag_spec (x : R) : x <> 0 -> bpow (mag x - 1) <= Rabs x < bpow (mag x).
Proof.
  intros N. assert (Hx : 0 < Rabs x) by now apply Rabs_pos_lt.
  unfold mag. set (f := Zfloor (ln (Rabs x) / ln 2)).
  pose proof (Zfloor_bound (ln (Rabs x) / ln 2)) as [B1 B2]. fold f in B1, B2.
  pose proof ln2_pos as L2.
  replace (f + 1 - 1)%Z with f by lia.
  rewrite !bpow_exp, plus_IZR. rewrite <- (exp_ln (Rabs x) Hx).
  set (q := ln (Rabs x) / ln 2) in *.
  assert (E : ln (Rabs x) = q * ln 2) by (subst q; field; lra).
  rewrite E. split.
  - assert (A : IZR f * ln 2 <= q * ln 2) by (apply Rmult_le_compat_r; lra).
    destruct A as [A | A]; [left; now apply exp_increasing | right; now rewrite A].
  - apply exp_increasing. apply Rmult_lt_compat_r; lra.
Qed.

Lemma mag_le (x : R) (n : Z) : x <> 0 -> Rabs x < bpow n -> (mag x <= n)%Z.
Proof.
  intros N H. destruct (mag_spec x N) as [L _].
  destruct (Z_lt_le_dec n (mag x)) as [C | C]; [| exact C].
  pose proof (bpow_le n (mag x - 1) ltac:(lia)). lra.
Qed.

Lemma mag_ge (x : R) (n : Z) : x <> 0 -> bpow (n - 1) <= Rabs x -> (n <= mag x)%Z.
Proof.
  intros N H. destruct (mag_spec x N) as [_ U].
  destruct (Z_lt_le_dec (mag x) n) as [C | C]; [| exact C].
  pose proof (bpow_le (mag x) (n - 1) ltac:(lia)). lra.
Qed.

Lemma fround_0 : Math_fround 0 = 0.
Proof.
  unfold Math_fround. rewrite Rmult_0_l. change 0 with (IZR 0) at 1.
  rewrite rne_IZR. lra.
Qed.

(** The conversion never crosses a multiple of the step it rounds to. *)
Lemma fround_le_grid (x : R) (k : Z) :
  x <= IZR k * bpow (fexp (mag x)) -> Math_fround x <= IZR k * bpow (fexp (mag x)).
Proof.
  intros H. unfold Math_fround. set (e := fexp (mag x)) in *.
  pose proof (bpow_pos e) as Pe. pose proof (bpow_pos (- e)) as Pn.
  apply Rmult_le_compat_r; [lra |]. apply IZR_le.
  rewrite <- (rne_IZR k). apply rne_le.
  apply (Rmult_le_compat_r (bpow (- e))) in H; [| lra].
  rewrite Rmult_assoc, bpow_inv in H. lra.
Qed.

Lemma fround_ge_grid (x : R) (k : Z) :
  IZR k * bpow (fexp (mag x)) <= x -> IZR k * bpow (fexp (mag x)) <= Math_fround x.
Proof.
  intros H. unfold Math_fround. set (e := fexp (mag x)) in *.
  pose proof (bpow_pos e) as Pe. pose proof (bpow_pos (- e)) as Pn.
  apply Rmult_le_compat_r; [lra |]. apply IZR_le.
  rewrite <- (rne_IZR k) at 1. apply rne_le.
  apply (Rmult_le_compat_r (bpow (- e))) in H; [| lra].
  rewrite Rmult_assoc, bpow_inv in H. lra.
Qed.

Lemma fround_nonneg (x : R) : 0 <= x -> 0 <= Math_fround x.
Proof.
  intros H. apply Rle_trans with (IZR 0 * bpow (fexp (mag x))); [lra |].
  apply fround_ge_grid. lra.
Qed.

Lemma fround_nonpos (x : R) : x <= 0 -> Math_fround x <= 0.
Proof.
  intros H. apply Rle_trans with (IZR 0 * bpow (fexp (mag x))); [| lra].
  apply fround_le_grid. lra.
Qed.

Lemma fexp_le (a b : Z) : (a <= b)%Z -> (fexp a <= fexp b)%Z.
Proof. unfold fexp. lia. Qed.

Lemma fround_monotone_pos (x y : R) :
  0 < x -> x <= y -> Math_fround x <= Math_fround y.
Proof.
  intros Hx Hxy.
  assert (Nx : x <> 0) by lra. assert (Ny : y <> 0) by lra.
  destruct (mag_spec x Nx) as [Lx Ux]. destruct (mag_spec y Ny) as [Ly Uy].
  rewrite Rabs_right in Lx, Ux, Ly, Uy by lra.
  assert (Hm : (mag x <= mag y)%Z).
  { apply mag_le; [exact Nx |]. rewrite Rabs_right by lra. lra. }
  pose proof (fexp_le _ _ Hm) as He.
  destruct (Z.eq_dec (fexp (mag x)) (fexp (mag y))) as [E | N].
  - unfold Math_fround. rewrite E.
    pose proof (bpow_pos (fexp (mag y))). pose proof (bpow_pos (- fexp (mag y))).
    apply Rmult_le_compat_r; [lra |]. apply IZR_le, rne_le.
    apply Rmult_le_compat_r; lra.
  - set (n := Z.max (mag x) (fexp (mag x))).
    assert (Hn : (n <= mag y - 1)%Z) by (unfold fexp in *; lia).
    apply Rle_trans with (bpow n).
    + replace (bpow n) with (IZR 1 * bpow n) by lra.
      rewrite (grid_refine 1 (fexp (mag x)) n) by lia.
      apply fround_le_grid. rewrite <- grid_refine by lia.
      pose proof (bpow_le (mag x) n ltac:(lia)). lra.
    + apply Rle_trans with (bpow (mag y - 1)); [now apply bpow_le |].
      replace (bpow (mag y - 1)) with (IZR 1 * bpow (mag y - 1)) by lra.
      rewrite (grid_refine 1 (fexp (mag y)) (mag y - 1)) by (unfold fexp in *; lia).
      apply fround_ge_grid. rewrite <- grid_refine by (unfold fexp in *; lia). lra.
Qed.

Lemma fround_monotone_neg (x y : R) :
  y < 0 -> x <= y -> Math_fround x <= Math_fround y.
Proof.
  intros Hy Hxy.
  assert (Nx : x <> 0) by lra. assert (Ny : y <> 0) by lra.
  destruct (mag_spec x Nx) as [Lx Ux]. destruct (mag_spec y Ny) as [Ly Uy].
  rewrite Rabs_left in Lx, Ux, Ly, Uy by lra.
  assert (Hm : (mag y <= mag x)%Z).
  { apply mag_le; [exact Ny |]. rewrite Rabs_left by lra. lra. }
  pose proof (fexp_le _ _ Hm) as He.
  destruct (Z.eq_dec (fexp (mag x)) (fexp (mag y))) as [E | N].
  - unfold Math_fround. rewrite E.
    pose proof (bpow_pos (fexp (mag y))). pose proof (bpow_pos (- fexp (mag y))).
    apply Rmult_le_compat_r; [lra |]. apply IZR_le, rne_le.
    apply Rmult_le_compat_r; lra.
  - set (n := Z.max (mag y) (fexp (mag y))).
    assert (Hn : (n <= mag x - 1)%Z) by (unfold fexp in *; lia).
    apply Rle_trans with (- bpow (mag x - 1)).
    + replace (- bpow (mag x - 1)) with (IZR (-1) * bpow (mag x - 1)) by lra.
      rewrite (grid_refine (-1) (fexp (mag x)) (mag x - 1)) by (unfold fexp in *; lia).
      apply fround_le_grid. rewrite <- grid_refine by (unfold fexp in *; lia). lra.
    + apply Rle_trans with (- bpow n).
      { pose proof (bpow_le n (mag x - 1) Hn). lra. }
      replace (- bpow n) with (IZR (-1) * bpow n) by lra.
      rewrite (grid_refine (-1) (fexp (mag y)) n) by lia.
      apply fround_ge_grid. rewrite <- grid_refine by lia.
      pose proof (bpow_le (mag y) n ltac:(lia)). lra.
Qed.

Theorem fround_monotone (x y : R) : x <= y -> Math_fround x <= Math_fround y.
Proof.
  intros H. destruct (Rlt_dec 0 x) as [Px | Px].
  - now apply fround_monotone_pos.
  - destruct (Rlt_dec y 0) as [Ny | Ny].
    + now apply fround_monotone_neg.
    + apply Rle_trans with 0; [apply fround_nonpos | apply fround_nonneg]; lra.
Qed.

Lemma fround_representable (m e : Z) :
  (Z.abs m < 2 ^ 24)%Z -> (-149 <= e)%Z ->
  Math_fround (IZR m * bpow e) = IZR m * bpow e.
Proof.
  intros Hm He. destruct (Z.eq_dec m 0) as [-> | N].
  { rewrite Rmult_0_l. apply fround_0. }
  set (x := IZR m * bpow e).
  pose proof (bpow_pos e) as Pe.
  assert (Nx : x <> 0).
  { subst x. apply Rmult_integral_contrapositive. split; [| lra].
    now apply not_0_IZR. }
  assert (Hmag : (mag x <= 24 + e)%Z).
  { apply mag_le; [exact Nx |]. subst x.
    rewrite Rabs_mult, (Rabs_right (bpow e)) by lra.
    rewrite bpow_add, (bpow_IZR 24) by lia. rewrite <- abs_IZR.
    apply Rmult_lt_compat_r; [lra |]. now apply IZR_lt. }
  assert (Hex : (fexp (mag x) <= e)%Z) by (unfold fexp; lia).
  unfold Math_fround. fold x. set (ex := fexp (mag x)) in *.
  assert (Egrid : x = IZR (m * 2 ^ (e - ex)) * bpow ex)
    by (subst x; now apply grid_refine).
  rewrite Egrid at 1. rewrite Rmult_assoc, bpow_inv, Rmult_1_r, rne_IZR.
  now rewrite <- Egrid.
Qed.

Lemma fround_error (x : R) (n : Z) :
  Rabs x < bpow n -> Rabs (Math_fround x - x) <= / 2 * bpow (fexp n).
Proof.
  intros H. pose proof (bpow_pos (fexp n)) as Pn.
  destruct (Req_dec x 0) as [-> | N].
  { rewrite fround_0, Rminus_0_r, Rabs_R0. lra. }
  pose proof (mag_le x n N H) as Hm. pose proof (fexp_le _ _ Hm) as He.
  unfold Math_fround. set (e := fexp (mag x)) in *.
  pose proof (bpow_pos e) as Pe. pose proof (bpow_le e (fexp n) He) as Ple.
  replace (IZR (rne (x * bpow (- e))) * bpow e - x)
    with ((IZR (rne (x * bpow (- e))) - x * bpow (- e)) * bpow e).
  2:{ rewrite Rmult_minus_distr_r, Rmult_assoc, (Rmult_comm (bpow (- e))), bpow_inv. ring. }
  rewrite Rabs_mult, (Rabs_right (bpow e)) by lra.
  pose proof (rne_error (x * bpow (- e))) as Herr.
  pose proof (Rabs_pos (IZR (rne (x * bpow (- e))) - x * bpow (- e))).
  nra.
Qed.

(** *** Values *)

Lemma mag_unique (x : R) (n : Z) :
  bpow (n - 1) <= Rabs x < bpow n -> mag x = n.
Proof.
  intros [L U]. assert (N : x <> 0).
  { intros ->. rewrite Rabs_R0 in L. pose proof (bpow_pos (n - 1)). lra. }
  pose proof (mag_le x n N U). pose proof (mag_ge x n N L). lia.
Qed.

Lemma fround_07 : Math_fround 0.7 = 11744051 / 16777216.
Proof.
  assert (M : mag 0.7 = 0%Z).
  { apply mag_unique. rewrite Rabs_right by lra. unfold bpow. simpl. lra. }
  unfold Math_fround. rewrite M. change (fexp 0) with (-24)%Z.
  change (- -24)%Z with 24%Z.
  assert (B : bpow 24 = 16777216) by (rewrite bpow_IZR by lia; reflexivity).
  assert (B' : bpow (-24) = / 16777216) by (unfold bpow; simpl; lra).
  rewrite B, B'.
  assert (F : Zfloor (0.7 * 16777216) = 11744051%Z) by (apply Zfloor_eq; lra).
  unfold rne. rewrite F.
  destruct (Rlt_dec (0.7 * 16777216 - 11744051) (1 / 2)) as [_ | C]; [| lra].
  field.
Qed.

Lemma fround_IZR (m : Z) : (Z.abs m < 2 ^ 24)%Z -> Math_fround (IZR m) = IZR m.
Proof.
  intros H. pose proof (fround_representable m 0 H ltac:(lia)) as E.
  unfold bpow in E. cbn [powerRZ] in E. now rewrite Rmult_1_r in E.
Qed.

Lemma fround_half (m : Z) :
  (Z.abs m < 2 ^ 24)%Z -> Math_fround (IZR m / 2) = IZR m / 2.
Proof.
  intros H. pose proof (fround_representable m (-1) H ltac:(lia)) as E.
  assert (B : bpow (-1) = / 2) by (unfold bpow; simpl; lra).
  rewrite B in E. exact E.
Qed.

Lemma fround_between (a b x : R) :
  a <= x <= b -> Math_fround a <= Math_fround x <= Math_fround b.
Proof. intros [H1 H2]. split; now apply fround_monotone. Qed.

(** Below 16 the conversion moves a number by at most 2 ^ -21, below 32 by
    at most 2 ^ -20. *)
Lemma fround_error_16 (x : R) :
  Rabs x < 16 -> Rabs (Math_fround x - x) <= 1 / 2097152.
Proof.
  intros H. pose proof (fround_error x 4) as E.
  assert (B : bpow 4 = 16) by (unfold bpow; simpl; lra).
  assert (B' : bpow (fexp 4) = / 1048576)
    by (change (fexp 4) with (-20)%Z; unfold bpow; simpl; lra).
  rewrite B, B' in E. specialize (E H). lra.
Qed.

Lemma fround_error_32 (x : R) :
  Rabs x < 32 -> Rabs (Math_fround x - x) <= 1 / 1048576.
Proof.
  intros H. pose proof (fround_error x 5) as E.
  assert (B : bpow 5 = 32) by (unfold bpow; simpl; lra).
  assert (B' : bpow (fexp 5) = / 524288)
    by (change (fexp 5) with (-19)%Z; unfold bpow; simpl; lra).
  rewrite B, B' in E. specialize (E H). lra.
Qed.

Lemma held_get (a : list num) (j : nat) (x : R) :
  get a j = Some x -> held a j = Some (Math_fround x).
Proof. intros H. unfold held. now rewrite H. Qed.

(** A computed value within a box with binary32 corners is held within the
    box. *)
Lemma box_held (c lo hi : R) (m : Z) :
  IZR m = hi -> - IZR m = lo -> (Z.abs m < 2 ^ 24)%Z -> lo <= c <= hi ->
  lo <= Math_fround c <= hi.
Proof.
  intros <- <- Hm Hc.
  pose proof (fround_between _ _ _ Hc) as B.
  pose proof (fround_IZR (- m) ltac:(lia)) as Hneg. rewrite opp_IZR in Hneg.
  now rewrite Hneg, (fround_IZR m Hm) in B.
Qed.

Lemma half_box_held (c lo hi : R) (m : Z) :
  IZR m / 2 = hi -> - IZR m / 2 = lo -> (Z.abs m < 2 ^ 24)%Z ->
  lo <= c <= hi -> lo <= Math_fround c <= hi.
Proof.
  intros <- <- Hm Hc.
  pose proof (fround_between _ _ _ Hc) as B.
  pose proof (fround_half (- m) ltac:(lia)) as Hneg. rewrite opp_IZR in Hneg.
  now rewrite Hneg, (fround_half m Hm) in B.
Qed.

End Rounding.

(** What the buffer holds for a cell the generator wrote. *)
Ltac cells_held X Y Z :=
  eexists; eexists; eexists;
  split; [exact X |]; split; [exact Y |]; split; [exact Z |];
  split; [apply held_get, X |]; split; [apply held_get, Y |];
  split; [apply held_get, Z |].


(* ================================================================== *)
(** ** Properties of the particle engine *)
(* ================================================================== *)

Section Engine.
Import JS ParticleSystem.
Import (notations) PrimFloat.

Variable lerpColors : Color -> Color -> R -> Color.
Variable getHSL : Color -> R * R * R.
Variable setHSL : R -> R -> R -> Color.

Lemma length_generatePattern (pat : pattern) (n : nat) (g : rng) :
  length (fst (generatePattern pat n g)) = (n * 3)%nat.
Proof.
  unfold generatePattern.
  apply (for_loop_ind (fun _ s => length (fst s) = (n * 3)%nat)).
  - apply length_Float32Array.
  - intros i [p g'] _ H. unfold generate_step.
    destruct (place pat n i g') as [[[x y] z] g'']. cbn [fst] in *.
    now rewrite !length_tset.
Qed.

Lemma createParticles_lengths (s : system) :
  consistent (createParticles lerpColors getHSL setHSL s).
Proof.
  unfold consistent, createParticles.
  destruct (generatePattern (currentPattern s) (particleCount s) (rand s))
    as [pp g].
  cbn [originalPositions targetPositions positions particleCount].
  apply (for_loop_ind
           (fun k b => length (b_original b) = (k * 3)%nat
                       /\ length (b_target b) = (k * 3)%nat
                       /\ length (b_positions b) = (particleCount s * 3)%nat)).
  - cbn. rewrite length_Float32Array. auto.
  - intros i b _ (Ho & Ht & Hp). unfold create_step.
    destruct (random (b_rand b)) as [r1 g1].
    destruct (random g1) as [r2 g2]. destruct (random g2) as [r3 g3].
    cbn [b_original b_target b_positions].
    rewrite !length_push3, !length_tset. lia.
Qed.

Lemma setPattern_lengths (pat : pattern) (s : system) :
  consistent s -> consistent (setPattern pat s).
Proof.
  intros (Ho & Ht & Hp). unfold consistent, setPattern.
  destruct (generatePattern pat (particleCount s) (rand s)) as [np g].
  pose proof (for_loop_ind
    (fun _ (st : list num * list num) =>
       length (fst st) = (particleCount s * 3)%nat
       /\ length (snd st) = (particleCount s * 3)%nat)
    (particleCount s * 3) (setPattern_step np)
    (targetPositions s, originalPositions s)) as Hloop.
  destruct (for_loop _ _ _) as [target original].
  cbn [originalPositions targetPositions positions particleCount fst snd] in *.
  destruct Hloop as [Ht' Ho']; [now split | | now repeat split].
  intros i [t o] Hi [Hlt Hlo]. cbn [setPattern_step fst snd] in *.
  rewrite !length_set. lia.
Qed.

Lemma gesture_lengths (openness : R) (position : point) (sensitivity : R)
  (s : system) :
  consistent s ->
  consistent (updateGestureInfluence openness position sensitivity s).
Proof.
  intros (Ho & Ht & Hp). unfold consistent, updateGestureInfluence.
  pose proof (for_loop_ind
    (fun _ (st : list num * rng) => length (fst st) = (particleCount s * 3)%nat)
    (particleCount s)
    (gesture_step (originalPositions s) openness position sensitivity)
    (targetPositions s, rand s)) as Hloop.
  destruct (for_loop _ _ _) as [target g].
  cbn [originalPositions targetPositions positions particleCount fst] in *.
  repeat split; auto. apply Hloop; [exact Ht |].
  intros i [t g'] Hi Hlen. unfold gesture_step. cbn [fst] in *.
  destruct (gtb openness 0.7);
    repeat (match goal with |- context [random ?x] => destruct (random x) end);
    cbn [fst]; rewrite !length_set; lia.
Qed.

Lemma animate_lengths (s : system) : consistent s -> consistent (animate s).
Proof.
  intros (Ho & Ht & Hp). unfold consistent, animate.
  destruct (isAnimating s); cbn [negb]; [| now repeat split].
  cbn [originalPositions targetPositions positions particleCount].
  repeat split; auto.
  apply (for_loop_ind (fun _ p => length p = (particleCount s * 3)%nat));
    [exact Hp |].
  intros i p _ Hlen. unfold animate_step, approach. now rewrite !length_tset.
Qed.

Lemma reset_lengths (s : system) : consistent s -> consistent (reset s).
Proof.
  intros (Ho & Ht & Hp). unfold consistent, reset.
  cbn [originalPositions targetPositions positions particleCount].
  repeat split; auto.
  apply (for_loop_ind (fun _ t => length t = (particleCount s * 3)%nat));
    [exact Ht |].
  intros i t Hi Hlen. rewrite length_set. lia.
Qed.

(** C4.  The three position arrays hold [3 * particleCount] scalars each
    after construction, and every operation keeps it so: [setPattern],
    [setParticleCount], [setColors], [updateGestureInfluence], [animate] and
    [reset].  [setParticleCount] gives all three the new size at once,
    whatever the state before. *)
Theorem position_arrays_invariant :
  (forall primary secondary g,
      consistent (constructor lerpColors getHSL setHSL primary secondary g))
  /\ (forall s,
        consistent s ->
        (forall pat, consistent (setPattern pat s))
        /\ (forall count,
              consistent (setParticleCount lerpColors getHSL setHSL count s))
        /\ (forall primary secondary,
              consistent (setColors lerpColors getHSL setHSL primary secondary s))
        /\ (forall openness position sensitivity,
              consistent (updateGestureInfluence openness position sensitivity s))
        /\ consistent (animate s)
        /\ consistent (reset s))
  /\ (forall s count,
        let s' := setParticleCount lerpColors getHSL setHSL count s in
        particleCount s' = count
        /\ length (originalPositions s') = (count * 3)%nat
        /\ length (targetPositions s') = (count * 3)%nat
        /\ length (positions s') = (count * 3)%nat).
Proof.
  split; [| split].
  - intros primary secondary g. unfold constructor.
    apply animate_lengths, createParticles_lengths.
  - intros s Hs.
    split; [intros pat; apply setPattern_lengths, Hs |].
    split; [intros count; apply createParticles_lengths |].
    split; [intros primary secondary; exact Hs |].
    split; [intros openness position sensitivity; apply gesture_lengths, Hs |].
    split; [apply animate_lengths, Hs | apply reset_lengths, Hs].
  - intros s count s'.
    pose proof (createParticles_lengths
      {| particleCount := count;
         particleSize := particleSize s;
         animationSpeed := animationSpeed s;
         currentPattern := currentPattern s;
         primaryColor := primaryColor s;
         secondaryColor := secondaryColor s;
         targetPositions := targetPositions s;
         originalPositions := originalPositions s;
         velocities := velocities s;
         gestureInfluence := gestureInfluence s;
         gesturePosition := gesturePosition s;
         time := time s;
         isAnimating := isAnimating s;
         positions := positions s;
         colors := colors s;
         sizes := sizes s;
         alphas := alphas s;
         randomSeeds := randomSeeds s;
         rotation_y := rotation_y s;
         rand := rand s |}) as H.
    assert (Hn : particleCount s' = count).
    { subst s'. unfold setParticleCount, createParticles.
      destruct (generatePattern _ _ _). reflexivity. }
    split; [exact Hn |].
    unfold consistent in H. fold (setParticleCount lerpColors getHSL setHSL count s) in H.
    fold s' in H. rewrite Hn in H. exact H.
Qed.

(** *** Switching the pattern *)

Lemma setPattern_loop (np : list num) (k : nat) (t o : list num) :
  forall j,
    get (fst (for_loop k (setPattern_step np) (t, o))) j
    = (if Nat.ltb j k then get np j else get t j)
    /\ get (snd (for_loop k (setPattern_step np) (t, o))) j
       = (if Nat.ltb j k then get np j else get o j).
Proof.
  induction k as [| k IH]; intros j.
  - now split.
  - rewrite for_loop_S. destruct (for_loop k (setPattern_step np) (t, o)) as [tk ok].
    cbn [setPattern_step fst snd] in *. rewrite !get_set.
    destruct (IH j) as [Ht Ho].
    destruct (Nat.eqb_spec k j) as [-> | Hne].
    + replace (Nat.ltb j (Datatypes.S j)) with true
        by (symmetry; apply Nat.ltb_lt; lia).
      now split.
    + rewrite Ht, Ho.
      destruct (Nat.ltb_spec j k), (Nat.ltb_spec j (Datatypes.S k));
        try lia; now split.
Qed.

(** C3.  [setPattern] leaves the rendered positions as they are and writes
    one freshly generated pattern into both the original and the target
    array, which are therefore equal cell by cell (and equal as arrays in a
    consistent system). *)
Theorem setPattern_regenerates (pat : pattern) (s : system) :
  let s' := setPattern pat s in
  let fresh := fst (generatePattern pat (particleCount s) (rand s)) in
  positions s' = positions s
  /\ (forall j, (j < particleCount s * 3)%nat ->
        get (originalPositions s') j = get fresh j
        /\ get (targetPositions s') j = get fresh j
        /\ get (originalPositions s') j = get (targetPositions s') j)
  /\ (consistent s ->
        originalPositions s' = fresh /\ targetPositions s' = fresh
        /\ originalPositions s' = targetPositions s').
Proof.
  intros s' fresh.
  pose proof (length_generatePattern pat (particleCount s) (rand s)) as Hfresh.
  pose proof (setPattern_lengths pat s) as Hlen.
  assert (Hpos : positions s' = positions s).
  { subst s'. unfold setPattern. destruct (generatePattern _ _ _).
    destruct (for_loop _ _ _). reflexivity. }
  assert (Hcells : forall j, (j < particleCount s * 3)%nat ->
            get (originalPositions s') j = get fresh j
            /\ get (targetPositions s') j = get fresh j).
  { intros j Hj. subst s' fresh. unfold setPattern.
    destruct (generatePattern pat (particleCount s) (rand s)) as [np g].
    pose proof (setPattern_loop np (particleCount s * 3)
                  (targetPositions s) (originalPositions s) j) as [Ht Ho].
    destruct (for_loop _ _ _) as [t o].
    cbn [fst snd originalPositions targetPositions] in *.
    apply Nat.ltb_lt in Hj. rewrite Hj in Ht, Ho. now split. }
  split; [exact Hpos |]. split.
  - intros j Hj. destruct (Hcells j Hj) as [Ho Ht].
    repeat split; congruence.
  - intros Hs. destruct (Hlen Hs) as (Lo & Lt & _).
    assert (Hn : particleCount s' = particleCount s).
    { subst s'. unfold setPattern. destruct (generatePattern _ _ _).
      destruct (for_loop _ _ _). reflexivity. }
    fold s' in Lo, Lt. rewrite Hn in Lo, Lt.
    fold fresh in Hfresh.
    assert (Eo : originalPositions s' = fresh).
    { apply array_ext; [lia |].
      intros j Hj. apply Hcells. lia. }
    assert (Et : targetPositions s' = fresh).
    { apply array_ext; [lia |].
      intros j Hj. apply Hcells. lia. }
    repeat split; congruence.
Qed.

(** *** The gesture-driven targets *)

Lemma mod3_cases (k : nat) :
  ((k * 3) mod 3 = 0 /\ (k * 3 + 1) mod 3 = 1 /\ (k * 3 + 2) mod 3 = 2)%nat.
Proof.
  repeat split.
  - apply Nat.Div0.mod_mul.
  - rewrite Nat.add_comm, Nat.Div0.mod_add. reflexivity.
  - rewrite Nat.add_comm, Nat.Div0.mod_add. reflexivity.
Qed.

Lemma gesture_loop (original : list num) (openness : R) (position : point)
  (sensitivity : R) (t : list num) (g : rng) (k : nat) :
  let r := for_loop k (gesture_step original openness position sensitivity)
                    (t, g) in
  draws (snd r) = draws g
  /\ next (snd r) = (next g + (if gtb openness 0.7 then k * 3 else 0))%nat
  /\ forall j,
       get (fst r) j
       = if Nat.ltb j (k * 3)
         then target_cell original openness position sensitivity
                          (draws g) (next g) j
         else get t j.
Proof.
  induction k as [| k IH]; cbn zeta.
  - cbn [for_loop seq fold_left fst snd Nat.mul Nat.ltb Nat.leb].
    split; [reflexivity |]. split; [destruct (gtb openness 0.7); lia |].
    intros j. reflexivity.
  - rewrite for_loop_S.
    destruct (for_loop k _ (t, g)) as [tk gk]. cbn [fst snd] in IH.
    destruct IH as (Hd & Hn & Hget).
    destruct (mod3_cases k) as (M0 & M1 & M2).
    unfold gesture_step, target_cell.
    destruct (gtb openness 0.7) eqn:Hopen; cbn [random fst snd draws next].
    + split; [exact Hd |]. split; [lia |].
      intros j. rewrite !get_set.
      destruct (Nat.eqb_spec (k * 3 + 2) j) as [<- | N2].
      { replace (Nat.ltb (k * 3 + 2) (Datatypes.S k * 3)) with true
          by (symmetry; apply Nat.ltb_lt; lia).
        rewrite M2, Hd, Hn. repeat f_equal; lia. }
      destruct (Nat.eqb_spec (k * 3 + 1) j) as [<- | N1].
      { replace (Nat.ltb (k * 3 + 1) (Datatypes.S k * 3)) with true
          by (symmetry; apply Nat.ltb_lt; lia).
        rewrite M1, Hd, Hn. repeat f_equal; lia. }
      destruct (Nat.eqb_spec (k * 3) j) as [<- | N0].
      { replace (Nat.ltb (k * 3) (Datatypes.S k * 3)) with true
          by (symmetry; apply Nat.ltb_lt; lia).
        rewrite M0, Hd, Hn. repeat f_equal; lia. }
      rewrite Hget. unfold target_cell. rewrite Hopen.
      destruct (Nat.ltb_spec j (k * 3)), (Nat.ltb_spec j (Datatypes.S k * 3));
        try lia; reflexivity.
    + split; [exact Hd |]. split; [lia |].
      intros j. rewrite !get_set.
      destruct (Nat.eqb_spec (k * 3 + 2) j) as [<- | N2].
      { replace (Nat.ltb (k * 3 + 2) (Datatypes.S k * 3)) with true
          by (symmetry; apply Nat.ltb_lt; lia).
        now rewrite M2. }
      destruct (Nat.eqb_spec (k * 3 + 1) j) as [<- | N1].
      { replace (Nat.ltb (k * 3 + 1) (Datatypes.S k * 3)) with true
          by (symmetry; apply Nat.ltb_lt; lia).
        now rewrite M1. }
      destruct (Nat.eqb_spec (k * 3) j) as [<- | N0].
      { replace (Nat.ltb (k * 3) (Datatypes.S k * 3)) with true
          by (symmetry; apply Nat.ltb_lt; lia).
        now rewrite M0. }
      rewrite Hget. unfold target_cell. rewrite Hopen.
      destruct (Nat.ltb_spec j (k * 3)), (Nat.ltb_spec j (Datatypes.S k * 3));
        try lia; reflexivity.
Qed.

Lemma updateGestureInfluence_cells (openness : R) (position : point)
  (sensitivity : R) (s : system) (j : nat) :
  (j < particleCount s * 3)%nat ->
  get (targetPositions (updateGestureInfluence openness position sensitivity s)) j
  = target_cell (originalPositions s) openness position sensitivity
                (draws (rand s)) (next (rand s)) j.
Proof.
  intros Hj. unfold updateGestureInfluence.
  pose proof (gesture_loop (originalPositions s) openness position sensitivity
                (targetPositions s) (rand s) (particleCount s)) as (_ & _ & Hget).
  destruct (for_loop _ _ _) as [target g]. cbn [fst targetPositions] in *.
  rewrite Hget. apply Nat.ltb_lt in Hj. now rewrite Hj.
Qed.

Lemma updateGestureInfluence_rand (openness : R) (position : point)
  (sensitivity : R) (s : system) :
  let s' := updateGestureInfluence openness position sensitivity s in
  draws (rand s') = draws (rand s)
  /\ next (rand s')
     = (next (rand s) + (if gtb openness 0.7 then particleCount s * 3 else 0))%nat.
Proof.
  unfold updateGestureInfluence.
  pose proof (gesture_loop (originalPositions s) openness position sensitivity
                (targetPositions s) (rand s) (particleCount s)) as (Hd & Hn & _).
  destruct (for_loop _ _ _) as [target g]. cbn [snd rand] in *. now split.
Qed.

Lemma gtb_true (a b : R) : b < a -> gtb a b = true.
Proof. intros H. unfold gtb. destruct (Rlt_dec b a); [reflexivity | lra]. Qed.

Lemma gtb_false (a b : R) : a <= b -> gtb a b = false.
Proof. intros H. unfold gtb. destruct (Rlt_dec b a); [lra | reflexivity]. Qed.

(** C1.  With openness 0, the hand at the centre and sensitivity 1, every
    target cell is exactly 0.3 times the original cell.  With openness 1 (and
    the hand at the centre) it is exactly 2 times the original cell plus the
    jitter of that cell.  No jitter is added, and no random number drawn,
    unless openness exceeds 0.7; above 0.7 three draws per particle are
    consumed.  At openness 1 the jitter of a cell is at most 3 * sensitivity *
    10 in magnitude, and it is not zero unless the draw is exactly 0.5 or the
    sensitivity is 0. *)
Theorem gesture_scale_and_jitter :
  (forall s j x,
      (j < particleCount s * 3)%nat ->
      get (originalPositions s) j = Some x ->
      get (targetPositions (updateGestureInfluence 0 center 1 s)) j
      = Some (0.3 * x))
  /\ (forall s sensitivity j x,
        (j < particleCount s * 3)%nat ->
        get (originalPositions s) j = Some x ->
        get (targetPositions (updateGestureInfluence 1 center sensitivity s)) j
        = Some (2.0 * x
                + jitter (draws (rand s) (next (rand s) + j)%nat)
                         ((1 - 0.7) * 3 * sensitivity)))
  /\ (forall s openness position sensitivity,
        openness <= 0.7 ->
        let s' := updateGestureInfluence openness position sensitivity s in
        rand s' = rand s
        /\ forall j, (j < particleCount s * 3)%nat ->
             get (targetPositions s') j
             = let scaled := mul (get (originalPositions s) j)
                                 (Some (0.3 + openness * 1.7)) in
               match (j mod 3)%nat with
               | O => add scaled
                          (Some ((px position - 0.5) * 20 * (sensitivity * 0.3)))
               | 1%nat => add scaled
                              (Some ((0.5 - py position) * 20 * (sensitivity * 0.3)))
               | _ => scaled
               end)
  /\ (forall s openness position sensitivity,
        0.7 < openness ->
        next (rand (updateGestureInfluence openness position sensitivity s))
        = (next (rand s) + particleCount s * 3)%nat)
  /\ (forall sensitivity draw,
        0 <= sensitivity -> 0 <= draw < 1 ->
        Rabs (jitter draw ((1 - 0.7) * 3 * sensitivity)) <= 3 * sensitivity * 10)
  /\ (forall sensitivity draw,
        sensitivity <> 0 -> draw <> 0.5 ->
        jitter draw ((1 - 0.7) * 3 * sensitivity) <> 0).
Proof.
  split; [| split; [| split; [| split; [| split]]]].
  - intros s j x Hj Hx. rewrite updateGestureInfluence_cells by exact Hj.
    unfold target_cell. rewrite gtb_false by lra. rewrite Hx.
    destruct (j mod 3)%nat as [| [| r]]; cbn; f_equal; lra.
  - intros s sensitivity j x Hj Hx.
    rewrite updateGestureInfluence_cells by exact Hj.
    unfold target_cell. rewrite gtb_true by lra. rewrite Hx.
    destruct (j mod 3)%nat as [| [| r]]; cbn; f_equal; lra.
  - intros s openness position sensitivity Hle s'.
    destruct (updateGestureInfluence_rand openness position sensitivity s)
      as [Hd Hn].
    fold s' in Hd, Hn. rewrite gtb_false in Hn by exact Hle.
    split.
    + destruct (rand s') as [d' n'], (rand s) as [d n]. cbn in *.
      subst. f_equal. lia.
    + intros j Hj. subst s'. rewrite updateGestureInfluence_cells by exact Hj.
      unfold target_cell. now rewrite gtb_false by exact Hle.
  - intros s openness position sensitivity Hgt.
    destruct (updateGestureInfluence_rand openness position sensitivity s)
      as [_ Hn].
    now rewrite gtb_true in Hn by exact Hgt.
  - intros sensitivity draw Hs [Hd0 Hd1]. unfold jitter.
    apply Rabs_le. nra.
  - intros sensitivity draw Hs Hd. unfold jitter.
    intros E.
    apply Rmult_integral in E. destruct E as [E | E]; [| lra].
    apply Rmult_integral in E. destruct E as [E | E]; [lra |].
    apply Rmult_integral in E. destruct E as [E | E]; lra.
Qed.

(** In binary64 the two scale factors are the doubles of 0.3 and 2: the sum
    0.3 + 1.7 rounds to 2 exactly. *)
#[warnings="-inexact-float"] Example scale_binary64 :
  Binary64.scale 0%float = 0.3%float /\ Binary64.scale 1%float = 2%float.
Proof. split; reflexivity. Qed.

(** *** The pattern generator *)

Lemma place_rng (pat : pattern) (n i : nat) (g : rng) :
  snd (place pat n i g) = advance g (draws_per pat).
Proof.
  unfold advance.
  destruct pat; cbn [place random snd draws next draws_per]; f_equal; lia.
Qed.

Lemma generate_loop (pat : pattern) (n : nat) (g : rng) (k : nat) :
  (k <= n)%nat ->
  let r := for_loop k (generate_step pat n) (Float32Array (n * 3), g) in
  length (fst r) = (n * 3)%nat
  /\ snd r = advance g (draws_per pat * k)
  /\ forall i, (i < k)%nat ->
       (get (fst r) (i * 3), get (fst r) (i * 3 + 1), get (fst r) (i * 3 + 2))
       = fst (place pat n i (advance g (draws_per pat * i))).
Proof.
  induction k as [| k IH]; intros Hk; cbn zeta.
  - cbn [for_loop seq fold_left fst snd]. rewrite length_Float32Array.
    split; [reflexivity |]. split; [| intros i Hi; lia].
    unfold advance. destruct g. cbn. f_equal. lia.
  - rewrite for_loop_S. specialize (IH ltac:(lia)). cbn zeta in IH.
    destruct (for_loop k _ _) as [pk gk]. cbn [fst snd] in IH.
    destruct IH as (Hlen & Hg & Hcells).
    unfold generate_step.
    pose proof (place_rng pat n k gk) as Hrng.
    destruct (place pat n k gk) as [[[x y] z] g'] eqn:Hplace.
    cbn [fst snd] in *.
    split; [now rewrite !length_tset |].
    split.
    { rewrite Hrng, Hg. unfold advance. cbn. f_equal. lia. }
    intros i Hi.
    rewrite !get_tset by (rewrite ?length_tset; lia).
    destruct (Nat.eq_dec i k) as [-> | Hne].
    + rewrite <- Hg, Hplace. cbn [fst].
      rewrite !Nat.eqb_refl.
      replace (Nat.eqb (k * 3 + 2) (k * 3)) with false
        by (symmetry; apply Nat.eqb_neq; lia).
      replace (Nat.eqb (k * 3 + 1) (k * 3)) with false
        by (symmetry; apply Nat.eqb_neq; lia).
      replace (Nat.eqb (k * 3 + 2) (k * 3 + 1)) with false
        by (symmetry; apply Nat.eqb_neq; lia).
      reflexivity.
    + rewrite <- (Hcells i) by lia.
      repeat match goal with
             | |- context [Nat.eqb ?a ?b] =>
                 replace (Nat.eqb a b) with false
                   by (symmetry; apply Nat.eqb_neq; lia)
             end.
      reflexivity.
Qed.

Lemma generatePattern_cells (pat : pattern) (n : nat) (g : rng) (i : nat) :
  (i < n)%nat ->
  let p := fst (generatePattern pat n g) in
  (get p (i * 3), get p (i * 3 + 1), get p (i * 3 + 2))
  = fst (place pat n i (advance g (draws_per pat * i))).
Proof.
  intros Hi. unfold generatePattern.
  now apply (generate_loop pat n g n (Nat.le_refl n)).
Qed.

Lemma generatePattern_rng (pat : pattern) (n : nat) (g : rng) :
  snd (generatePattern pat n g) = advance g (draws_per pat * n).
Proof.
  unfold generatePattern.
  now apply (generate_loop pat n g n (Nat.le_refl n)).
Qed.

Lemma place_ext (pat : pattern) (n i : nat) (g1 g2 : rng) :
  (forall k, draws g1 (next g1 + k)%nat = draws g2 (next g2 + k)%nat) ->
  fst (place pat n i g1) = fst (place pat n i g2).
Proof.
  intros H.
  pose proof (H 0%nat) as H0. pose proof (H 1%nat) as H1.
  pose proof (H 2%nat) as H2. pose proof (H 3%nat) as H3.
  pose proof (H 4%nat) as H4.
  rewrite !Nat.add_0_r in H0.
  replace (next g1 + 1)%nat with (S (next g1)) in H1 by lia.
  replace (next g2 + 1)%nat with (S (next g2)) in H1 by lia.
  replace (next g1 + 2)%nat with (S (S (next g1))) in H2 by lia.
  replace (next g2 + 2)%nat with (S (S (next g2))) in H2 by lia.
  replace (next g1 + 3)%nat with (S (S (S (next g1)))) in H3 by lia.
  replace (next g2 + 3)%nat with (S (S (S (next g2)))) in H3 by lia.
  replace (next g1 + 4)%nat with (S (S (S (S (next g1))))) in H4 by lia.
  replace (next g2 + 4)%nat with (S (S (S (S (next g2))))) in H4 by lia.
  destruct pat; cbn [place random fst snd draws next];
    rewrite ?H0, ?H1, ?H2, ?H3, ?H4; reflexivity.
Qed.

Lemma triple_eq {A B C : Type} (a a' : A) (b b' : B) (c c' : C) :
  (a, b, c) = (a', b', c') -> a = a' /\ b = b' /\ c = c'.
Proof. intros H. inversion H. auto. Qed.

(** C2, as the code has it.  Two calls of the generator with one kind and
    one count return arrays of one length.  For spiral and dna the y
    coordinate of every particle is the same in both, and x and z differ by
    at most 2 (spiral) or 1 (dna); for wave x and z are the same and y
    differs by at most 1.  These are the numbers computed; the array is a
    [Float32Array], and what it holds differs by at most 2 ^ -19 more.  Calls
    that see the same random draws return the same array, whatever the
    kind. *)
Theorem generator_determinism_up_to_jitter (n : nat) (g1 g2 : rng) :
  (forall pat,
      length (fst (generatePattern pat n g1))
      = length (fst (generatePattern pat n g2)))
  /\ (forall pat,
        (forall k, draws g1 (next g1 + k)%nat = draws g2 (next g2 + k)%nat) ->
        fst (generatePattern pat n g1) = fst (generatePattern pat n g2))
  /\ (forall i,
        (i < n)%nat -> unit_draws (draws g1) -> unit_draws (draws g2) ->
        (let p1 := fst (generatePattern spiral n g1) in
         let p2 := fst (generatePattern spiral n g2) in
         close_cell p1 p2 (i * 3) 2 /\ same_cell p1 p2 (i * 3 + 1)
         /\ close_cell p1 p2 (i * 3 + 2) 2
         /\ close_held p1 p2 (i * 3) (2 + 1 / 524288)
         /\ close_held p1 p2 (i * 3 + 2) (2 + 1 / 524288))
        /\ (let p1 := fst (generatePattern dna n g1) in
            let p2 := fst (generatePattern dna n g2) in
            close_cell p1 p2 (i * 3) 1 /\ same_cell p1 p2 (i * 3 + 1)
            /\ close_cell p1 p2 (i * 3 + 2) 1
            /\ close_held p1 p2 (i * 3) (1 + 1 / 524288)
            /\ close_held p1 p2 (i * 3 + 2) (1 + 1 / 524288))
        /\ (let p1 := fst (generatePattern wave n g1) in
            let p2 := fst (generatePattern wave n g2) in
            same_cell p1 p2 (i * 3) /\ close_cell p1 p2 (i * 3 + 1) 1
            /\ same_cell p1 p2 (i * 3 + 2)
            /\ close_held p1 p2 (i * 3 + 1) (1 + 1 / 524288))).
Proof.
  split; [| split].
  - intros pat. now rewrite !length_generatePattern.
  - intros pat Hsame. apply array_ext; [now rewrite !length_generatePattern |].
    intros j Hj. rewrite length_generatePattern in Hj.
    assert (Hi : (j / 3 < n)%nat) by (apply Nat.Div0.div_lt_upper_bound; lia).
    pose proof (generatePattern_cells pat n g1 (j / 3) Hi) as C1.
    pose proof (generatePattern_cells pat n g2 (j / 3) Hi) as C2.
    cbn zeta in C1, C2.
    rewrite (place_ext pat n (j / 3) _ (advance g2 (draws_per pat * (j / 3))))
      in C1.
    2:{ intros k. cbn [advance draws next]. rewrite <- !Nat.add_assoc. apply Hsame. }
    rewrite <- C2 in C1. apply triple_eq in C1. destruct C1 as (E0 & E1 & E2).
    pose proof (Nat.div_mod_eq j 3) as Hdm.
    assert (Hm : (j mod 3 < 3)%nat) by (apply Nat.mod_upper_bound; lia).
    remember (j / 3)%nat as q eqn:Hq. clear Hq.
    destruct (j mod 3)%nat as [| [| [| r]]] eqn:Hr; try lia.
    + replace j with (q * 3)%nat by lia. exact E0.
    + replace j with (q * 3 + 1)%nat by lia. exact E1.
    + replace j with (q * 3 + 2)%nat by lia. exact E2.
  - intros i Hi U1 U2.
    assert (Hclose : forall a b c w, 0 <= a < 1 -> 0 <= b < 1 -> 0 < w ->
              Rabs (c + (a - 0.5) * w - (c + (b - 0.5) * w)) <= w).
    { intros a b c w Ha Hb Hw. apply Rabs_le. split; nra. }
    (* the jittered value stays below 32 in magnitude, where the conversion
       moves it by at most 2 ^ -20 *)
    assert (Hheld : forall c w a b (p1 p2 : list num) j,
              Rabs c <= 15 -> 0 < w <= 2 -> 0 <= a < 1 -> 0 <= b < 1 ->
              get p1 j = Some (c + (a - 0.5) * w) ->
              get p2 j = Some (c + (b - 0.5) * w) ->
              close_held p1 p2 j (w + 1 / 524288)).
    { intros c w a b p1 p2 j Hc Hw Ha Hb E1 E2.
      exists (Math_fround (c + (a - 0.5) * w)), (Math_fround (c + (b - 0.5) * w)).
      split; [now apply held_get |]. split; [now apply held_get |].
      apply Rabs_le_between in Hc.
      assert (J : forall u, 0 <= u < 1 -> -1 <= (u - 0.5) * w < 1).
      { intros u Hu.
        assert ((u - 0.5) * w < 0.5 * w) by (apply Rmult_lt_compat_r; lra).
        assert (-0.5 * w <= (u - 0.5) * w) by (apply Rmult_le_compat_r; lra).
        lra. }
      pose proof (J a Ha) as Ja. pose proof (J b Hb) as Jb.
      assert (B1 : Rabs (c + (a - 0.5) * w) < 32) by (apply Rabs_def1; lra).
      assert (B2 : Rabs (c + (b - 0.5) * w) < 32) by (apply Rabs_def1; lra).
      apply fround_error_32, Rabs_le_between in B1.
      apply fround_error_32, Rabs_le_between in B2.
      pose proof (Hclose a b c w Ha Hb (proj1 Hw)) as B.
      apply Rabs_le_between in B. apply Rabs_le. lra. }
    assert (Ht : 0 <= INR i / INR n < 1).
    { assert (Hn : 0 < INR n) by (apply lt_0_INR; lia).
      pose proof (pos_INR i) as Hpos. apply lt_INR in Hi.
      split.
      - apply Rmult_le_pos; [exact Hpos | apply Rlt_le, Rinv_0_lt_compat, Hn].
      - apply (Rmult_lt_reg_r (INR n)); [exact Hn |].
        unfold Rdiv. rewrite Rmult_assoc, Rinv_l by lra. lra. }
    assert (Hamp : forall r u, 0 <= r <= 15 -> -1 <= u <= 1 -> Rabs (r * u) <= 15).
    { intros r u Hr Hu. apply Rabs_le. split; nra. }
    split; [| split].
    + pose proof (generatePattern_cells spiral n g1 i Hi) as C1.
      pose proof (generatePattern_cells spiral n g2 i Hi) as C2.
      cbn zeta in C1, C2. cbn [place random fst snd draws next advance vec] in C1, C2.
      apply triple_eq in C1. apply triple_eq in C2.
      destruct C1 as (X1 & Y1 & Z1), C2 as (X2 & Y2 & Z2).
      cbn zeta.
      assert (Hr : 0 <= radius * (0.2 + INR i / INR n * 0.8) <= 15)
        by (unfold radius; lra).
      split; [| split; [| split; [| split]]].
      * unfold close_cell. rewrite X1, X2.
        eexists. eexists. split; [reflexivity |]. split; [reflexivity |].
        apply Hclose; [apply U1 | apply U2 | lra].
      * unfold same_cell. now rewrite Y1, Y2.
      * unfold close_cell. rewrite Z1, Z2.
        eexists. eexists. split; [reflexivity |]. split; [reflexivity |].
        apply Hclose; [apply U1 | apply U2 | lra].
      * eapply Hheld; [| | apply U1 | apply U2 | exact X1 | exact X2]; [| lra].
        apply Hamp; [exact Hr | apply COS_bound].
      * eapply Hheld; [| | apply U1 | apply U2 | exact Z1 | exact Z2]; [| lra].
        apply Hamp; [exact Hr | apply SIN_bound].
    + pose proof (generatePattern_cells dna n g1 i Hi) as C1.
      pose proof (generatePattern_cells dna n g2 i Hi) as C2.
      cbn zeta in C1, C2. cbn [place random fst snd draws next advance vec] in C1, C2.
      apply triple_eq in C1. apply triple_eq in C2.
      destruct C1 as (X1 & Y1 & Z1), C2 as (X2 & Y2 & Z2).
      cbn zeta.
      assert (Hr : 0 <= radius * 0.4 <= 15) by (unfold radius; lra).
      split; [| split; [| split; [| split]]].
      * unfold close_cell. rewrite X1, X2.
        eexists. eexists. split; [reflexivity |]. split; [reflexivity |].
        apply Hclose; [apply U1 | apply U2 | lra].
      * unfold same_cell. now rewrite Y1, Y2.
      * unfold close_cell. rewrite Z1, Z2.
        eexists. eexists. split; [reflexivity |]. split; [reflexivity |].
        apply Hclose; [apply U1 | apply U2 | lra].
      * eapply Hheld; [| | apply U1 | apply U2 | exact X1 | exact X2]; [| lra].
        apply Hamp; [exact Hr | apply COS_bound].
      * eapply Hheld; [| | apply U1 | apply U2 | exact Z1 | exact Z2]; [| lra].
        apply Hamp; [exact Hr | apply SIN_bound].
    + pose proof (generatePattern_cells wave n g1 i Hi) as C1.
      pose proof (generatePattern_cells wave n g2 i Hi) as C2.
      cbn zeta in C1, C2. cbn [place random fst snd draws next advance vec] in C1, C2.
      apply triple_eq in C1. apply triple_eq in C2.
      destruct C1 as (X1 & Y1 & Z1), C2 as (X2 & Y2 & Z2).
      cbn zeta.
      split; [| split; [| split]].
      * unfold same_cell. now rewrite X1, X2.
      * unfold close_cell. rewrite Y1, Y2.
        eexists. eexists. split; [reflexivity |]. split; [reflexivity |].
        apply Hclose; [apply U1 | apply U2 | lra].
      * unfold same_cell. now rewrite Z1, Z2.
      * eapply Hheld; [| | apply U1 | apply U2 | exact Y1 | exact Y2]; [| lra].
        match goal with |- Rabs (sin ?u * cos ?v * radius * 0.5) <= 15 =>
          pose proof (SIN_bound u) as [S1 S2];
          pose proof (COS_bound v) as [C1' C2']
        end.
        unfold radius. apply Rabs_le. split; nra.
Qed.

End Engine.

(* ================================================================== *)
(** ** Concrete instances *)
(* ================================================================== *)

Section Samples.
Import JS ParticleSystem.

Lemma ramp_unit : unit_draws (draws ramp).
Proof.
  intros k. cbn [ramp draws]. pose proof (pos_INR k) as Hk.
  assert (Hinv : 0 < / (INR k + 1)) by (apply Rinv_0_lt_compat; lra).
  unfold Rdiv. split.
  - apply Rmult_le_pos; lra.
  - apply (Rmult_lt_reg_r (INR k + 1)); [lra |].
    rewrite Rmult_assoc, Rinv_l by lra. lra.
Qed.

Lemma sample_system_consistent : consistent sample_system.
Proof. repeat split. Qed.

Lemma position_arrays_invariant_witness :
  consistent sample_system
  /\ consistent (setPattern wave sample_system)
  /\ consistent (updateGestureInfluence 1 center 1 sample_system)
  /\ consistent (animate sample_system)
  /\ consistent (reset sample_system)
  /\ consistent (setParticleCount sample_lerpColors sample_getHSL sample_setHSL
                                  7 sample_system).
Proof.
  destruct (position_arrays_invariant sample_lerpColors sample_getHSL sample_setHSL)
    as (_ & Hkeep & _).
  destruct (Hkeep sample_system sample_system_consistent)
    as (Hp & Hc & _ & Hg & Ha & Hr).
  split; [exact sample_system_consistent |].
  split; [apply Hp |]. split; [apply Hg |]. split; [exact Ha |].
  split; [exact Hr | apply Hc].
Defined.

Lemma setPattern_regenerates_witness :
  (4 < particleCount sample_system * 3)%nat
  /\ consistent sample_system
  /\ positions (setPattern dna sample_system) = positions sample_system
  /\ get (originalPositions (setPattern dna sample_system)) 4
     = get (targetPositions (setPattern dna sample_system)) 4
  /\ originalPositions (setPattern dna sample_system)
     = targetPositions (setPattern dna sample_system).
Proof.
  destruct (setPattern_regenerates dna sample_system) as (Hpos & Hcell & Hall).
  split; [simpl; lia |]. split; [exact sample_system_consistent |].
  split; [exact Hpos |].
  split; [apply (Hcell 4%nat); simpl; lia |].
  apply (Hall sample_system_consistent).
Defined.

Lemma gesture_scale_and_jitter_witness :
  (4 < particleCount sample_system * 3)%nat
  /\ get (originalPositions sample_system) 4 = Some 5
  /\ get (targetPositions (updateGestureInfluence 0 center 1 sample_system)) 4
     = Some (0.3 * 5)
  /\ get (targetPositions (updateGestureInfluence 1 center 1 sample_system)) 4
     = Some (2.0 * 5 + jitter (draws ramp 4) ((1 - 0.7) * 3 * 1))
  /\ rand (updateGestureInfluence 0.7 center 1 sample_system) = ramp
  /\ next (rand (updateGestureInfluence 1 center 1 sample_system)) = 6%nat
  /\ Rabs (jitter (draws ramp 4) ((1 - 0.7) * 3 * 1)) <= 3 * 1 * 10
  /\ jitter (draws ramp 4) ((1 - 0.7) * 3 * 1) <> 0.
Proof.
  destruct gesture_scale_and_jitter as (Hclosed & Hopen & Hquiet & Hdraws & Hbound & Hnz).
  split; [simpl; lia |]. split; [reflexivity |].
  split; [apply Hclosed; [simpl; lia | reflexivity] |].
  split; [apply (Hopen sample_system 1 4%nat 5); [simpl; lia | reflexivity] |].
  split; [apply (Hquiet sample_system 0.7 center 1); lra |].
  split; [apply (Hdraws sample_system 1 center 1); lra |].
  split; [apply Hbound; [lra | apply ramp_unit] |].
  apply Hnz; [lra |]. cbn [ramp draws]. simpl INR. lra.
Defined.

Lemma generator_determinism_up_to_jitter_witness :
  (1 < 2)%nat /\ unit_draws (draws ramp)
  /\ unit_draws (draws (snd (generatePattern spiral 2 ramp)))
  /\ same_cell (fst (generatePattern spiral 2 ramp))
               (fst (generatePattern spiral 2 (snd (generatePattern spiral 2 ramp))))
               (1 * 3 + 1)
  /\ close_cell (fst (generatePattern spiral 2 ramp))
                (fst (generatePattern spiral 2 (snd (generatePattern spiral 2 ramp))))
                (1 * 3) 2
  /\ close_held (fst (generatePattern spiral 2 ramp))
                (fst (generatePattern spiral 2 (snd (generatePattern spiral 2 ramp))))
                (1 * 3) (2 + 1 / 524288)
  /\ close_cell (fst (generatePattern wave 2 ramp))
                (fst (generatePattern wave 2 (snd (generatePattern spiral 2 ramp))))
                (1 * 3 + 1) 1
  /\ (forall k, draws ramp (next ramp + k)%nat
                = draws late_ramp (next late_ramp + k)%nat)
  /\ fst (generatePattern galaxy 2 ramp) = fst (generatePattern galaxy 2 late_ramp).
Proof.
  assert (U : unit_draws (draws (snd (generatePattern spiral 2 ramp)))).
  { rewrite generatePattern_rng. exact ramp_unit. }
  assert (L : forall k, draws ramp (next ramp + k)%nat
                        = draws late_ramp (next late_ramp + k)%nat).
  { intros k. cbn [ramp late_ramp draws next Nat.add].
    now replace (S (S (S (S (S k)))) - 5)%nat with k by lia. }
  destruct (generator_determinism_up_to_jitter 2 ramp
              (snd (generatePattern spiral 2 ramp)))
    as (_ & _ & Hcells).
  destruct (Hcells 1%nat ltac:(lia) ramp_unit U)
    as ((Hx & Hy & _ & Hh & _) & _ & (_ & Hw & _)).
  destruct (generator_determinism_up_to_jitter 2 ramp late_ramp) as (_ & Hsame & _).
  split; [lia |]. split; [exact ramp_unit |]. split; [exact U |].
  split; [exact Hy |]. split; [exact Hx |]. split; [exact Hh |].
  split; [exact Hw |]. split; [exact L |].
  apply Hsame. exact L.
Defined.

(** C2 fails as stated: under draws 0, 1/2, 2/3, 3/4, ... a second call of
    the generator for one particle returns another array than the first, for
    each of spiral, wave and dna. *)
Lemma generator_not_repeatable :
  unit_draws (draws ramp)
  /\ fst (generatePattern spiral 1 ramp)
     <> fst (generatePattern spiral 1 (snd (generatePattern spiral 1 ramp)))
  /\ fst (generatePattern wave 1 ramp)
     <> fst (generatePattern wave 1 (snd (generatePattern wave 1 ramp)))
  /\ fst (generatePattern dna 1 ramp)
     <> fst (generatePattern dna 1 (snd (generatePattern dna 1 ramp))).
Proof.
  split; [exact ramp_unit |].
  split; [| split]; intros E.
  - pose proof (generatePattern_cells spiral 1 ramp 0 ltac:(lia)) as C1.
    pose proof (generatePattern_cells spiral 1
                  (snd (generatePattern spiral 1 ramp)) 0 ltac:(lia)) as C2.
    cbn zeta in C1, C2. rewrite <- E, C1, generatePattern_rng in C2.
    cbn [place random fst snd draws next advance vec ramp draws_per
         Nat.mul Nat.add] in C2.
    apply triple_eq in C2. destruct C2 as (X & _ & _).
    inversion X as [Hx]. simpl INR in Hx. lra.
  - pose proof (generatePattern_cells wave 1 ramp 0 ltac:(lia)) as C1.
    pose proof (generatePattern_cells wave 1
                  (snd (generatePattern wave 1 ramp)) 0 ltac:(lia)) as C2.
    cbn zeta in C1, C2. rewrite <- E, C1, generatePattern_rng in C2.
    cbn [place random fst snd draws next advance vec ramp draws_per
         Nat.mul Nat.add] in C2.
    apply triple_eq in C2. destruct C2 as (_ & Y & _).
    inversion Y as [Hy]. simpl INR in Hy. lra.
  - pose proof (generatePattern_cells dna 1 ramp 0 ltac:(lia)) as C1.
    pose proof (generatePattern_cells dna 1
                  (snd (generatePattern dna 1 ramp)) 0 ltac:(lia)) as C2.
    cbn zeta in C1, C2. rewrite <- E, C1, generatePattern_rng in C2.
    cbn [place random fst snd draws next advance vec ramp draws_per
         Nat.mul Nat.add] in C2.
    apply triple_eq in C2. destruct C2 as (X & _ & _).
    inversion X as [Hx]. simpl INR in Hx. lra.
Qed.

End Samples.

(* ================================================================== *)
(** ** Properties of the open / closed variant *)
(* ================================================================== *)

Section Binary.
Import JS Threshold.

Lemma joint_defined (lm : list landmark) (i : nat) :
  (i < length lm)%nat -> nth_error lm i = Some (joint lm i).
Proof. intros H. unfold joint. now apply nth_error_nth'. Qed.

Lemma detectHandGesture_complete (lm : list landmark) :
  (21 <= length lm)%nat ->
  detectHandGesture lm
  = Some (if (3 <=? extended_fingers lm)%nat then open else closed).
Proof.
  intros Hlen. unfold detectHandGesture, extended_fingers.
  rewrite (joint_defined lm 4), (joint_defined lm 8), (joint_defined lm 12),
          (joint_defined lm 16), (joint_defined lm 20), (joint_defined lm 2),
          (joint_defined lm 5), (joint_defined lm 9), (joint_defined lm 13),
          (joint_defined lm 17) by lia.
  destruct (3 <=? _)%nat; reflexivity.
Qed.

Lemma scale_loop (init : list num) (c : R) (p : list num) (n k : nat) :
  length p = (n * 3)%nat -> (k <= n)%nat ->
  let r := for_loop k (scale_step init c) p in
  length r = (n * 3)%nat
  /\ forall j, get r j
               = if Nat.ltb j (k * 3) then mul (get init j) (Some c) else get p j.
Proof.
  intros Hlen. induction k as [| k IH]; intros Hk; cbn zeta.
  - split; [exact Hlen | reflexivity].
  - rewrite for_loop_S. destruct (IH ltac:(lia)) as [Hl Hget].
    set (pk := for_loop k (scale_step init c) p) in *.
    unfold scale_step. split; [now rewrite !length_tset |].
    intros j. rewrite !get_tset by (rewrite ?length_tset; lia).
    destruct (Nat.eqb_spec (k * 3 + 2) j) as [<- | N2].
    { replace (Nat.ltb (k * 3 + 2) (Datatypes.S k * 3)) with true
        by (symmetry; apply Nat.ltb_lt; lia).
      reflexivity. }
    destruct (Nat.eqb_spec (k * 3 + 1) j) as [<- | N1].
    { replace (Nat.ltb (k * 3 + 1) (Datatypes.S k * 3)) with true
        by (symmetry; apply Nat.ltb_lt; lia).
      reflexivity. }
    destruct (Nat.eqb_spec (k * 3) j) as [<- | N0].
    { replace (Nat.ltb (k * 3) (Datatypes.S k * 3)) with true
        by (symmetry; apply Nat.ltb_lt; lia).
      reflexivity. }
    rewrite Hget.
    destruct (Nat.ltb_spec j (k * 3)), (Nat.ltb_spec j (Datatypes.S k * 3));
      try lia; reflexivity.
Qed.

(** How many of the tests hold, against [at_least]. *)
Lemma at_least_count (k : nat) (tests : list (bool * Prop)) :
  Forall (fun t => fst t = true <-> snd t) tests ->
  (k <= fold_right (fun t n => count (fst t) + n) 0 tests)%nat
  <-> at_least k (map snd tests).
Proof.
  intros H. revert k. induction H as [| [b P] rest Hb _ IH]; intros k.
  - destruct k; cbn; [split; [trivial | lia] | split; [lia | tauto]].
  - cbn [fst snd] in Hb. destruct k as [| k'].
    + cbn. split; [trivial | lia].
    + cbn [fold_right map at_least fst snd].
      specialize (IH k') as IHk'. specialize (IH (S k')) as IHk.
      destruct b; cbn [count].
      * assert (HP : P) by now apply Hb.
        split.
        -- intros Hle. left. split; [exact HP |]. apply IHk'. lia.
        -- intros [[_ Hr] | Hr]; [apply IHk' in Hr | apply IHk in Hr]; lia.
      * assert (HP : ~ P) by (intros HP; apply Hb in HP; discriminate).
        split.
        -- intros Hle. right. apply IHk. lia.
        -- intros [[HP' _] | Hr]; [contradiction | apply IHk in Hr; lia].
Qed.

Lemma thumbExtended_far (lm : list landmark) :
  thumbExtended (joint lm 4) (joint lm 2) = true <-> thumb_far lm.
Proof.
  unfold thumbExtended, exceeds, distance, thumb_far.
  destruct (lz (joint lm 4)) as [z4 |], (lz (joint lm 2)) as [z2 |].
  - unfold gtb. destruct (Rlt_dec 0.1 _) as [Hd | Hd].
    + split; [| reflexivity]. intros _. exists z4, z2. now repeat split.
    + split; [discriminate |]. intros (a & b & Ea & Eb & Hfar).
      inversion Ea; inversion Eb; subst. contradiction.
  - split; [discriminate |]. intros (a & b & _ & Eb & _). discriminate.
  - split; [discriminate |]. intros (a & b & Ea & _). discriminate.
  - split; [discriminate |]. intros (a & b & Ea & _). discriminate.
Qed.

Lemma fingerExtended_above (lm : list landmark) (tip knuckle : nat) :
  fingerExtended (joint lm tip) (joint lm knuckle) = true
  <-> tip_above lm tip knuckle.
Proof.
  unfold fingerExtended, ltb, tip_above.
  destruct (Rlt_dec _ _); split; intros; try discriminate; auto; lra.
Qed.

Lemma extended_fingers_rule (lm : list landmark) :
  (3 <= extended_fingers lm)%nat <-> at_least 3 (five_fingers lm).
Proof.
  pose proof (at_least_count 3
    [(thumbExtended (joint lm 4) (joint lm 2), thumb_far lm);
     (fingerExtended (joint lm 8) (joint lm 5), tip_above lm 8 5);
     (fingerExtended (joint lm 12) (joint lm 9), tip_above lm 12 9);
     (fingerExtended (joint lm 16) (joint lm 13), tip_above lm 16 13);
     (fingerExtended (joint lm 20) (joint lm 17), tip_above lm 20 17)]) as H.
  cbn [fold_right map fst snd] in H. unfold five_fingers.
  rewrite <- H.
  - unfold extended_fingers, extendedCount. lia.
  - repeat constructor; cbn [fst snd];
      try apply thumbExtended_far; apply fingerExtended_above.
Qed.

(** C9.  In the open / closed variant a hand of 21 keypoints is classified
    open exactly when at least 3 of the 5 tests hold: the thumb tip
    (keypoint 4) more than 0.1 away from keypoint 2, and the tip of each
    other finger above its knuckle (a smaller y), for the pairs (8, 5),
    (12, 9), (16, 13) and (20, 17); it is classified closed otherwise.  A
    frame with a hand sets the target scale to 1.5 (open) or 0.3 (closed)
    and nothing else of the scale; each animation frame moves the current
    scale toward the target by the factor 0.05 and renders every position as
    its initial value times that scale. *)
Theorem binary_variant :
  (forall lm,
      (21 <= length lm)%nat ->
      (detectHandGesture lm = Some open <-> at_least 3 (five_fingers lm))
      /\ (detectHandGesture lm = Some closed <-> ~ at_least 3 (five_fingers lm)))
  /\ (forall tip base,
        (forall d, distance tip base = Some d ->
                   (thumbExtended tip base = true <-> 0.1 < d))
        /\ (distance tip base = None -> thumbExtended tip base = false))
  /\ (forall tip knuckle,
        fingerExtended tip knuckle = true <-> ly tip < ly knuckle)
  /\ (forall lm rest s,
        (21 <= length lm)%nat ->
        exists s', onHandsResults (lm :: rest) s = Some s'
          /\ (detectHandGesture lm = Some open ->
              targetScale s' = 1.5 /\ isHandOpen s' = true)
          /\ (detectHandGesture lm = Some closed ->
              targetScale s' = 0.3 /\ isHandOpen s' = false)
          /\ (targetScale s' = 1.5 \/ targetScale s' = 0.3)
          /\ currentScale s' = currentScale s
          /\ positions s' = positions s)
  /\ (forall s,
        currentScale (animate s)
        = currentScale s + (targetScale s - currentScale s) * 0.05
        /\ targetScale (animate s) - currentScale (animate s)
           = 0.95 * (targetScale s - currentScale s)
        /\ targetScale (animate s) = targetScale s
        /\ (length (positions s) = (particleCount s * 3)%nat ->
            forall j, (j < particleCount s * 3)%nat ->
              get (positions (animate s)) j
              = mul (get (initialPositions s) j)
                    (Some (currentScale (animate s))))).
Proof.
  split; [| split; [| split; [| split]]].
  - intros lm Hlen. rewrite (detectHandGesture_complete lm Hlen).
    rewrite <- extended_fingers_rule.
    destruct (Nat.leb_spec 3 (extended_fingers lm)); split; split;
      intros H'; try reflexivity; try discriminate; try lia; assumption.
  - intros tip base. unfold thumbExtended, exceeds. split.
    + intros d ->. unfold gtb.
      destruct (Rlt_dec 0.1 d); split; intros; try discriminate; auto; lra.
    + now intros ->.
  - intros tip knuckle. unfold fingerExtended, ltb.
    destruct (Rlt_dec (ly tip) (ly knuckle)); split; intros;
      try discriminate; auto; lra.
  - intros lm rest s Hlen. unfold onHandsResults.
    rewrite (detectHandGesture_complete lm Hlen).
    destruct (3 <=? extended_fingers lm)%nat; eexists;
      (split; [reflexivity |]); cbn;
      repeat split; try discriminate; auto.
  - intros s. unfold animate. cbn [currentScale targetScale positions].
    split; [reflexivity |]. split; [lra |]. split; [reflexivity |].
    intros Hlen j Hj.
    destruct (scale_loop (initialPositions s)
                (currentScale s + (targetScale s - currentScale s) * 0.05)
                (positions s) (particleCount s) (particleCount s)
                Hlen (Nat.le_refl _)) as [_ Hget].
    rewrite Hget. apply Nat.ltb_lt in Hj. now rewrite Hj.
Qed.

Lemma upright_fingers : at_least 3 (five_fingers upright_hand).
Proof.
  cbn [at_least five_fingers]. right. left.
  unfold tip_above, joint, upright_hand.
  cbn [map seq nth upright_point ly]. simpl INR.
  split; [lra |]. left. split; [lra |]. left. split; [lra | exact I].
Qed.

Lemma fist_fingers : ~ at_least 3 (five_fingers fist_hand).
Proof.
  assert (Hthumb : ~ thumb_far fist_hand).
  { intros (z4 & z2 & E4 & E2 & Hfar). unfold joint, fist_hand in *.
    cbn [repeat nth lx ly lz] in *. inversion E4; inversion E2; subst.
    replace ((0.5 - 0.5) * (0.5 - 0.5) + (0.5 - 0.5) * (0.5 - 0.5)
             + (0 - 0) * (0 - 0)) with 0 in Hfar by ring.
    rewrite sqrt_0 in Hfar. lra. }
  assert (Hfinger : forall t k, (t < 21)%nat -> (k < 21)%nat ->
            ~ tip_above fist_hand t k).
  { intros t k Ht Hk. unfold tip_above, joint, fist_hand.
    rewrite !(nth_indep _ nowhere {| lx := 0.5; ly := 0.5; lz := Some 0 |})
      by (rewrite repeat_length; lia).
    rewrite !nth_repeat. cbn [ly]. lra. }
  pose proof (Hfinger 8%nat 5%nat ltac:(lia) ltac:(lia)).
  pose proof (Hfinger 12%nat 9%nat ltac:(lia) ltac:(lia)).
  pose proof (Hfinger 16%nat 13%nat ltac:(lia) ltac:(lia)).
  pose proof (Hfinger 20%nat 17%nat ltac:(lia) ltac:(lia)).
  cbn [at_least five_fingers]. tauto.
Qed.

Lemma binary_variant_witness :
  (21 <= length upright_hand)%nat
  /\ at_least 3 (five_fingers upright_hand)
  /\ detectHandGesture upright_hand = Some open
  /\ (21 <= length fist_hand)%nat
  /\ ~ at_least 3 (five_fingers fist_hand)
  /\ detectHandGesture fist_hand = Some closed
  /\ (exists s', onHandsResults [upright_hand] sample_globals = Some s'
        /\ (targetScale s' = 1.5 \/ targetScale s' = 0.3)
        /\ currentScale s' = 1.0)
  /\ length (positions sample_globals) = (particleCount sample_globals * 3)%nat
  /\ (2 < particleCount sample_globals * 3)%nat
  /\ get (positions (animate sample_globals)) 2
     = mul (Some 3) (Some (currentScale (animate sample_globals))).
Proof.
  destruct binary_variant as (Hrule & _ & _ & Hframe & Hanim).
  split; [simpl; lia |].
  split; [exact upright_fingers |].
  split; [apply (Hrule upright_hand ltac:(simpl; lia)); exact upright_fingers |].
  split; [simpl; lia |].
  split; [exact fist_fingers |].
  split; [apply (Hrule fist_hand ltac:(simpl; lia)); exact fist_fingers |].
  split.
  - destruct (Hframe upright_hand [] sample_globals ltac:(simpl; lia))
      as (s' & Hs' & _ & _ & Htwo & Hcur & _).
    exists s'. repeat split; assumption.
  - split; [reflexivity |]. split; [simpl; lia |].
    destruct (Hanim sample_globals) as (_ & _ & _ & Hcells).
    apply (Hcells eq_refl 2%nat). simpl. lia.
Defined.

End Binary.

(* ================================================================== *)
(** ** Further properties of the gesture estimator *)
(* ================================================================== *)

Section EstimatorMore.
Import JS GestureDetector GestureSession.

(** *** Incomplete landmark lists *)

Lemma sum_extensions_missing (lm : list landmark) (fingers : list (nat * nat))
  (total : num) (tip mcp : nat) :
  In (tip, mcp) fingers -> finger_extension lm tip mcp = None ->
  sum_extensions lm fingers total = None.
Proof.
  revert total. induction fingers as [| [t m] rest IH]; intros total Hin Hnone.
  - contradiction.
  - cbn [sum_extensions]. destruct Hin as [E | Hin].
    + inversion E; subst. now rewrite Hnone.
    + destruct (finger_extension lm t m); [now apply IH | reflexivity].
Qed.

(** X1.  [analyzeGesture] throws exactly on a list of fewer than 21
    landmarks; a frame carrying such a hand then changes nothing in the
    detector and invokes no callback. *)
Theorem analyzeGesture_needs_21 (lm : list landmark) :
  (analyzeGesture lm = None <-> (length lm < 21)%nat)
  /\ ((length lm < 21)%nat ->
      forall score rest d,
        onResults ({| landmarks := lm; score := score |} :: rest) d = None
        /\ frame ({| landmarks := lm; score := score |} :: rest) d = (d, [])).
Proof.
  assert (Hshort : (length lm < 21)%nat -> analyzeGesture lm = None).
  { intros Hlen. unfold analyzeGesture.
    destruct (nth_error lm WRIST), (nth_error lm INDEX_MCP),
             (nth_error lm PINKY_MCP); try reflexivity.
    rewrite (sum_extensions_missing lm _ _ PINKY_TIP PINKY_MCP);
      [reflexivity | simpl; tauto |].
    unfold finger_extension.
    assert (H20 : nth_error lm PINKY_TIP = None)
      by (apply nth_error_None; unfold PINKY_TIP; lia).
    now rewrite H20. }
  split.
  - split; [| exact Hshort].
    intros Hnone. destruct (Nat.lt_ge_cases (length lm) 21) as [H | H]; [exact H |].
    destruct (analyzeGesture_complete lm H) as [g Hg]. congruence.
  - intros Hlen score rest d. unfold frame, onResults. cbn [landmarks].
    rewrite (Hshort Hlen). now split.
Qed.

Lemma analyzeGesture_needs_21_witness :
  (length (firstn 20 sample_hand) < 21)%nat
  /\ frame [{| landmarks := firstn 20 sample_hand; score := 0.9 |}] open_corner
     = (open_corner, []).
Proof.
  split; [simpl; lia |].
  destruct (analyzeGesture_needs_21 (firstn 20 sample_hand)) as [_ H].
  apply (H ltac:(simpl; lia) 0.9 [] open_corner).
Defined.

(** *** Ranges *)

Lemma lerp_between (a b t : R) :
  0 <= t <= 1 -> 0 <= a <= 1 -> 0 <= b <= 1 -> 0 <= lerp a b t <= 1.
Proof. intros Ht Ha Hb. unfold lerp. split; nra. Qed.

Lemma nlerp_unit (a b : num) (t : R) :
  0 <= t <= 1 -> unit_num a -> unit_num b -> unit_num (nlerp a b t).
Proof.
  intros Ht Ha Hb. destruct a as [a |], b as [b |]; cbn; auto.
  apply (lerp_between a b t); assumption.
Qed.

Lemma raw_openness_unit (lm : list landmark) (g : raw_gesture) :
  analyzeGesture lm = Some g -> unit_num (raw_openness g).
Proof.
  unfold analyzeGesture.
  destruct (nth_error lm WRIST), (nth_error lm INDEX_MCP),
           (nth_error lm PINKY_MCP); try discriminate.
  destruct (sum_extensions _ _ _) as [total |]; [| discriminate].
  intros H. inversion H; subst; clear H. cbn [raw_openness].
  destruct (Math_pow _ _) as [o |]; cbn; [| exact I].
  split; [apply Rmax_l |].
  apply Rmax_lub; [lra | apply Rmin_l].
Qed.

Lemma raw_position_in_image (h : hand) (rest : results) (g : raw_gesture) :
  palm_in_image (h :: rest) -> analyzeGesture (landmarks h) = Some g ->
  in_unit_square (raw_position g).
Proof.
  intros Hpalm. unfold analyzeGesture.
  destruct (nth_error (landmarks h) WRIST) as [w |] eqn:Hw; [| discriminate].
  destruct (nth_error (landmarks h) INDEX_MCP) as [i |] eqn:Hi; [| discriminate].
  destruct (nth_error (landmarks h) PINKY_MCP) as [p |] eqn:Hp; [| discriminate].
  destruct (sum_extensions _ _ _) as [total |]; [| discriminate].
  intros H. inversion H; subst; clear H. cbn [raw_position].
  destruct (Hpalm WRIST w ltac:(simpl; tauto) Hw) as [Wx Wy].
  destruct (Hpalm INDEX_MCP i ltac:(simpl; tauto) Hi) as [Ix Iy].
  destruct (Hpalm PINKY_MCP p ltac:(simpl; tauto) Hp) as [Px Py].
  split; cbn [px py]; lra.
Qed.

Lemma frame_ranged (res : results) (d : detector) :
  well_ranged d -> palm_in_image res -> well_ranged (fst (frame res d)).
Proof.
  intros (Hf & Ho & Hpo & Hp & Hpp) Hpalm. unfold frame, onResults.
  destruct res as [| h rest].
  - cbn. repeat split; try apply Hpp; try apply Hf; auto.
    + apply nlerp_unit; [lra | exact Ho | cbn; lra].
    + apply lerp_between; [lra | apply Hp | lra].
    + apply lerp_between; [lra | apply Hp | lra].
    + apply lerp_between; [lra | apply Hp | lra].
    + apply lerp_between; [lra | apply Hp | lra].
  - destruct (analyzeGesture (landmarks h)) as [g |] eqn:Hg.
    + pose proof (raw_openness_unit _ _ Hg) as Hraw.
      pose proof (raw_position_in_image h rest g Hpalm Hg) as [Hx Hy].
      destruct Hpp as [Hppx Hppy].
      cbn. repeat split; try apply Hf;
        try (apply nlerp_unit; assumption);
        try (apply lerp_between; try assumption; apply Hf).
    + cbn. repeat split; try apply Hf; try apply Hp; try apply Hpp; auto.
Qed.

(** X2.  Openness stays NaN or within [0, 1], and the position within the
    unit square, over every run of frames whose palm keypoints lie in the
    image, once the smoothing factor is within [0, 1]; the constructor's
    state is such a state and [setSensitivity s] with [s] in [0, 1] keeps it
    one. *)
Theorem gesture_ranges_kept :
  well_ranged constructor
  /\ (forall d s, well_ranged d -> 0 <= s <= 1 -> well_ranged (setSensitivity s d))
  /\ (forall frames d,
        well_ranged d -> Forall palm_in_image frames ->
        well_ranged (fst (run frames d))).
Proof.
  split; [| split].
  - unfold well_ranged, constructor, in_unit_square. cbn. lra.
  - intros d s (Hf & Hrest) Hs. split; [cbn; lra | exact Hrest].
  - induction frames as [| res rest IH]; intros d Hd Hall; [exact Hd |].
    inversion Hall as [| ? ? Hres Hrest]; subst.
    cbn [run]. pose proof (frame_ranged res d Hd Hres) as H1.
    destruct (frame res d) as [d1 ev1]. cbn [fst] in H1.
    specialize (IH d1 H1 Hrest).
    destruct (run rest d1) as [d2 evs]. exact IH.
Qed.

Lemma dot_keypoint (i : nat) : keypoint dot_hand i = origin.
Proof. unfold keypoint, dot_hand. apply nth_repeat. Qed.

Lemma dot_palm_in_image : palm_in_image [dot_frame].
Proof.
  intros i p _ Hp. apply nth_error_In in Hp.
  apply repeat_spec in Hp. subst p. cbn. lra.
Qed.

Lemma gesture_ranges_kept_witness :
  0 <= 0.5 <= 1
  /\ Forall palm_in_image [[]; [dot_frame]; []]
  /\ well_ranged (fst (run [[]; [dot_frame]; []] (setSensitivity 0.5 constructor))).
Proof.
  destruct gesture_ranges_kept as (Hc & Hs & Hrun).
  assert (Hall : Forall palm_in_image [[]; [dot_frame]; []]).
  { constructor; [exact I |].
    constructor; [exact dot_palm_in_image |].
    constructor; [exact I | constructor]. }
  split; [lra |]. split; [exact Hall |].
  apply Hrun; [| exact Hall]. apply Hs; [exact Hc | lra].
Defined.

(** *** NaN *)

Lemma add_nan_r (a : num) : add a None = None.
Proof. now destruct a. Qed.

Lemma sum_extensions_nan (lm : list landmark) (fingers : list (nat * nat)) :
  (21 <= length lm)%nat ->
  (forall tip mcp, In (tip, mcp) fingers -> (tip < 21)%nat /\ (mcp < 21)%nat) ->
  sum_extensions lm fingers None = Some None.
Proof.
  intros Hlen. induction fingers as [| [t m] rest IH]; intros Hrange.
  - reflexivity.
  - cbn [sum_extensions]. unfold finger_extension.
    destruct (Hrange t m ltac:(simpl; tauto)) as [Ht Hm].
    rewrite (keypoint_defined lm t), (keypoint_defined lm m),
            (keypoint_defined lm WRIST) by (unfold WRIST; lia).
    cbn [add lift2]. apply IH. intros tip mcp Hin. apply Hrange. now right.
Qed.

Lemma sum_extensions_collapsed (lm : list landmark) (fingers : list (nat * nat))
  (tip mcp : nat) (total : num) :
  (21 <= length lm)%nat ->
  (forall t m, In (t, m) fingers -> (t < 21)%nat /\ (m < 21)%nat) ->
  In (tip, mcp) fingers ->
  distance (keypoint lm tip) (keypoint lm mcp) = 0 ->
  distance (keypoint lm mcp) (keypoint lm WRIST) = 0 ->
  sum_extensions lm fingers total = Some None.
Proof.
  intros Hlen. revert total.
  induction fingers as [| [t m] rest IH]; intros total Hrange Hin Ht0 Hw0.
  - contradiction.
  - cbn [sum_extensions]. unfold finger_extension.
    destruct (Hrange t m ltac:(simpl; tauto)) as [Ht Hm].
    rewrite (keypoint_defined lm t), (keypoint_defined lm m),
            (keypoint_defined lm WRIST) by (unfold WRIST; lia).
    assert (Hrest : forall t' m', In (t', m') rest -> (t' < 21)%nat /\ (m' < 21)%nat)
      by (intros; apply Hrange; now right).
    destruct Hin as [E | Hin].
    + inversion E; subst. rewrite Ht0, Hw0. unfold extension.
      destruct (Req_dec_T (0 * 1.5) 0) as [_ | N]; [| lra].
      destruct (Req_dec_T 0 0) as [_ | N]; [| lra].
      rewrite add_nan_r. now apply sum_extensions_nan.
    + now apply IH.
Qed.

Lemma fingers_below_21 (tip mcp : nat) :
  In (tip, mcp) (combine fingerTips fingerMCPs) -> (tip < 21)%nat /\ (mcp < 21)%nat.
Proof.
  intros Hin. simpl in Hin.
  repeat (destruct Hin as [Hin | Hin];
          [inversion Hin; subst; cbv [THUMB_TIP INDEX_TIP MIDDLE_TIP RING_TIP
             PINKY_TIP INDEX_MCP MIDDLE_MCP RING_MCP PINKY_MCP]; lia |]).
  contradiction.
Qed.

Lemma collapsed_openness (lm : list landmark) :
  (21 <= length lm)%nat -> collapsed_finger lm ->
  exists g, analyzeGesture lm = Some g /\ raw_openness g = None.
Proof.
  intros Hlen (tip & mcp & Hin & Ht0 & Hw0). unfold analyzeGesture.
  rewrite (keypoint_defined lm WRIST), (keypoint_defined lm INDEX_MCP),
          (keypoint_defined lm PINKY_MCP)
    by (cbv [WRIST INDEX_MCP PINKY_MCP]; lia).
  rewrite (sum_extensions_collapsed lm _ tip mcp (Some 0) Hlen
             fingers_below_21 Hin Ht0 Hw0).
  eexists. split; reflexivity.
Qed.

Lemma frame_keeps_nan (res : results) (d : detector) :
  previousOpenness d = None -> previousOpenness (fst (frame res d)) = None.
Proof.
  intros H. unfold frame, onResults. destruct res as [| h rest]; [exact H |].
  destruct (analyzeGesture (landmarks h)); [| exact H].
  cbn. now rewrite H.
Qed.

(** X3.  A hand with a finger whose tip, base knuckle and the wrist coincide
    makes the raw openness NaN, and NaN never leaves the smoothing state:
    from then on [previousOpenness] is NaN after every run of frames, every
    frame with a hand reports a NaN openness, and the description shown for
    it is 'Open Hand'. *)
Theorem nan_openness_is_absorbing :
  (forall d h rest,
      (21 <= length (landmarks h))%nat -> collapsed_finger (landmarks h) ->
      previousOpenness (fst (frame (h :: rest) d)) = None)
  /\ (forall d frames,
        previousOpenness d = None ->
        previousOpenness (fst (run frames d)) = None)
  /\ (forall d h rest d' ev,
        previousOpenness d = None ->
        onResults (h :: rest) d = Some (d', ev) ->
        openness (currentGesture d') = None
        /\ getGestureDescription (currentGesture d') = OpenHand).
Proof.
  split; [| split].
  - intros d h rest Hlen Hcol.
    destruct (collapsed_openness _ Hlen Hcol) as (g & Hg & Hraw).
    unfold frame, onResults. rewrite Hg. cbn. rewrite Hraw.
    now destruct (previousOpenness d).
  - intros d frames. revert d.
    induction frames as [| res rest IH]; intros d H; [exact H |].
    cbn [run]. pose proof (frame_keeps_nan res d H) as H1.
    destruct (frame res d) as [d1 ev1]. cbn [fst] in H1.
    specialize (IH d1 H1). now destruct (run rest d1).
  - intros d h rest d' ev H Hres. unfold onResults in Hres.
    destruct (analyzeGesture (landmarks h)); [| discriminate].
    inversion Hres; subst; clear Hres. cbn. rewrite H. now split.
Qed.

Lemma dot_hand_collapsed : collapsed_finger dot_hand.
Proof.
  exists THUMB_TIP, 1%nat. split; [simpl; tauto |].
  rewrite !dot_keypoint. unfold distance, zcoord, origin. cbn.
  replace ((0 - 0) * (0 - 0) + (0 - 0) * (0 - 0) + (0 - 0) * (0 - 0)) with 0 by ring.
  split; apply sqrt_0.
Qed.

Lemma nan_openness_is_absorbing_witness :
  (21 <= length (landmarks dot_frame))%nat
  /\ collapsed_finger (landmarks dot_frame)
  /\ previousOpenness
       (fst (run [[sample_frame]; []; [sample_frame]]
                 (fst (frame [dot_frame] constructor)))) = None.
Proof.
  destruct nan_openness_is_absorbing as (Hpoison & Hkeep & _).
  split; [simpl; lia |]. split; [exact dot_hand_collapsed |].
  apply Hkeep. apply Hpoison; [simpl; lia | exact dot_hand_collapsed].
Defined.

(** *** Camera distance and framing *)

Lemma zcoord_reframe (k a b : R) (p : landmark) :
  zcoord (reframe k a b p) = k * zcoord p.
Proof. unfold zcoord, reframe. cbn. destruct (lz p); lra. Qed.

Lemma distance_reframe (k a b : R) (p q : landmark) :
  distance (reframe k a b p) (reframe k a b q) = Rabs k * distance p q.
Proof.
  unfold distance. rewrite !zcoord_reframe. cbn [lx ly reframe].
  set (dx := lx p - lx q). set (dy := ly p - ly q).
  set (dz := zcoord p - zcoord q).
  replace ((k * lx p + a - (k * lx q + a)) * (k * lx p + a - (k * lx q + a))
           + (k * ly p + b - (k * ly q + b)) * (k * ly p + b - (k * ly q + b))
           + (k * zcoord p - k * zcoord q) * (k * zcoord p - k * zcoord q))
    with (Rsqr k * (dx * dx + dy * dy + dz * dz))
    by (subst dx dy dz; unfold Rsqr; ring).
  rewrite sqrt_mult_alt by apply Rle_0_sqr.
  now rewrite sqrt_Rsqr_abs.
Qed.

Lemma extension_scale (c t w : R) :
  0 < c -> extension (c * t) (c * w) = extension t w.
Proof.
  intros Hc. unfold extension.
  destruct (Req_dec_T (w * 1.5) 0) as [Ew | Nw].
  - assert (w = 0) by lra. subst w.
    destruct (Req_dec_T (c * 0 * 1.5) 0) as [_ | N]; [| lra].
    destruct (Req_dec_T t 0) as [Et | Nt].
    + subst t. destruct (Req_dec_T (c * 0) 0) as [_ | N]; [reflexivity | lra].
    + destruct (Req_dec_T (c * t) 0) as [E | _]; [| reflexivity].
      apply Rmult_integral in E. destruct E; lra.
  - destruct (Req_dec_T (c * w * 1.5) 0) as [E | _].
    + assert (c * (w * 1.5) = 0) by lra.
      apply Rmult_integral in H. destruct H; lra.
    + do 2 f_equal. field. split; lra.
Qed.

Lemma finger_extension_reframe (k a b : R) (lm : list landmark) (tip mcp : nat) :
  k <> 0 ->
  finger_extension (map (reframe k a b) lm) tip mcp = finger_extension lm tip mcp.
Proof.
  intros Hk. unfold finger_extension. rewrite !nth_error_map.
  destruct (nth_error lm tip), (nth_error lm mcp), (nth_error lm WRIST);
    cbn; try reflexivity.
  rewrite !distance_reframe. f_equal.
  apply extension_scale. now apply Rabs_pos_lt.
Qed.

Lemma sum_extensions_reframe (k a b : R) (lm : list landmark)
  (fingers : list (nat * nat)) (total : num) :
  k <> 0 ->
  sum_extensions (map (reframe k a b) lm) fingers total
  = sum_extensions lm fingers total.
Proof.
  intros Hk. revert total.
  induction fingers as [| [t m] rest IH]; intros total; [reflexivity |].
  cbn [sum_extensions]. rewrite finger_extension_reframe by exact Hk.
  destruct (finger_extension lm t m); [apply IH | reflexivity].
Qed.

(** X4.  The raw openness does not depend on the size or place of the hand
    in the image: magnifying every keypoint by [k <> 0] (x, y and z) and
    shifting x by [a] and y by [b] leaves it as it is, moves the palm
    position by the same map, and fails on exactly the same inputs. *)
Theorem openness_ignores_framing (k a b : R) (lm : list landmark) :
  k <> 0 ->
  analyzeGesture (map (reframe k a b) lm)
  = option_map
      (fun g => {| raw_openness := raw_openness g;
                   raw_position := {| px := k * px (raw_position g) + a;
                                      py := k * py (raw_position g) + b |} |})
      (analyzeGesture lm).
Proof.
  intros Hk. unfold analyzeGesture.
  rewrite !nth_error_map, sum_extensions_reframe by exact Hk.
  destruct (nth_error lm WRIST) as [w |], (nth_error lm INDEX_MCP) as [i |],
           (nth_error lm PINKY_MCP) as [p |]; cbn [option_map]; try reflexivity.
  destruct (sum_extensions lm _ _) as [total |]; cbn [option_map]; [| reflexivity].
  cbn [raw_openness raw_position px py lx ly reframe].
  do 2 f_equal. f_equal; lra.
Qed.

Lemma openness_ignores_framing_witness :
  2 <> 0
  /\ option_map raw_openness (analyzeGesture (map (reframe 2 0.1 0.2) sample_hand))
     = option_map raw_openness (analyzeGesture sample_hand).
Proof.
  split; [lra |].
  rewrite (openness_ignores_framing 2 0.1 0.2 sample_hand) by lra.
  now destruct (analyzeGesture sample_hand).
Defined.

(** *** A hand held still *)

Lemma hold_step (h : hand) (g : raw_gesture) (d : detector) :
  analyzeGesture (landmarks h) = Some g ->
  let d' := fst (frame [h] d) in
  smoothingFactor d' = smoothingFactor d
  /\ previousOpenness d'
     = nlerp (previousOpenness d) (raw_openness g) (smoothingFactor d)
  /\ px (previousPosition d')
     = lerp (px (previousPosition d)) (px (raw_position g)) (smoothingFactor d)
  /\ py (previousPosition d')
     = lerp (py (previousPosition d)) (py (raw_position g)) (smoothingFactor d)
  /\ openness (currentGesture d') = previousOpenness d'
  /\ position (currentGesture d') = previousPosition d'
  /\ isDetected (currentGesture d') = true.
Proof.
  intros Hg. unfold frame, onResults. rewrite Hg. cbn. repeat split.
Qed.

(** X5.  While the same hand is shown frame after frame, the smoothed values
    approach the raw ones geometrically: after [K] frames the gap of openness
    and of either position coordinate is the initial gap times
    [(1 - smoothingFactor) ^ K]; with a factor within [0, 1] it never exceeds
    the initial gap. *)
Theorem steady_hand_converges (h : hand) (g : raw_gesture) (d : detector)
  (p r : R) (K : nat) :
  analyzeGesture (landmarks h) = Some g ->
  raw_openness g = Some r ->
  previousOpenness d = Some p ->
  let f := smoothingFactor d in
  let d' := hold h K d in
  previousOpenness d' = Some (r + (p - r) * (1 - f) ^ K)
  /\ px (previousPosition d')
     = px (raw_position g)
       + (px (previousPosition d) - px (raw_position g)) * (1 - f) ^ K
  /\ py (previousPosition d')
     = py (raw_position g)
       + (py (previousPosition d) - py (raw_position g)) * (1 - f) ^ K
  /\ ((0 < K)%nat ->
      openness (currentGesture d') = previousOpenness d'
      /\ position (currentGesture d') = previousPosition d')
  /\ (0 <= f <= 1 ->
      Rabs (r + (p - r) * (1 - f) ^ K - r) <= Rabs (p - r)).
Proof.
  intros Hg Hr Hp f d'. subst d'.
  assert (Hf : forall k, smoothingFactor (hold h k d) = f).
  { induction k as [| k IH]; [reflexivity |].
    cbn [hold]. destruct (hold_step h g (hold h k d) Hg) as (E & _). now rewrite E. }
  assert (Hclosed : forall k,
            previousOpenness (hold h k d) = Some (r + (p - r) * (1 - f) ^ k)
            /\ px (previousPosition (hold h k d))
               = px (raw_position g)
                 + (px (previousPosition d) - px (raw_position g)) * (1 - f) ^ k
            /\ py (previousPosition (hold h k d))
               = py (raw_position g)
                 + (py (previousPosition d) - py (raw_position g)) * (1 - f) ^ k).
  { induction k as [| k (IHo & IHx & IHy)].
    - cbn [hold pow]. rewrite Hp. split; [f_equal; lra |]. split; lra.
    - cbn [hold]. destruct (hold_step h g (hold h k d) Hg)
        as (_ & Eo & Ex & Ey & _).
      rewrite Eo, Ex, Ey, IHo, IHx, IHy, Hr, Hf. unfold lerp. cbn [nlerp add mul sub lift2 pow].
      split; [f_equal; ring |]. split; ring. }
  destruct (Hclosed K) as (Ho & Hx & Hy).
  split; [exact Ho |]. split; [exact Hx |]. split; [exact Hy |]. split.
  - intros HK. destruct K as [| k]; [lia |]. cbn [hold].
    destruct (hold_step h g (hold h k d) Hg) as (_ & _ & _ & _ & Eo & Epos & _).
    now split.
  - intros Hrange.
    replace (r + (p - r) * (1 - f) ^ K - r) with ((p - r) * (1 - f) ^ K) by ring.
    assert (H0 : 0 <= (1 - f) ^ K) by (apply pow_le; lra).
    assert (H1 : (1 - f) ^ K <= 1).
    { apply Rle_trans with (1 ^ K); [apply pow_incr; lra | rewrite pow1; lra]. }
    rewrite Rabs_mult, (Rabs_right ((1 - f) ^ K)) by lra.
    pose proof (Rabs_pos (p - r)). nra.
Qed.

Lemma sample_hand_openness :
  exists g r, analyzeGesture sample_hand = Some g /\ raw_openness g = Some r.
Proof.
  pose proof sample_hand_off_wrist as Hoff.
  assert (Hlen : (21 <= length sample_hand)%nat) by (simpl; lia).
  assert (Hfinger : forall tip mcp,
             In (tip, mcp) (combine fingerTips fingerMCPs) ->
             finger_extension sample_hand tip mcp
             = Some (Some (spec_extension sample_hand tip mcp))).
  { intros tip mcp Hin.
    destruct (fingers_in_range sample_hand tip mcp Hlen Hin) as (Ht & Hm & Hk).
    apply finger_extension_spec; try assumption; [lia | now apply Hoff]. }
  unfold analyzeGesture.
  rewrite (keypoint_defined sample_hand WRIST),
          (keypoint_defined sample_hand INDEX_MCP),
          (keypoint_defined sample_hand PINKY_MCP)
    by (cbv [WRIST INDEX_MCP PINKY_MCP]; simpl; lia).
  cbn [combine fingerTips fingerMCPs sum_extensions].
  rewrite !Hfinger by (simpl; tauto).
  cbn [add lift2 lift1]. unfold Math_pow.
  pose proof (spec_extension_range sample_hand THUMB_TIP 1) as R1.
  pose proof (spec_extension_range sample_hand INDEX_TIP INDEX_MCP) as R2.
  pose proof (spec_extension_range sample_hand MIDDLE_TIP MIDDLE_MCP) as R3.
  pose proof (spec_extension_range sample_hand RING_TIP RING_MCP) as R4.
  pose proof (spec_extension_range sample_hand PINKY_TIP PINKY_MCP) as R5.
  destruct (Rlt_dec _ 0) as [Hneg | _].
  - exfalso. revert Hneg. cbn [length fingerTips]. simpl INR. lra.
  - eexists. eexists. split; reflexivity.
Qed.

Lemma steady_hand_converges_witness :
  exists g r,
    analyzeGesture (landmarks sample_frame) = Some g
    /\ raw_openness g = Some r
    /\ previousOpenness constructor = Some 0.5
    /\ previousOpenness (hold sample_frame 3 constructor)
       = Some (r + (0.5 - r) * (1 - 0.3) ^ 3).
Proof.
  destruct sample_hand_openness as (g & r & Hg & Hr).
  exists g, r.
  split; [exact Hg |]. split; [exact Hr |]. split; [reflexivity |].
  apply (steady_hand_converges sample_frame g constructor 0.5 r 3 Hg Hr eq_refl).
Defined.

(** *** Pausing *)

Lemma onFrames_running (frames : list results) (d : detector) :
  onFrames frames (init d) = init (fst (run frames d)).
Proof.
  revert d. induction frames as [| res rest IH]; intros d; [reflexivity |].
  cbn [onFrames run].
  assert (E : fst (onFrame res (init d)) = init (fst (frame res d))).
  { unfold onFrame, init. cbn [isRunning detector_of].
    now destruct (frame res d). }
  rewrite E, IH. destruct (frame res d) as [d1 ev1]. cbn [fst].
  now destruct (run rest d1).
Qed.

(** X6.  A running session hands every camera frame to [onResults]; a
    paused (or stopped) one drops them: whatever arrives during the pause,
    the detector is afterwards exactly as it was, so a hand tracked at the
    time of [pause] stays reported as detected and nothing relaxes to
    neutral, and after [resume] processing continues from that state. *)
Theorem paused_session_is_frozen :
  (forall frames d, onFrames frames (init d) = init (fst (run frames d)))
  /\ (forall frames c, onFrames frames (pause c) = pause c)
  /\ (forall frames c, onFrames frames (stop c) = stop c)
  /\ (forall frames c,
        getGesture (detector_of (onFrames frames (pause c)))
        = getGesture (detector_of c))
  /\ (forall during after c,
        onFrames after (resume (onFrames during (pause c)))
        = init (fst (run after (detector_of c)))).
Proof.
  assert (Hfrozen : forall frames c, isRunning c = false -> onFrames frames c = c).
  { induction frames as [| res rest IH]; intros c Hc; [reflexivity |].
    cbn [onFrames]. unfold onFrame. rewrite Hc. cbn [fst]. now apply IH. }
  split; [exact onFrames_running |].
  split; [intros; now apply Hfrozen |].
  split; [intros; now apply Hfrozen |].
  split; [intros frames c; now rewrite Hfrozen |].
  intros during after c. rewrite (Hfrozen during (pause c)) by reflexivity.
  apply (onFrames_running after (detector_of c)).
Qed.

(** *** The description shown *)

(** X23.  After a frame the description is 'Searching...' exactly when the
    frame carried no hand (for a frame that is processed).  For a tracked
    hand the description follows the openness monotonically, from 'Closed
    Fist' below 0.3 to 'Open Hand' from 0.7 on. *)
Theorem description_follows_tracking :
  (forall res d d' ev,
      onResults res d = Some (d', ev) ->
      (getGestureDescription (getGesture d') = Searching <-> res = []))
  /\ (forall g1 g2 o1 o2,
        isDetected g1 = true -> isDetected g2 = true ->
        openness g1 = Some o1 -> openness g2 = Some o2 -> o1 <= o2 ->
        (rank (getGestureDescription g1) <= rank (getGestureDescription g2))%nat)
  /\ (forall g o,
        isDetected g = true -> openness g = Some o ->
        (getGestureDescription g = ClosedFist <-> o < 0.3)
        /\ (getGestureDescription g = OpenHand <-> 0.7 <= o)).
Proof.
  split; [| split].
  - intros res d d' ev Hres. unfold onResults in Hres.
    destruct res as [| h rest].
    + inversion Hres; subst. cbn. now split.
    + destruct (analyzeGesture (landmarks h)); [| discriminate].
      inversion Hres; subst. unfold getGestureDescription, getGesture.
      cbn [currentGesture isDetected negb].
      cbn [openness].
      split; [| discriminate].
      repeat match goal with
             | |- context [if ?c then _ else _] => destruct c
             end; discriminate.
  - intros g1 g2 o1 o2 D1 D2 O1 O2 Hle. unfold getGestureDescription.
    rewrite D1, D2, O1, O2. cbn [negb below]. unfold ltb.
    destruct (Rlt_dec o1 0.3), (Rlt_dec o1 0.5), (Rlt_dec o1 0.7),
             (Rlt_dec o2 0.3), (Rlt_dec o2 0.5), (Rlt_dec o2 0.7);
      cbn [rank]; try lia; lra.
  - intros g o D O. unfold getGestureDescription. rewrite D, O.
    cbn [negb below]. unfold ltb.
    destruct (Rlt_dec o 0.3), (Rlt_dec o 0.5), (Rlt_dec o 0.7);
      split; split; intros H; try discriminate; try reflexivity; lra.
Qed.

Lemma description_follows_tracking_witness :
  (rank (getGestureDescription (currentGesture (nohand 0 open_corner)))
   <= rank (getGestureDescription (currentGesture open_corner)))%nat
  /\ (getGestureDescription (getGesture (fst (frame [] open_corner))) = Searching
      <-> @nil hand = []).
Proof.
  destruct description_follows_tracking as (Hsearch & Hmono & _).
  split.
  - apply (Hmono _ _ 1 1); try reflexivity; lra.
  - apply (Hsearch [] open_corner _ (snd (frame [] open_corner))). reflexivity.
Defined.

(** *** The smoothing factor and the sensitivity *)

Lemma raw_openness_off_wrist (lm : list landmark) :
  (21 <= length lm)%nat -> knuckles_off_wrist lm ->
  exists g, analyzeGesture lm = Some g
            /\ raw_openness g = Some (spec_openness lm).
Proof.
  intros Hlen Hoff.
  assert (Hfinger : forall tip mcp,
             In (tip, mcp) (combine fingerTips fingerMCPs) ->
             finger_extension lm tip mcp
             = Some (Some (spec_extension lm tip mcp))).
  { intros tip mcp Hin.
    destruct (fingers_in_range lm tip mcp Hlen Hin) as (Ht & Hm & Hk).
    apply finger_extension_spec; try assumption; [lia | now apply Hoff]. }
  unfold analyzeGesture.
  rewrite (keypoint_defined lm WRIST), (keypoint_defined lm INDEX_MCP),
          (keypoint_defined lm PINKY_MCP)
    by (cbv [WRIST INDEX_MCP PINKY_MCP]; lia).
  cbn [combine fingerTips fingerMCPs sum_extensions].
  rewrite !Hfinger by (simpl; tauto).
  cbn [add lift2 lift1 length fingerTips].
  pose proof (spec_extension_range lm THUMB_TIP 1) as R1.
  pose proof (spec_extension_range lm INDEX_TIP INDEX_MCP) as R2.
  pose proof (spec_extension_range lm MIDDLE_TIP MIDDLE_MCP) as R3.
  pose proof (spec_extension_range lm RING_TIP RING_MCP) as R4.
  pose proof (spec_extension_range lm PINKY_TIP PINKY_MCP) as R5.
  set (total := 0 + _ + _ + _ + _ + _).
  assert (Hmean : total / INR 5
                  = (spec_extension lm THUMB_TIP 1
                     + spec_extension lm INDEX_TIP INDEX_MCP
                     + spec_extension lm MIDDLE_TIP MIDDLE_MCP
                     + spec_extension lm RING_TIP RING_MCP
                     + spec_extension lm PINKY_TIP PINKY_MCP) / 5).
  { subst total. simpl INR. lra. }
  rewrite Hmean.
  set (mean := (_ + _ + _ + _ + _) / 5).
  assert (Hm : 0 <= mean <= 1) by (subst mean; lra).
  unfold Math_pow.
  destruct (Rlt_dec mean 0) as [Hneg | _]; [lra |].
  eexists. split; [reflexivity |]. cbn [raw_openness Math_max Math_min lift2].
  reflexivity.
Qed.

Lemma open_palm_keypoint (i : nat) :
  (i < 21)%nat -> keypoint open_palm i = open_palm_point i.
Proof.
  intros Hi. unfold keypoint, open_palm.
  rewrite (nth_indep _ origin (open_palm_point 0))
    by (rewrite length_map, length_seq; lia).
  now rewrite map_nth, seq_nth by lia.
Qed.

Lemma open_palm_distance (i j : nat) :
  (i < 21)%nat -> (j < 21)%nat ->
  distance (keypoint open_palm i) (keypoint open_palm j)
  = Rabs (lx (open_palm_point i) - lx (open_palm_point j)).
Proof.
  intros Hi Hj. rewrite !open_palm_keypoint by lia.
  unfold distance, zcoord. cbn [ly lz open_palm_point].
  set (dx := lx _ - lx _).
  replace (dx * dx + (0 - 0) * (0 - 0) + (0 - 0) * (0 - 0)) with (Rsqr dx)
    by (unfold Rsqr; ring).
  apply sqrt_Rsqr_abs.
Qed.

Lemma open_palm_saturates (tip mcp : nat) :
  In (tip, mcp) (combine fingerTips fingerMCPs) ->
  distance (keypoint open_palm mcp) (keypoint open_palm WRIST) = 1
  /\ spec_extension open_palm tip mcp = 1.
Proof.
  intros Hin.
  assert (Hd : distance (keypoint open_palm mcp) (keypoint open_palm WRIST) = 1
               /\ distance (keypoint open_palm tip) (keypoint open_palm mcp) = 2).
  { simpl in Hin.
    repeat (destruct Hin as [Hin | Hin];
            [inversion Hin; subst;
             rewrite !open_palm_distance
               by (cbv [WRIST THUMB_TIP INDEX_TIP MIDDLE_TIP RING_TIP PINKY_TIP
                        INDEX_MCP MIDDLE_MCP RING_MCP PINKY_MCP]; lia);
             cbn; split; [rewrite Rabs_right; lra | rewrite Rabs_right; lra] |]).
    contradiction. }
  destruct Hd as [Hw Ht]. split; [exact Hw |].
  apply spec_extension_saturates; rewrite Hw; [lra | rewrite Ht; lra].
Qed.

Lemma open_palm_openness :
  exists g, analyzeGesture open_palm = Some g /\ raw_openness g = Some 1.
Proof.
  assert (Hlen : (21 <= length open_palm)%nat) by (simpl; lia).
  assert (Hoff : knuckles_off_wrist open_palm).
  { intros mcp Hin.
    assert (Hpair : exists tip, In (tip, mcp) (combine fingerTips fingerMCPs)).
    { simpl in Hin. simpl.
      destruct Hin as [<- | [<- | [<- | [<- | [<- | []]]]]]; eexists; eauto 6. }
    destruct Hpair as [tip Hpair].
    destruct (open_palm_saturates tip mcp Hpair) as [Hw _]. rewrite Hw. lra. }
  destruct (raw_openness_off_wrist open_palm Hlen Hoff) as (g & Hg & Hr).
  exists g. split; [exact Hg |]. rewrite Hr. f_equal.
  unfold spec_openness.
  destruct (open_palm_saturates THUMB_TIP 1) as [_ ->]; [simpl; tauto |].
  destruct (open_palm_saturates INDEX_TIP INDEX_MCP) as [_ ->]; [simpl; tauto |].
  destruct (open_palm_saturates MIDDLE_TIP MIDDLE_MCP) as [_ ->]; [simpl; tauto |].
  destruct (open_palm_saturates RING_TIP RING_MCP) as [_ ->]; [simpl; tauto |].
  destruct (open_palm_saturates PINKY_TIP PINKY_MCP) as [_ ->]; [simpl; tauto |].
  replace ((1 + 1 + 1 + 1 + 1) / 5) with 1 by lra.
  unfold rpow. destruct (Req_dec_T 1 0) as [E | _]; [lra |].
  unfold Rpower. rewrite ln_1, Rmult_0_r, exp_0.
  rewrite Rmin_left, Rmax_right; lra.
Qed.

(** C8.  The smoothing factor is 0.3 after construction and
    [setSensitivity s] sets it to 0.2 + (1 - s) 0.3: within [0.2, 0.5] for
    [s] in [0, 1], 0.5 at [s = 0], decreasing as [s] grows.  But the factor
    is the weight of the new sample: after a frame with a hand, what is left
    of the distance of the smoothed openness, and of either coordinate of
    the position, to the raw value is the share 1 - factor = 0.5 + 0.3 s of
    the distance before.  A lower sensitivity therefore leaves less of the
    previous value, that is, it smooths less; the comment in
    [setSensitivity] says the opposite. *)
Theorem lower_sensitivity_smooths_less :
  smoothingFactor constructor = 0.3
  /\ (forall d s, smoothingFactor (setSensitivity s d) = 0.2 + (1 - s) * 0.3)
  /\ (forall d s, 0 <= s <= 1 ->
        0.2 <= smoothingFactor (setSensitivity s d) <= 0.5)
  /\ (forall d, smoothingFactor (setSensitivity 0 d) = 0.5)
  /\ (forall d s1 s2, s1 < s2 ->
        smoothingFactor (setSensitivity s2 d) < smoothingFactor (setSensitivity s1 d))
  /\ (forall d h g p r s,
        analyzeGesture (landmarks h) = Some g ->
        previousOpenness d = Some p -> raw_openness g = Some r ->
        let d' := fst (frame [h] (setSensitivity s d)) in
        exists o,
          openness (currentGesture d') = Some o
          /\ o - r = (0.5 + 0.3 * s) * (p - r)
          /\ px (position (currentGesture d')) - px (raw_position g)
             = (0.5 + 0.3 * s) * (px (previousPosition d) - px (raw_position g))
          /\ py (position (currentGesture d')) - py (raw_position g)
             = (0.5 + 0.3 * s) * (py (previousPosition d) - py (raw_position g)))
  /\ (forall d h g p r s1 s2,
        analyzeGesture (landmarks h) = Some g ->
        previousOpenness d = Some p -> raw_openness g = Some r ->
        p <> r -> 0 <= s1 -> s1 < s2 ->
        exists o1 o2,
          openness (currentGesture (fst (frame [h] (setSensitivity s1 d)))) = Some o1
          /\ openness (currentGesture (fst (frame [h] (setSensitivity s2 d)))) = Some o2
          /\ Rabs (o1 - r) < Rabs (o2 - r)).
Proof.
  assert (Hstep : forall d h g p r s,
            analyzeGesture (landmarks h) = Some g ->
            previousOpenness d = Some p -> raw_openness g = Some r ->
            let d' := fst (frame [h] (setSensitivity s d)) in
            openness (currentGesture d')
            = Some (p + (r - p) * (0.2 + (1 - s) * 0.3))
            /\ px (position (currentGesture d'))
               = lerp (px (previousPosition d)) (px (raw_position g))
                      (0.2 + (1 - s) * 0.3)
            /\ py (position (currentGesture d'))
               = lerp (py (previousPosition d)) (py (raw_position g))
                      (0.2 + (1 - s) * 0.3)).
  { intros d h g p r s Hg Hp Hr d'. subst d'.
    destruct (hold_step h g (setSensitivity s d) Hg)
      as (_ & Eo & Ex & Ey & Ec & Epos & _).
    rewrite Ec, Epos, Eo, Ex, Ey.
    cbn [setSensitivity previousOpenness previousPosition smoothingFactor].
    rewrite Hp, Hr. now repeat split. }
  split; [reflexivity |].
  split; [reflexivity |].
  split; [intros d s Hs; cbn; lra |].
  split; [intros d; cbn; lra |].
  split; [intros d s1 s2 Hlt; cbn; lra |].
  split.
  - intros d h g p r s Hg Hp Hr d'.
    destruct (Hstep d h g p r s Hg Hp Hr) as (Eo & Ex & Ey). fold d' in Eo, Ex, Ey.
    eexists. split; [exact Eo |]. rewrite Ex, Ey. unfold lerp.
    split; [lra |]. split; lra.
  - intros d h g p r s1 s2 Hg Hp Hr Hne H0 Hlt.
    destruct (Hstep d h g p r s1 Hg Hp Hr) as (E1 & _).
    destruct (Hstep d h g p r s2 Hg Hp Hr) as (E2 & _).
    eexists. eexists. split; [exact E1 |]. split; [exact E2 |].
    replace (p + (r - p) * (0.2 + (1 - s1) * 0.3) - r)
      with ((0.5 + 0.3 * s1) * (p - r)) by lra.
    replace (p + (r - p) * (0.2 + (1 - s2) * 0.3) - r)
      with ((0.5 + 0.3 * s2) * (p - r)) by lra.
    rewrite !Rabs_mult, (Rabs_right (0.5 + 0.3 * s1)), (Rabs_right (0.5 + 0.3 * s2))
      by lra.
    assert (Hgap : 0 < Rabs (p - r)) by (apply Rabs_pos_lt; lra).
    nra.
Qed.

Lemma lower_sensitivity_smooths_less_witness :
  exists g,
    analyzeGesture (landmarks open_frame) = Some g
    /\ previousOpenness constructor = Some 0.5
    /\ raw_openness g = Some 1
    /\ 0.5 <> 1 /\ 0 <= 0 /\ 0 < 1
    /\ openness (currentGesture (fst (frame [open_frame] (setSensitivity 0 constructor))))
       = Some 0.75
    /\ openness (currentGesture (fst (frame [open_frame] (setSensitivity 1 constructor))))
       = Some 0.6
    /\ Rabs (0.75 - 1) < Rabs (0.6 - 1).
Proof.
  destruct open_palm_openness as (g & Hg & Hr).
  exists g.
  destruct lower_sensitivity_smooths_less as (_ & _ & _ & _ & _ & Hgap & Hless).
  destruct (Hgap constructor open_frame g 0.5 1 0 Hg eq_refl Hr)
    as (a & Ea & Ha & _).
  destruct (Hgap constructor open_frame g 0.5 1 1 Hg eq_refl Hr)
    as (b & Eb & Hb & _).
  destruct (Hless constructor open_frame g 0.5 1 0 1 Hg eq_refl Hr
              ltac:(lra) ltac:(lra) ltac:(lra)) as (o1 & o2 & E1 & E2 & Hlt).
  assert (A : a = 0.75) by lra. assert (B : b = 0.6) by lra. subst a b.
  rewrite Ea in E1. rewrite Eb in E2. inversion E1; inversion E2; subst o1 o2.
  split; [exact Hg |]. split; [reflexivity |]. split; [exact Hr |].
  split; [lra |]. split; [lra |]. split; [lra |].
  split; [exact Ea |]. split; [exact Eb |]. exact Hlt.
Defined.

(** *** The division by zero *)

Lemma stub_keypoint (i : nat) :
  (i < 21)%nat -> keypoint stub_hand i = stub_point i.
Proof.
  intros Hi. unfold keypoint, stub_hand.
  rewrite (nth_indep _ origin (stub_point 0))
    by (rewrite length_map, length_seq; lia).
  now rewrite map_nth, seq_nth by lia.
Qed.

(** C7.  The score is the quotient of the claim cut off at 1 only while
    the base knuckle is off the wrist.  With a knuckle on the wrist the
    divisor is 0: the score is 1 when the tip is elsewhere (the quotient is
    infinite), and NaN when the tip is on the wrist as well (0 / 0).  One NaN
    score makes the sum, the mean, its power and the result of the clamp
    NaN, so the raw openness of such a hand is no number of [0, 1]; the hand
    with its 21 keypoints on one spot is an instance. *)
Theorem collapsed_finger_escapes_clamp :
  (forall lm tip mcp,
      (21 <= length lm)%nat ->
      In (tip, mcp) (combine fingerTips fingerMCPs) ->
      distance (keypoint lm mcp) (keypoint lm WRIST) = 0 ->
      (distance (keypoint lm tip) (keypoint lm mcp) = 0 ->
       finger_extension lm tip mcp = Some None)
      /\ (distance (keypoint lm tip) (keypoint lm mcp) <> 0 ->
          finger_extension lm tip mcp = Some (Some 1)))
  /\ (forall lm,
        (21 <= length lm)%nat -> collapsed_finger lm ->
        exists g, analyzeGesture lm = Some g /\ raw_openness g = None)
  /\ (exists g, analyzeGesture dot_hand = Some g
                /\ raw_openness g = None
                /\ forall o, raw_openness g = Some o -> ~ 0 <= o <= 1).
Proof.
  split; [| split].
  - intros lm tip mcp Hlen Hin Hw.
    destruct (fingers_in_range lm tip mcp Hlen Hin) as (Ht & Hm & _).
    unfold finger_extension.
    rewrite (keypoint_defined lm tip Ht), (keypoint_defined lm mcp Hm),
            (keypoint_defined lm WRIST) by (unfold WRIST; lia).
    rewrite Hw. unfold extension.
    destruct (Req_dec_T (0 * 1.5) 0) as [_ | N]; [| lra].
    split; intros Hd.
    + rewrite Hd. now destruct (Req_dec_T 0 0) as [_ | N]; [| lra].
    + now destruct (Req_dec_T _ 0) as [E | _].
  - intros lm Hlen Hcol. now apply collapsed_openness.
  - destruct (collapsed_openness dot_hand ltac:(simpl; lia) dot_hand_collapsed)
      as (g & Hg & Hr).
    exists g. split; [exact Hg |]. split; [exact Hr |].
    intros o Ho. rewrite Hr in Ho. discriminate.
Qed.

Lemma collapsed_finger_escapes_clamp_witness :
  (21 <= length dot_hand)%nat
  /\ collapsed_finger dot_hand
  /\ (exists g, analyzeGesture dot_hand = Some g /\ raw_openness g = None)
  /\ (21 <= length stub_hand)%nat
  /\ In (INDEX_TIP, INDEX_MCP) (combine fingerTips fingerMCPs)
  /\ distance (keypoint stub_hand INDEX_MCP) (keypoint stub_hand WRIST) = 0
  /\ distance (keypoint stub_hand INDEX_TIP) (keypoint stub_hand INDEX_MCP) <> 0
  /\ finger_extension stub_hand INDEX_TIP INDEX_MCP = Some (Some 1).
Proof.
  destruct collapsed_finger_escapes_clamp as (Hscore & Hnan & _).
  assert (Hw : distance (keypoint stub_hand INDEX_MCP) (keypoint stub_hand WRIST) = 0).
  { rewrite !stub_keypoint by (cbv [INDEX_MCP WRIST]; lia).
    unfold distance, zcoord. cbn.
    replace ((0 - 0) * (0 - 0) + (0 - 0) * (0 - 0) + (0 - 0) * (0 - 0))
      with 0 by ring.
    apply sqrt_0. }
  assert (Ht : distance (keypoint stub_hand INDEX_TIP) (keypoint stub_hand INDEX_MCP)
               <> 0).
  { rewrite !stub_keypoint by (cbv [INDEX_TIP INDEX_MCP]; lia).
    unfold distance, zcoord. cbn.
    replace ((1 - 0) * (1 - 0) + (0 - 0) * (0 - 0) + (0 - 0) * (0 - 0))
      with 1 by ring.
    rewrite sqrt_1. lra. }
  split; [simpl; lia |]. split; [exact dot_hand_collapsed |].
  split; [apply Hnan; [simpl; lia | exact dot_hand_collapsed] |].
  split; [simpl; lia |]. split; [simpl; tauto |].
  split; [exact Hw |]. split; [exact Ht |].
  apply (Hscore stub_hand INDEX_TIP INDEX_MCP);
    [simpl; lia | simpl; tauto | exact Hw | exact Ht].
Defined.

(** C5.  A NaN openness does not relax.  A frame with a hand that has a
    collapsed finger leaves the openness NaN, and every frame without a hand
    computes the next openness from the current one, so it stays NaN however
    many such frames follow: it never moves toward 0.5.  Starting from the
    constructor, one frame with all 21 keypoints on one spot is enough. *)
Theorem nan_openness_never_relaxes :
  (forall d K,
      openness (currentGesture d) = None ->
      openness (currentGesture (nohand K d)) = None)
  /\ (forall d h rest,
        (21 <= length (landmarks h))%nat -> collapsed_finger (landmarks h) ->
        openness (currentGesture (fst (frame (h :: rest) d))) = None)
  /\ (forall K,
        openness (currentGesture
                    (nohand K (fst (frame [dot_frame] constructor)))) = None
        /\ forall a,
             openness (currentGesture
                         (nohand K (fst (frame [dot_frame] constructor))))
             <> Some a).
Proof.
  assert (Hkeep : forall d K,
            openness (currentGesture d) = None ->
            openness (currentGesture (nohand K d)) = None).
  { intros d K H. induction K as [| K IH]; [exact H |].
    cbn [nohand]. rewrite nohand_step. cbn [fst currentGesture openness].
    now rewrite IH. }
  assert (Hhand : forall d h rest,
            (21 <= length (landmarks h))%nat -> collapsed_finger (landmarks h) ->
            openness (currentGesture (fst (frame (h :: rest) d))) = None).
  { intros d h rest Hlen Hcol.
    destruct (collapsed_openness _ Hlen Hcol) as (g & Hg & Hraw).
    unfold frame, onResults. rewrite Hg. cbn. rewrite Hraw.
    now destruct (previousOpenness d). }
  split; [exact Hkeep |]. split; [exact Hhand |].
  intros K.
  assert (H : openness (currentGesture
                          (nohand K (fst (frame [dot_frame] constructor)))) = None).
  { apply Hkeep. apply Hhand; [simpl; lia | exact dot_hand_collapsed]. }
  split; [exact H |]. intros a Ha. rewrite H in Ha. discriminate.
Qed.

Lemma nan_openness_never_relaxes_witness :
  (21 <= length (landmarks dot_frame))%nat
  /\ collapsed_finger (landmarks dot_frame)
  /\ openness (currentGesture (fst (frame [dot_frame] constructor))) = None
  /\ openness (currentGesture (nohand 3 (fst (frame [dot_frame] constructor))))
     = None.
Proof.
  destruct nan_openness_never_relaxes as (Hkeep & Hhand & _).
  assert (H : openness (currentGesture (fst (frame [dot_frame] constructor)))
              = None)
    by (apply Hhand; [simpl; lia | exact dot_hand_collapsed]).
  split; [simpl; lia |]. split; [exact dot_hand_collapsed |].
  split; [exact H |]. now apply Hkeep.
Defined.

End EstimatorMore.

(* ================================================================== *)
(** ** Further properties of the particle engine *)
(* ================================================================== *)

Section EngineMore.
Import JS ParticleSystem ParticleControls.

(** Decide the index tests the array lemmas leave behind. *)
Ltac index_cases :=
  repeat match goal with
         | |- context [Nat.eqb ?a ?b] =>
             destruct (Nat.eqb_spec a b); try lia
         | |- context [Nat.ltb ?a ?b] =>
             destruct (Nat.ltb_spec a b); try lia
         end.

Lemma div3_cases (k : nat) :
  ((k * 3) / 3 = k /\ (k * 3 + 1) / 3 = k /\ (k * 3 + 2) / 3 = k)%nat.
Proof.
  repeat split.
  - now apply Nat.div_mul.
  - rewrite Nat.div_add_l by lia. cbn. lia.
  - rewrite Nat.div_add_l by lia. cbn. lia.
Qed.

(** *** One animation frame *)

Lemma animate_loop (n : nat) (target : list num) (speed time : R)
  (p : list num) (k : nat) :
  length p = (n * 3)%nat -> (k <= n)%nat ->
  let r := for_loop k (animate_step n target speed time) p in
  length r = (n * 3)%nat
  /\ forall j, get r j
               = if Nat.ltb j (k * 3)
                 then animated_cell n target speed time p j
                 else get p j.
Proof.
  intros Hlen. induction k as [| k IH]; intros Hk; cbn zeta.
  - split; [exact Hlen | reflexivity].
  - rewrite for_loop_S. destruct (IH ltac:(lia)) as [Hl Hget].
    set (pk := for_loop k (animate_step n target speed time) p) in *.
    destruct (mod3_cases k) as (M0 & M1 & M2).
    destruct (div3_cases k) as (_ & D1 & _).
    unfold animate_step, approach. split; [now rewrite !length_tset |].
    intros j. rewrite !get_tset by (rewrite ?length_tset; lia).
    rewrite !Nat.eqb_refl.
    pose proof (Hget (k * 3)%nat) as G0.
    pose proof (Hget (k * 3 + 1)%nat) as G1.
    pose proof (Hget (k * 3 + 2)%nat) as G2.
    replace (Nat.ltb (k * 3) (k * 3)) with false in G0
      by (symmetry; apply Nat.ltb_ge; lia).
    replace (Nat.ltb (k * 3 + 1) (k * 3)) with false in G1
      by (symmetry; apply Nat.ltb_ge; lia).
    replace (Nat.ltb (k * 3 + 2) (k * 3)) with false in G2
      by (symmetry; apply Nat.ltb_ge; lia).
    destruct (Nat.eq_dec j (k * 3 + 1)) as [-> | N1].
    { unfold animated_cell, float_offset. rewrite M1, D1.
      index_cases. now rewrite G1. }
    destruct (Nat.eq_dec j (k * 3)) as [-> | N0].
    { unfold animated_cell. rewrite M0. index_cases. now rewrite G0. }
    destruct (Nat.eq_dec j (k * 3 + 2)) as [-> | N2].
    { unfold animated_cell. rewrite M2. index_cases. now rewrite G2. }
    index_cases; rewrite Hget; index_cases; reflexivity.
Qed.

Lemma animate_cells (s : system) (j : nat) :
  isAnimating s = true ->
  length (positions s) = (particleCount s * 3)%nat ->
  (j < particleCount s * 3)%nat ->
  get (positions (animate s)) j
  = animated_cell (particleCount s) (targetPositions s) (animationSpeed s)
                  (time s + 0.016 * animationSpeed s) (positions s) j.
Proof.
  intros Ha Hlen Hj. unfold animate. rewrite Ha. cbn [negb positions].
  destruct (animate_loop (particleCount s) (targetPositions s)
              (animationSpeed s) (time s + 0.016 * animationSpeed s)
              (positions s) (particleCount s) Hlen (Nat.le_refl _)) as [_ Hget].
  rewrite Hget. apply Nat.ltb_lt in Hj. now rewrite Hj.
Qed.

(** X7.  One frame of [animate] on a running system moves every x and z
    cell the fraction 0.05 * animationSpeed of the way to its target, so its
    gap to the target is multiplied by 1 - 0.05 * animationSpeed; a y cell is
    moved likewise and then shifted by a float offset of at most
    0.1 * |animationSpeed|.  The frame advances [time] by
    0.016 * animationSpeed and leaves targets, originals and the random
    generator alone.  After [dispose] a frame changes nothing at all. *)
Theorem animate_frame (s : system) :
  (isAnimating s = true ->
   length (positions s) = (particleCount s * 3)%nat ->
   forall j p t,
     (j < particleCount s * 3)%nat ->
     get (positions s) j = Some p ->
     get (targetPositions s) j = Some t ->
     exists p',
       get (positions (animate s)) j = Some p'
       /\ ((j mod 3)%nat <> 1%nat ->
           p' - t = (1 - 0.05 * animationSpeed s) * (p - t))
       /\ ((j mod 3)%nat = 1%nat ->
           Rabs (p' - t - (1 - 0.05 * animationSpeed s) * (p - t))
           <= 0.1 * Rabs (animationSpeed s)))
  /\ (isAnimating s = true ->
      time (animate s) = time s + 0.016 * animationSpeed s)
  /\ targetPositions (animate s) = targetPositions s
  /\ originalPositions (animate s) = originalPositions s
  /\ rand (animate s) = rand s
  /\ animate (dispose s) = dispose s.
Proof.
  split; [| split; [| repeat split]].
  - intros Ha Hlen j p t Hj Hp Ht.
    rewrite (animate_cells s j Ha Hlen Hj). unfold animated_cell.
    rewrite Hp, Ht. cbn [add mul sub lift2].
    destruct (Nat.eq_dec (j mod 3) 1) as [E | N].
    + rewrite E. cbn [add lift2]. eexists. split; [reflexivity |].
      split; [intros H; contradiction |]. intros _.
      unfold float_offset.
      set (a := sin _).
      replace (p + (t - p) * (0.05 * animationSpeed s)
               + a * (0.1 * animationSpeed s) - t
               - (1 - 0.05 * animationSpeed s) * (p - t))
        with (a * (0.1 * animationSpeed s)) by ring.
      rewrite !Rabs_mult, (Rabs_right 0.1) by lra.
      assert (Rabs a <= 1) by (apply Rabs_le; apply SIN_bound).
      pose proof (Rabs_pos (animationSpeed s)). nra.
    + exists (p + (t - p) * (0.05 * animationSpeed s)).
      split; [destruct (j mod 3)%nat as [| [| r]]; try reflexivity; lia |].
      split; [intros _; ring | intros E; contradiction].
  - intros Ha. unfold animate. now rewrite Ha.
  - unfold animate. now destruct (isAnimating s).
  - unfold animate. now destruct (isAnimating s).
  - unfold animate. now destruct (isAnimating s).
Qed.

Lemma animate_frame_witness :
  isAnimating sample_system = true
  /\ length (positions sample_system) = (particleCount sample_system * 3)%nat
  /\ (3 < particleCount sample_system * 3)%nat
  /\ exists p',
       get (positions (animate sample_system)) 3 = Some p'
       /\ p' - 4 = (1 - 0.05 * 1) * (0 - 4).
Proof.
  split; [reflexivity |]. split; [reflexivity |]. split; [simpl; lia |].
  destruct (animate_frame sample_system) as (Hcell & _).
  destruct (Hcell eq_refl eq_refl 3%nat 0 4 ltac:(simpl; lia) eq_refl eq_refl)
    as (p' & Hp' & Hxz & _).
  exists p'. split; [exact Hp' |]. apply Hxz. simpl. lia.
Defined.

(** *** Frames under a constant target *)

Lemma animate_keeps (s : system) :
  isAnimating s = true ->
  length (positions s) = (particleCount s * 3)%nat ->
  isAnimating (animate s) = true
  /\ particleCount (animate s) = particleCount s
  /\ animationSpeed (animate s) = animationSpeed s
  /\ targetPositions (animate s) = targetPositions s
  /\ length (positions (animate s)) = (particleCount s * 3)%nat.
Proof.
  intros Ha Hlen. unfold animate. rewrite Ha. cbn. repeat split; auto.
  now apply (animate_loop (particleCount s) (targetPositions s)
               (animationSpeed s) (time s + 0.016 * animationSpeed s)
               (positions s) (particleCount s) Hlen (Nat.le_refl _)).
Qed.

Lemma animate_frames_keep (K : nat) (s : system) :
  isAnimating s = true ->
  length (positions s) = (particleCount s * 3)%nat ->
  isAnimating (animate_frames K s) = true
  /\ particleCount (animate_frames K s) = particleCount s
  /\ animationSpeed (animate_frames K s) = animationSpeed s
  /\ targetPositions (animate_frames K s) = targetPositions s
  /\ length (positions (animate_frames K s)) = (particleCount s * 3)%nat.
Proof.
  intros Ha Hlen. induction K as [| K (I1 & I2 & I3 & I4 & I5)].
  - repeat split; auto.
  - cbn [animate_frames].
    destruct (animate_keeps (animate_frames K s) I1 ltac:(now rewrite I2))
      as (J1 & J2 & J3 & J4 & J5).
    repeat split; congruence.
Qed.

(** X8.  With the target held constant, [K] frames of [animate] bring every
    x and z cell geometrically to its target: the gap after [K] frames is the
    initial gap times (1 - 0.05 * animationSpeed) ^ K, which for a speed
    within [0, 20] never exceeds the initial gap. *)
Theorem animate_converges (s : system) (K j : nat) (p t : R) :
  isAnimating s = true ->
  length (positions s) = (particleCount s * 3)%nat ->
  (j < particleCount s * 3)%nat ->
  (j mod 3)%nat <> 1%nat ->
  get (positions s) j = Some p ->
  get (targetPositions s) j = Some t ->
  let q := 1 - 0.05 * animationSpeed s in
  get (positions (animate_frames K s)) j = Some (t + (p - t) * q ^ K)
  /\ (0 <= animationSpeed s <= 20 ->
      Rabs (t + (p - t) * q ^ K - t) <= Rabs (p - t)).
Proof.
  intros Ha Hlen Hj Hmod Hp Ht q. split.
  - induction K as [| K IH].
    + cbn [animate_frames pow]. rewrite Hp. f_equal. ring.
    + cbn [animate_frames].
      destruct (animate_frames_keep K s Ha Hlen) as (I1 & I2 & I3 & I4 & I5).
      rewrite animate_cells by (rewrite ?I2; assumption).
      unfold animated_cell. rewrite IH, I4, Ht, I3. cbn [add mul sub lift2].
      destruct (j mod 3)%nat as [| [| r]]; try contradiction;
        cbn [pow]; f_equal; subst q; ring.
  - intros Hv.
    replace (t + (p - t) * q ^ K - t) with ((p - t) * q ^ K) by ring.
    assert (H0 : 0 <= q ^ K) by (apply pow_le; subst q; lra).
    assert (H1 : q ^ K <= 1).
    { apply Rle_trans with (1 ^ K); [apply pow_incr; subst q; lra |].
      rewrite pow1. lra. }
    rewrite Rabs_mult, (Rabs_right (q ^ K)) by lra.
    pose proof (Rabs_pos (p - t)). nra.
Qed.

Lemma animate_converges_witness :
  isAnimating sample_system = true
  /\ length (positions sample_system) = (particleCount sample_system * 3)%nat
  /\ (5 < particleCount sample_system * 3)%nat
  /\ (5 mod 3)%nat <> 1%nat
  /\ get (positions (animate_frames 10 sample_system)) 5
     = Some (6 + (0 - 6) * (1 - 0.05 * 1) ^ 10).
Proof.
  split; [reflexivity |]. split; [reflexivity |]. split; [simpl; lia |].
  split; [simpl; lia |].
  apply (animate_converges sample_system 10 5 0 6);
    try reflexivity; simpl; lia.
Defined.

(** *** Reset *)

Lemma reset_loop (original : list num) (k : nat) (t : list num) :
  forall j,
    get (for_loop k (fun i target => set target i (get original i)) t) j
    = if Nat.ltb j k then get original j else get t j.
Proof.
  induction k as [| k IH]; intros j; [reflexivity |].
  rewrite for_loop_S, get_set, IH. index_cases; subst; reflexivity.
Qed.

(** X9.  [reset] makes every target cell equal to the original cell (the
    whole target array equal to the original one in a consistent system),
    clears the recorded gesture and the rotation, and touches neither the
    originals nor the rendered positions nor the random generator.  It undoes
    any [updateGestureInfluence], and doing it twice is doing it once. *)
Theorem reset_restores_targets (s : system) :
  (forall j, (j < particleCount s * 3)%nat ->
     get (targetPositions (reset s)) j = get (originalPositions s) j)
  /\ originalPositions (reset s) = originalPositions s
  /\ positions (reset s) = positions s
  /\ rand (reset s) = rand s
  /\ gestureInfluence (reset s) = 0
  /\ gesturePosition (reset s) = center
  /\ rotation_y (reset s) = 0
  /\ (consistent s ->
      targetPositions (reset s) = originalPositions s
      /\ reset (reset s) = reset s
      /\ forall openness position sensitivity,
           targetPositions
             (reset (updateGestureInfluence openness position sensitivity s))
           = originalPositions s).
Proof.
  assert (Hcell : forall s0 j, (j < particleCount s0 * 3)%nat ->
            get (targetPositions (reset s0)) j = get (originalPositions s0) j).
  { intros s0 j Hj. unfold reset. cbn [targetPositions].
    rewrite reset_loop. apply Nat.ltb_lt in Hj. now rewrite Hj. }
  assert (Hall : forall s0, consistent s0 ->
            targetPositions (reset s0) = originalPositions s0).
  { intros s0 Hs0. destruct (reset_lengths s0 Hs0) as (_ & Lt & _).
    destruct Hs0 as (Lo & _).
    apply array_ext; [cbn [particleCount reset] in Lt; congruence |].
    intros j Hj. apply Hcell. cbn [particleCount reset] in Lt. lia. }
  split; [apply Hcell |]. repeat split.
  - now apply Hall.
  - pose proof (Hall s H) as E.
    pose proof (Hall (reset s) (reset_lengths s H)) as E2.
    assert (Et : targetPositions (reset (reset s)) = targetPositions (reset s))
      by (rewrite E2, E; reflexivity).
    unfold reset at 1.
    change (for_loop (particleCount (reset s) * 3)
              (fun i target => set target i (get (originalPositions (reset s)) i))
              (targetPositions (reset s)))
      with (targetPositions (reset (reset s))).
    rewrite Et. reflexivity.
  - intros openness position sensitivity.
    pose proof (gesture_lengths openness position sensitivity s H) as Hg.
    rewrite (Hall _ Hg). unfold updateGestureInfluence.
    now destruct (for_loop _ _ _).
Qed.

Lemma reset_restores_targets_witness :
  consistent sample_system
  /\ targetPositions (reset (updateGestureInfluence 1 center 1 sample_system))
     = originalPositions sample_system.
Proof.
  split; [exact sample_system_consistent |].
  destruct (reset_restores_targets sample_system)
    as (_ & _ & _ & _ & _ & _ & _ & H).
  apply (H sample_system_consistent).
Defined.

(** *** Gestures do not accumulate *)

(** X10.  [updateGestureInfluence] computes the targets from the originals
    alone: it leaves the originals and the rendered positions as they are,
    and a call with an openness of at most 0.7 yields the same targets
    whatever gesture was applied before it. *)
Theorem gesture_forgets_previous (s : system) (openness : R) (position : point)
  (sensitivity : R) :
  originalPositions (updateGestureInfluence openness position sensitivity s)
  = originalPositions s
  /\ positions (updateGestureInfluence openness position sensitivity s)
     = positions s
  /\ (consistent s -> openness <= 0.7 ->
      forall openness0 position0 sensitivity0,
        targetPositions
          (updateGestureInfluence openness position sensitivity
             (updateGestureInfluence openness0 position0 sensitivity0 s))
        = targetPositions
            (updateGestureInfluence openness position sensitivity s)).
Proof.
  assert (Hkeep : forall o p v s0,
            originalPositions (updateGestureInfluence o p v s0)
            = originalPositions s0
            /\ positions (updateGestureInfluence o p v s0) = positions s0
            /\ particleCount (updateGestureInfluence o p v s0) = particleCount s0).
  { intros o p v s0. unfold updateGestureInfluence.
    now destruct (for_loop _ _ _). }
  destruct (Hkeep openness position sensitivity s) as (Ho & Hp & _).
  split; [exact Ho |]. split; [exact Hp |].
  intros Hs Hle openness0 position0 sensitivity0.
  set (s1 := updateGestureInfluence openness0 position0 sensitivity0 s).
  destruct (Hkeep openness0 position0 sensitivity0 s) as (Ho1 & _ & Hn1).
  fold s1 in Ho1, Hn1.
  pose proof (gesture_lengths openness0 position0 sensitivity0 s Hs) as Hs1.
  fold s1 in Hs1.
  destruct (gesture_lengths openness position sensitivity s1 Hs1) as (_ & L1 & _).
  destruct (gesture_lengths openness position sensitivity s Hs) as (_ & L0 & _).
  destruct (Hkeep openness position sensitivity s1) as (_ & _ & Hn2).
  destruct (Hkeep openness position sensitivity s) as (_ & _ & Hn0).
  apply array_ext; [congruence |].
  intros j Hj.
  rewrite !updateGestureInfluence_cells by lia.
  unfold target_cell. rewrite gtb_false by exact Hle. now rewrite Ho1.
Qed.

Lemma gesture_forgets_previous_witness :
  consistent sample_system /\ 0.2 <= 0.7
  /\ targetPositions
       (updateGestureInfluence 0.2 center 1
          (updateGestureInfluence 1 center 1 sample_system))
     = targetPositions (updateGestureInfluence 0.2 center 1 sample_system).
Proof.
  split; [exact sample_system_consistent |]. split; [lra |].
  destruct (gesture_forgets_previous sample_system 0.2 center 1) as (_ & _ & H).
  apply (H sample_system_consistent ltac:(lra)).
Defined.

(** *** The hand position *)

(** X24.  Moving the hand drags every target by one and the same vector:
    between two hand positions (same system, openness and sensitivity) every
    x cell differs by 6 * sensitivity times the difference of the hand's x,
    every y cell by 6 * sensitivity times the opposite difference of the
    hand's y (the image's y axis points down), and no z cell differs. *)
Theorem hand_position_translates (s : system) (openness sensitivity : R)
  (p1 p2 : point) (j : nat) (x : R) :
  (j < particleCount s * 3)%nat ->
  get (originalPositions s) j = Some x ->
  exists a b,
    get (targetPositions (updateGestureInfluence openness p1 sensitivity s)) j
    = Some a
    /\ get (targetPositions (updateGestureInfluence openness p2 sensitivity s)) j
       = Some b
    /\ a - b = match (j mod 3)%nat with
               | O => 6 * sensitivity * (px p1 - px p2)
               | 1%nat => 6 * sensitivity * (py p2 - py p1)
               | _ => 0
               end.
Proof.
  intros Hj Hx. rewrite !updateGestureInfluence_cells by exact Hj.
  unfold target_cell. rewrite Hx.
  destruct (gtb openness 0.7); cbn [mul add lift2];
    destruct (j mod 3)%nat as [| [| r]]; cbn [add lift2];
    eexists; eexists; (split; [reflexivity |]); (split; [reflexivity |]); lra.
Qed.

Lemma hand_position_translates_witness :
  (3 < particleCount sample_system * 3)%nat
  /\ get (originalPositions sample_system) 3 = Some 4
  /\ exists a b,
       get (targetPositions
              (updateGestureInfluence 1 {| px := 0.75; py := 0.5 |} 1
                                      sample_system)) 3 = Some a
       /\ get (targetPositions (updateGestureInfluence 1 center 1 sample_system)) 3
          = Some b
       /\ a - b = 6 * 1 * (0.75 - 0.5).
Proof.
  split; [simpl; lia |]. split; [reflexivity |].
  destruct (hand_position_translates sample_system 1 1
              {| px := 0.75; py := 0.5 |} center 3 4
              ltac:(simpl; lia) eq_refl) as (a & b & Ha & Hb & Hd).
  exists a, b. repeat split; assumption.
Defined.

End EngineMore.

(* ================================================================== *)
(** ** Creation of the particles *)
(* ================================================================== *)

Section Creation.
Import JS ParticleSystem ParticleControls.

Variable lerpColors : Color -> Color -> R -> Color.
Variable getHSL : Color -> R * R * R.
Variable setHSL : R -> R -> R -> Color.

Ltac index_cases :=
  repeat match goal with
         | |- context [Nat.eqb ?a ?b] =>
             destruct (Nat.eqb_spec a b); try lia
         | |- context [Nat.ltb ?a ?b] =>
             destruct (Nat.ltb_spec a b); try lia
         end.

Lemma get_push3 (a : list num) (x y z : num) (m j : nat) :
  length a = m ->
  get (push3 a x y z) j
  = if Nat.ltb j m then get a j
    else if Nat.eqb j m then x
    else if Nat.eqb j (m + 1) then y
    else if Nat.eqb j (m + 2) then z
    else None.
Proof.
  intros Hm. unfold get, push3.
  destruct (Nat.ltb_spec j m) as [Hlt | Hge].
  - apply app_nth1. lia.
  - rewrite app_nth2 by lia. rewrite Hm.
    destruct (Nat.eqb_spec j m) as [-> | N0].
    { now rewrite Nat.sub_diag. }
    destruct (Nat.eqb_spec j (m + 1)) as [-> | N1].
    { now replace (m + 1 - m)%nat with 1%nat by lia. }
    destruct (Nat.eqb_spec j (m + 2)) as [-> | N2].
    { now replace (m + 2 - m)%nat with 2%nat by lia. }
    destruct (j - m)%nat as [| [| [| r]]] eqn:E; try lia.
    now destruct r.
Qed.

Lemma get_write_color (colors : list num) (i : nat) (c : Color) (j : nat) :
  (i * 3 + 2 < length colors)%nat ->
  get (write_color colors (i * 3) c) j
  = if Nat.eqb j (i * 3) then Some (cr c)
    else if Nat.eqb j (i * 3 + 1) then Some (cg c)
    else if Nat.eqb j (i * 3 + 2) then Some (cb c)
    else get colors j.
Proof.
  intros Hlen. unfold write_color.
  rewrite !get_tset by (rewrite ?length_tset; lia).
  index_cases; reflexivity.
Qed.

Lemma length_write_color (colors : list num) (i3 : nat) (c : Color) :
  length (write_color colors i3 c) = length colors.
Proof. unfold write_color. now rewrite !length_tset. Qed.

Lemma create_loop (s : system) (pp : list num) (g : rng) :
  length pp = (particleCount s * 3)%nat ->
  let n := particleCount s in
  created lerpColors getHSL setHSL s pp g n
    (for_loop n (create_step lerpColors getHSL setHSL s pp)
       {| b_positions := Float32Array (n * 3);
          b_colors := Float32Array (n * 3);
          b_sizes := Float32Array n;
          b_alphas := Float32Array n;
          b_randomSeeds := Float32Array n;
          b_original := [];
          b_target := [];
          b_velocities := [];
          b_rand := g |}).
Proof.
  intros Hpp n. apply (for_loop_ind (created lerpColors getHSL setHSL s pp g)).
  - unfold created. cbn [b_positions b_original b_target b_velocities b_rand
      b_colors b_sizes b_alphas b_randomSeeds length Nat.mul repeat].
    rewrite !length_Float32Array.
    repeat split; try reflexivity; try (intros; lia).
    destruct g. cbn. f_equal. lia.
  - intros k b Hk (Hpos & Horig & Htarg & Hvel & Hrand & Hcol & Hsiz & Halp & Hseed).
    destruct Hpos as [Lp Gp], Horig as [Lo Go], Htarg as [Lt Gt],
             Hcol as [Lc Gc], Hsiz as [Ls Gs], Halp as [La Ga], Hseed as [Lr Gr].
    fold n in Lp, Lc, Ls, La, Lr.
    destruct (mod3_cases k) as (M0 & M1 & M2).
    destruct (div3_cases k) as (D0 & D1 & D2).
    unfold created, create_step. rewrite Hrand.
    cbn [random draws next fst snd b_positions b_original b_target
         b_velocities b_rand b_colors b_sizes b_alphas b_randomSeeds].
    fold n.
    set (pos' := tset (tset (tset (b_positions b) (k * 3) (get pp (k * 3)))
                            (k * 3 + 1) (get pp (k * 3 + 1)))
                      (k * 3 + 2) (get pp (k * 3 + 2))).
    assert (Gpos : forall j, get pos' j
                   = if Nat.eqb j (k * 3) then get pp (k * 3)
                     else if Nat.eqb j (k * 3 + 1) then get pp (k * 3 + 1)
                     else if Nat.eqb j (k * 3 + 2) then get pp (k * 3 + 2)
                     else get (b_positions b) j).
    { intros j. subst pos'.
      rewrite !get_tset by (rewrite ?length_tset; lia).
      index_cases; reflexivity. }
    assert (G0 : get pos' (k * 3) = get pp (k * 3))
      by (rewrite Gpos; index_cases; reflexivity).
    assert (G1 : get pos' (k * 3 + 1) = get pp (k * 3 + 1))
      by (rewrite Gpos; index_cases; reflexivity).
    assert (G2 : get pos' (k * 3 + 2) = get pp (k * 3 + 2))
      by (rewrite Gpos; index_cases; reflexivity).
    rewrite G0, G1, G2.
    split.
    { split; [subst pos'; now rewrite !length_tset |].
      intros j Hj. rewrite Gpos. index_cases; subst; auto. apply Gp. lia. }
    split.
    { split; [rewrite length_push3; lia |].
      intros j Hj. rewrite (get_push3 _ _ _ _ (k * 3)) by exact Lo.
      index_cases; subst; auto. }
    split.
    { split; [rewrite length_push3; lia |].
      intros j Hj. rewrite (get_push3 _ _ _ _ (k * 3)) by exact Lt.
      index_cases; subst; auto. }
    split.
    { rewrite Hvel. unfold push3.
      replace (S k * 3)%nat with (k * 3 + 3)%nat by lia.
      now rewrite repeat_app. }
    split.
    { f_equal. lia. }
    split.
    { split; [now rewrite length_write_color |].
      intros j Hj. rewrite get_write_color by lia.
      unfold channel.
      destruct (Nat.eqb_spec j (k * 3)) as [-> | N0];
        [now rewrite M0, D0 |].
      destruct (Nat.eqb_spec j (k * 3 + 1)) as [-> | N1];
        [now rewrite M1, D1 |].
      destruct (Nat.eqb_spec j (k * 3 + 2)) as [-> | N2];
        [now rewrite M2, D2 |].
      apply Gc. lia. }
    split.
    { split; [now rewrite length_tset |].
      intros i Hi. rewrite get_tset by lia.
      destruct (Nat.eqb_spec k i) as [<- | N]; [| apply Gs; lia].
      do 3 f_equal. }
    split.
    { split; [now rewrite length_tset |].
      intros i Hi. rewrite get_tset by lia.
      destruct (Nat.eqb_spec k i) as [<- | N]; [| apply Ga; lia].
      do 4 f_equal. lia. }
    { split; [now rewrite length_tset |].
      intros i Hi. rewrite get_tset by lia.
      destruct (Nat.eqb_spec k i) as [<- | N]; [| apply Gr; lia].
      do 2 f_equal. lia. }
Qed.

Lemma createParticles_fields (s : system) :
  let n := particleCount s in
  let gen := generatePattern (currentPattern s) n (rand s) in
  let s' := createParticles lerpColors getHSL setHSL s in
  exists b,
    created lerpColors getHSL setHSL s (fst gen) (snd gen) n b
    /\ positions s' = b_positions b
    /\ originalPositions s' = b_original b
    /\ targetPositions s' = b_target b
    /\ velocities s' = b_velocities b
    /\ colors s' = b_colors b
    /\ sizes s' = b_sizes b
    /\ alphas s' = b_alphas b
    /\ randomSeeds s' = b_randomSeeds b
    /\ rand s' = b_rand b
    /\ particleCount s' = n
    /\ primaryColor s' = primaryColor s
    /\ secondaryColor s' = secondaryColor s
    /\ particleSize s' = particleSize s.
Proof.
  intros n gen s'. subst s'. unfold createParticles. fold n.
  pose proof (length_generatePattern (currentPattern s) n (rand s)) as Hlen.
  fold gen in Hlen |- *. destruct gen as [pp g]. cbn [fst snd] in *.
  eexists. split; [apply (create_loop s pp g Hlen) |].
  cbn. repeat split.
Qed.

(** X11.  [createParticles], and so [setParticleCount], leaves the system
    at rest on a freshly generated pattern: the rendered positions, the
    originals and the targets are one and the same array, the velocities are
    all zero and the rotation is zero, whatever the state before. *)
Theorem creation_is_at_rest (count : nat) (s : system) :
  let s' := setParticleCount lerpColors getHSL setHSL count s in
  let fresh := fst (generatePattern (currentPattern s) count (rand s)) in
  particleCount s' = count
  /\ positions s' = fresh
  /\ originalPositions s' = fresh
  /\ targetPositions s' = fresh
  /\ velocities s' = repeat (Some 0) (count * 3)
  /\ rotation_y s' = 0.
Proof.
  intros s' fresh. subst s'. unfold setParticleCount.
  match goal with |- context [createParticles _ _ _ ?x] => set (s0 := x) end.
  destruct (createParticles_fields s0)
    as (b & Hb & Ep & Eo & Et & Ev & _ & _ & _ & _ & _ & En & _).
  change (particleCount s0) with count in *.
  change (currentPattern s0) with (currentPattern s) in *.
  change (rand s0) with (rand s) in *.
  fold fresh in Hb.
  pose proof (length_generatePattern (currentPattern s) count (rand s)) as Hlen.
  fold fresh in Hlen.
  destruct Hb as ((Lp & Gp) & (Lo & Go) & (Lt & Gt) & Hvel & _).
  change (particleCount s0) with count in *.
  split; [exact En |].
  split; [rewrite Ep; apply array_ext; [congruence | intros j Hj; apply Gp; lia] |].
  split; [rewrite Eo; apply array_ext; [congruence | intros j Hj; apply Go; lia] |].
  split; [rewrite Et; apply array_ext; [congruence | intros j Hj; apply Gt; lia] |].
  split; [now rewrite Ev |].
  unfold createParticles. now destruct (generatePattern _ _ _).
Qed.

(** X12.  The per-particle attributes [createParticles] draws, from three
    consecutive random numbers drawn after those of the pattern: the size
    written for particle [i] is [particleSize] times 0.4 + 0.6 r, the alpha
    0.7 + 0.3 r, the twinkle seed r itself.  The three buffers are
    [Float32Array]s: the size held lies between the binary32 values of
    0.4 particleSize and of particleSize, the alpha held between the binary32
    value of 0.7, which is 11744051 / 2 ^ 24 and so below 0.7, and 1, the
    seed held within [0, 1]. *)
Theorem creation_attributes (s : system) (i : nat) :
  (i < particleCount s)%nat ->
  unit_draws (draws (rand s)) ->
  0 <= particleSize s ->
  let s' := createParticles lerpColors getHSL setHSL s in
  let first := (next (rand s) + draws_per (currentPattern s) * particleCount s
                + 3 * i)%nat in
  exists size alpha seed,
    get (sizes s') i = Some size
    /\ get (alphas s') i = Some alpha
    /\ get (randomSeeds s') i = Some seed
    /\ size = particleSize s * (0.4 + draws (rand s) first * 0.6)
    /\ alpha = 0.7 + draws (rand s) (first + 1)%nat * 0.3
    /\ seed = draws (rand s) (first + 2)%nat
    /\ held (sizes s') i = Some (Math_fround size)
    /\ held (alphas s') i = Some (Math_fround alpha)
    /\ held (randomSeeds s') i = Some (Math_fround seed)
    /\ Math_fround (0.4 * particleSize s) <= Math_fround size
       <= Math_fround (particleSize s)
    /\ Math_fround 0.7 <= Math_fround alpha <= 1
    /\ 0 <= Math_fround seed <= 1
    /\ Math_fround 0.7 = 11744051 / 16777216.
Proof.
  intros Hi Hunit Hps s' first.
  destruct (createParticles_fields s)
    as (b & Hb & _ & _ & _ & _ & _ & Es & Ea & Er & _).
  fold s' in Es, Ea, Er.
  rewrite generatePattern_rng in Hb.
  destruct Hb as (_ & _ & _ & _ & _ & _ & (_ & Gs) & (_ & Ga) & (_ & Gr)).
  cbn [advance draws next] in Gs, Ga, Gr.
  pose proof (Hunit first) as U0.
  pose proof (Hunit (first + 1)%nat) as U1.
  pose proof (Hunit (first + 2)%nat) as U2.
  pose proof (fround_IZR 1 ltac:(lia)) as F1.
  pose proof (fround_IZR 0 ltac:(lia)) as F0.
  eexists. eexists. eexists.
  rewrite Es, Ea, Er.
  split; [apply (Gs i Hi) |]. split; [apply (Ga i Hi) |].
  split; [apply (Gr i Hi) |].
  subst first.
  split; [reflexivity |]. split; [reflexivity |]. split; [reflexivity |].
  split; [apply held_get, (Gs i Hi) |].
  split; [apply held_get, (Ga i Hi) |].
  split; [apply held_get, (Gr i Hi) |].
  split; [apply fround_between; nra |].
  split.
  { match goal with
    | |- _ <= Math_fround ?a <= _ =>
        pose proof (fround_between 0.7 1 a ltac:(lra)) as B
    end.
    rewrite F1 in B. exact B. }
  split.
  { match goal with
    | |- _ <= Math_fround ?a <= _ =>
        pose proof (fround_between 0 1 a ltac:(lra)) as B
    end.
    rewrite F0, F1 in B. exact B. }
  exact fround_07.
Qed.

(** *** Colours *)

Lemma setColors_loop (primary secondary : Color) (n : nat) (c : list num)
  (k : nat) :
  length c = (n * 3)%nat -> (k <= n)%nat ->
  let r := for_loop k
             (fun i colors =>
                write_color colors (i * 3)
                  (particle_color lerpColors getHSL setHSL primary secondary n i))
             c in
  length r = (n * 3)%nat
  /\ forall j, get r j
       = if Nat.ltb j (k * 3)
         then Some (channel (particle_color lerpColors getHSL setHSL
                               primary secondary n (j / 3)) j)
         else get c j.
Proof.
  intros Hlen. induction k as [| k IH]; intros Hk; cbn zeta.
  - split; [exact Hlen | reflexivity].
  - rewrite for_loop_S. destruct (IH ltac:(lia)) as [Hl Hget].
    set (ck := for_loop k _ c) in *.
    destruct (mod3_cases k) as (M0 & M1 & M2).
    destruct (div3_cases k) as (D0 & D1 & D2).
    split; [now rewrite length_write_color |].
    intros j. rewrite get_write_color by lia. unfold channel.
    destruct (Nat.eqb_spec j (k * 3)) as [-> | N0].
    { rewrite M0, D0. index_cases. reflexivity. }
    destruct (Nat.eqb_spec j (k * 3 + 1)) as [-> | N1].
    { rewrite M1, D1. index_cases. reflexivity. }
    destruct (Nat.eqb_spec j (k * 3 + 2)) as [-> | N2].
    { rewrite M2, D2. index_cases. reflexivity. }
    rewrite Hget. unfold channel. index_cases; reflexivity.
Qed.

(** X13.  [setColors] rewrites the whole colour buffer: cell [j] becomes
    the channel [j mod 3] of the gradient colour of particle [j / 3], and
    nothing else of the system changes but the two stored colours.
    [createParticles] fills the buffer by the same rule, so calling
    [setColors] with the colours a system was created with changes
    nothing. *)
Theorem setColors_matches_creation (s : system) (primary secondary : Color) :
  (length (colors s) = (particleCount s * 3)%nat ->
   forall j, (j < particleCount s * 3)%nat ->
     get (colors (setColors lerpColors getHSL setHSL primary secondary s)) j
     = Some (channel (particle_color lerpColors getHSL setHSL primary secondary
                        (particleCount s) (j / 3)) j))
  /\ positions (setColors lerpColors getHSL setHSL primary secondary s)
     = positions s
  /\ targetPositions (setColors lerpColors getHSL setHSL primary secondary s)
     = targetPositions s
  /\ rand (setColors lerpColors getHSL setHSL primary secondary s) = rand s
  /\ (let s' := createParticles lerpColors getHSL setHSL s in
      setColors lerpColors getHSL setHSL (primaryColor s) (secondaryColor s) s'
      = s').
Proof.
  split; [| repeat split].
  - intros Hlen j Hj. unfold setColors. cbn [colors].
    destruct (setColors_loop primary secondary (particleCount s) (colors s)
                (particleCount s) Hlen (Nat.le_refl _)) as [_ Hget].
    rewrite Hget. apply Nat.ltb_lt in Hj. now rewrite Hj.
  - cbn zeta.
    destruct (createParticles_fields s)
      as (b & Hb & _ & _ & _ & _ & Ec & _ & _ & _ & _ & En & Ep & Es & _).
    destruct Hb as (_ & _ & _ & _ & _ & (Lc & Gc) & _).
    set (s' := createParticles lerpColors getHSL setHSL s) in *.
    assert (Hcol : colors (setColors lerpColors getHSL setHSL
                             (primaryColor s) (secondaryColor s) s')
                   = colors s').
    { unfold setColors. cbn [colors]. rewrite En.
      destruct (setColors_loop (primaryColor s) (secondaryColor s)
                  (particleCount s) (colors s') (particleCount s)
                  ltac:(now rewrite Ec) (Nat.le_refl _)) as [Hl Hget].
      apply array_ext; [rewrite Hl, Ec; now symmetry |].
      intros j Hj. rewrite Hl in Hj. rewrite Hget.
      apply Nat.ltb_lt in Hj. rewrite Hj. apply Nat.ltb_lt in Hj.
      rewrite Ec. symmetry. now apply Gc. }
    unfold setColors in Hcol |- *. cbn [colors] in Hcol.
    rewrite Hcol, <- Ep, <- Es. now destruct s'.
Qed.

(** X14.  How many random numbers the operations consume: [setPattern]
    and the generator take 3 per particle for sphere, cube, torus, heart and
    the default cloud, 2 for spiral and dna, 1 for wave and 5 for galaxy;
    [createParticles] takes 3 more per particle; [setColors], [animate] and
    [reset] take none. *)
Theorem random_numbers_consumed (s : system) :
  (forall pat,
      rand (setPattern pat s)
      = advance (rand s) (draws_per pat * particleCount s))
  /\ rand (createParticles lerpColors getHSL setHSL s)
     = advance (rand s)
         (draws_per (currentPattern s) * particleCount s + 3 * particleCount s)
  /\ (forall primary secondary,
        rand (setColors lerpColors getHSL setHSL primary secondary s) = rand s)
  /\ rand (animate s) = rand s
  /\ rand (reset s) = rand s.
Proof.
  split; [| split; [| repeat split]].
  - intros pat. unfold setPattern.
    pose proof (generatePattern_rng pat (particleCount s) (rand s)) as Hg.
    destruct (generatePattern pat (particleCount s) (rand s)) as [np g].
    destruct (for_loop _ _ _). cbn [rand snd] in *. exact Hg.
  - destruct (createParticles_fields s)
      as (b & Hb & _ & _ & _ & _ & _ & _ & _ & _ & Er & _).
    rewrite Er, generatePattern_rng in *.
    destruct Hb as (_ & _ & _ & _ & Hrand & _). rewrite Hrand.
    unfold advance. cbn. f_equal. lia.
  - unfold animate. now destruct (isAnimating s).
Qed.

End Creation.

Section CreationSamples.
Import JS ParticleSystem ParticleControls.

Lemma creation_attributes_witness :
  (1 < particleCount sample_system)%nat
  /\ unit_draws (draws (rand sample_system))
  /\ 0 <= particleSize sample_system
  /\ exists alpha,
       held (alphas (createParticles sample_lerpColors sample_getHSL
                       sample_setHSL sample_system)) 1 = Some alpha
       /\ 11744051 / 16777216 <= alpha <= 1.
Proof.
  split; [simpl; lia |]. split; [exact ramp_unit |]. split; [simpl; lra |].
  destruct (creation_attributes sample_lerpColors sample_getHSL sample_setHSL
              sample_system 1 ltac:(simpl; lia) ramp_unit ltac:(simpl; lra))
    as (size & alpha & seed & _ & _ & _ & _ & _ & _ & _ & Ha & _ & _ & Hr & _ & E).
  exists (Math_fround alpha). split; [exact Ha |]. rewrite <- E. exact Hr.
Defined.

Lemma setColors_matches_creation_witness :
  length (colors sample_system) = (particleCount sample_system * 3)%nat
  /\ (4 < particleCount sample_system * 3)%nat
  /\ get (colors (setColors sample_lerpColors sample_getHSL sample_setHSL
                    magenta cyan sample_system)) 4
     = Some (channel (particle_color sample_lerpColors sample_getHSL
                        sample_setHSL magenta cyan 2 (4 / 3)) 4).
Proof.
  split; [reflexivity |]. split; [simpl; lia |].
  destruct (setColors_matches_creation sample_lerpColors sample_getHSL
              sample_setHSL sample_system magenta cyan) as (Hcell & _).
  apply (Hcell eq_refl 4%nat). simpl. lia.
Defined.

End CreationSamples.

(* ================================================================== *)
(** ** Where the generator puts the particles *)
(* ================================================================== *)

Section Placement.
Import JS ParticleSystem ParticleControls.

Lemma Math_cbrt_unit (w : R) : 0 <= w < 1 -> 0 <= Math_cbrt w < 1.
Proof.
  intros [H0 H1]. unfold Math_cbrt.
  destruct (Req_dec_T w 0) as [E | N]; [lra |].
  destruct (Rlt_dec 0 w) as [Hpos | Hneg]; [| lra].
  unfold Rpower. split; [left; apply exp_pos |].
  assert (Hln : ln w < 0) by (rewrite <- ln_1; apply ln_increasing; lra).
  apply Rlt_le_trans with (exp 0); [apply exp_increasing; lra |].
  rewrite exp_0. lra.
Qed.

Lemma Math_acos_unit (u : R) :
  0 <= u < 1 -> Math_acos (2 * u - 1) = Some (acos (2 * u - 1)).
Proof.
  intros [H0 H1]. unfold Math_acos.
  destruct (Rlt_dec (2 * u - 1) (-1)); [lra |].
  destruct (Rlt_dec 1 (2 * u - 1)); [lra | reflexivity].
Qed.

Lemma sphere_norm (r phi theta : R) :
  (r * sin phi * cos theta) * (r * sin phi * cos theta)
  + (r * sin phi * sin theta) * (r * sin phi * sin theta)
  + (r * cos phi) * (r * cos phi) = r * r.
Proof.
  pose proof (sin2_cos2 phi) as Hp. pose proof (sin2_cos2 theta) as Ht.
  unfold Rsqr in Hp, Ht.
  replace ((r * sin phi * cos theta) * (r * sin phi * cos theta)
           + (r * sin phi * sin theta) * (r * sin phi * sin theta)
           + (r * cos phi) * (r * cos phi))
    with (r * r * (sin phi * sin phi * (sin theta * sin theta + cos theta * cos theta)
                   + cos phi * cos phi)) by ring.
  rewrite Ht, Rmult_1_r, Hp. ring.
Qed.

(** X15.  With draws in [0, 1) the generator never produces NaN: every
    cell of every pattern is a number.  The pattern array is a
    [Float32Array].  A cube or default-cloud particle is held within
    [-15, 15] on each axis.  A sphere particle is computed within the ball of
    radius 15 and held within [-15, 15] on each axis, no coordinate more
    than 2 ^ -21 from the computed one.  A torus particle is computed with
    |y| <= 4.5 and a distance from the y axis between 7.5 and 16.5, and held
    with |y| <= 4.5, x and z no more than 2 ^ -20 from the computed ones. *)
Theorem pattern_extent (pat : pattern) (n : nat) (g : rng) (i : nat) :
  (i < n)%nat -> unit_draws (draws g) ->
  let p := fst (generatePattern pat n g) in
  exists x y z,
    get p (i * 3) = Some x /\ get p (i * 3 + 1) = Some y
    /\ get p (i * 3 + 2) = Some z
    /\ held p (i * 3) = Some (Math_fround x)
    /\ held p (i * 3 + 1) = Some (Math_fround y)
    /\ held p (i * 3 + 2) = Some (Math_fround z)
    /\ (pat = cube \/ pat = other ->
        -15 <= Math_fround x <= 15 /\ -15 <= Math_fround y <= 15
        /\ -15 <= Math_fround z <= 15)
    /\ (pat = sphere ->
        x * x + y * y + z * z <= 15 * 15
        /\ (-15 <= Math_fround x <= 15 /\ -15 <= Math_fround y <= 15
            /\ -15 <= Math_fround z <= 15)
        /\ Rabs (Math_fround x - x) <= 1 / 2097152
        /\ Rabs (Math_fround y - y) <= 1 / 2097152
        /\ Rabs (Math_fround z - z) <= 1 / 2097152)
    /\ (pat = torus ->
        7.5 * 7.5 <= x * x + z * z <= 16.5 * 16.5
        /\ -4.5 <= y <= 4.5
        /\ -4.5 <= Math_fround y <= 4.5
        /\ Rabs (Math_fround x - x) <= 1 / 1048576
        /\ Rabs (Math_fround z - z) <= 1 / 1048576).
Proof.
  intros Hi Hunit p.
  pose proof (generatePattern_cells pat n g i Hi) as Hcells.
  cbn zeta in Hcells. fold p in Hcells.
  set (g' := advance g (draws_per pat * i)) in Hcells.
  pose proof (Hunit (next g')) as U0.
  pose proof (Hunit (S (next g'))) as U1.
  pose proof (Hunit (S (S (next g')))) as U2.
  pose proof (Hunit (S (S (S (next g'))))) as U3.
  pose proof (Hunit (S (S (S (S (next g')))))) as U4.
  assert (Hd : draws g' = draws g) by reflexivity.
  assert (Hbox15 : forall c, -15 <= c <= 15 -> -15 <= Math_fround c <= 15).
  { intros c Hc. apply (box_held c (-15) 15 15); [reflexivity | lra | lia | lra]. }
  destruct pat; cbn [place random fst snd draws next vec] in Hcells;
    rewrite ?Hd in Hcells.
  - (* sphere *)
    rewrite (Math_acos_unit _ U0) in Hcells. cbn [lift1] in Hcells.
    apply triple_eq in Hcells. destruct Hcells as (X & Y & Z).
    cells_held X Y Z.
    split; [intros [E | E]; discriminate |].
    split; [| intros E; discriminate].
    intros _.
    set (x := radius * Math_cbrt _ * sin _ * cos _).
    set (y := radius * Math_cbrt _ * sin _ * sin _).
    set (z := radius * Math_cbrt _ * cos _).
    assert (Hball : x * x + y * y + z * z <= 15 * 15).
    { subst x y z. rewrite sphere_norm.
      pose proof (Math_cbrt_unit _ U2) as Hc. unfold radius. nra. }
    assert (Hx : -15 <= x <= 15) by (split; nra).
    assert (Hy : -15 <= y <= 15) by (split; nra).
    assert (Hz : -15 <= z <= 15) by (split; nra).
    split; [exact Hball |].
    split; [split; [| split]; now apply Hbox15 |].
    split; [| split]; apply fround_error_16; apply Rabs_def1; lra.
  - (* cube *)
    apply triple_eq in Hcells. destruct Hcells as (X & Y & Z).
    cells_held X Y Z.
    split; [intros _; split; [| split]; apply Hbox15; unfold radius; lra |].
    split; intros E; discriminate.
  - (* torus *)
    apply triple_eq in Hcells. destruct Hcells as (X & Y & Z).
    cells_held X Y Z.
    split; [intros [E | E]; discriminate |].
    split; [intros E; discriminate |].
    intros _. unfold radius.
    set (tube := draws g (S (next g')) * PI * 2).
    set (ring := draws g (next g') * PI * 2).
    set (tr := 15 * 0.3 * draws g (S (S (next g')))).
    assert (Htr : 0 <= tr < 4.5) by (subst tr; lra).
    pose proof (SIN_bound tube) as [S1 S2].
    pose proof (COS_bound tube) as [C1 C2].
    pose proof (SIN_bound ring) as [S3 S4].
    pose proof (COS_bound ring) as [C3 C4].
    pose proof (sin2_cos2 ring) as Hr. unfold Rsqr in Hr.
    assert (Hm : -4.5 < tr * cos tube < 4.5) by (split; nra).
    assert (Hy : -4.5 <= tr * sin tube <= 4.5) by (split; nra).
    assert (Hnorm : ((15 * 0.8 + tr * cos tube) * cos ring
                     * ((15 * 0.8 + tr * cos tube) * cos ring)
                     + (15 * 0.8 + tr * cos tube) * sin ring
                       * ((15 * 0.8 + tr * cos tube) * sin ring))
                    = (15 * 0.8 + tr * cos tube) * (15 * 0.8 + tr * cos tube)).
    { replace ((15 * 0.8 + tr * cos tube) * cos ring
               * ((15 * 0.8 + tr * cos tube) * cos ring)
               + (15 * 0.8 + tr * cos tube) * sin ring
                 * ((15 * 0.8 + tr * cos tube) * sin ring))
        with ((15 * 0.8 + tr * cos tube) * (15 * 0.8 + tr * cos tube)
              * (sin ring * sin ring + cos ring * cos ring)) by ring.
      now rewrite Hr, Rmult_1_r. }
    split; [rewrite Hnorm; split; nra |].
    split; [exact Hy |].
    split.
    { apply (half_box_held _ (-4.5) 4.5 9); [lra | lra | lia | exact Hy]. }
    split; apply fround_error_32; apply Rabs_def1; nra.
  - (* spiral *)
    apply triple_eq in Hcells. destruct Hcells as (X & Y & Z).
    cells_held X Y Z.
    split; [intros [E | E]; discriminate |]. split; intros E; discriminate.
  - (* galaxy *)
    apply triple_eq in Hcells. destruct Hcells as (X & Y & Z).
    cells_held X Y Z.
    split; [intros [E | E]; discriminate |]. split; intros E; discriminate.
  - (* heart *)
    apply triple_eq in Hcells. destruct Hcells as (X & Y & Z).
    cells_held X Y Z.
    split; [intros [E | E]; discriminate |]. split; intros E; discriminate.
  - (* dna *)
    apply triple_eq in Hcells. destruct Hcells as (X & Y & Z).
    cells_held X Y Z.
    split; [intros [E | E]; discriminate |]. split; intros E; discriminate.
  - (* wave *)
    apply triple_eq in Hcells. destruct Hcells as (X & Y & Z).
    cells_held X Y Z.
    split; [intros [E | E]; discriminate |]. split; intros E; discriminate.
  - (* default *)
    apply triple_eq in Hcells. destruct Hcells as (X & Y & Z).
    cells_held X Y Z.
    split; [intros _; split; [| split]; apply Hbox15; unfold radius; lra |].
    split; intros E; discriminate.
Qed.

Lemma pattern_extent_witness :
  (1 < 2)%nat /\ unit_draws (draws ramp)
  /\ exists x y z,
       held (fst (generatePattern sphere 2 ramp)) (1 * 3) = Some x
       /\ held (fst (generatePattern sphere 2 ramp)) (1 * 3 + 1) = Some y
       /\ held (fst (generatePattern sphere 2 ramp)) (1 * 3 + 2) = Some z
       /\ -15 <= x <= 15 /\ -15 <= y <= 15 /\ -15 <= z <= 15.
Proof.
  split; [lia |]. split; [exact ramp_unit |].
  destruct (pattern_extent sphere 2 ramp 1 ltac:(lia) ramp_unit)
    as (x & y & z & _ & _ & _ & X & Y & Z & _ & Hball & _).
  destruct (Hball eq_refl) as (_ & (Hx & Hy & Hz) & _).
  exists (Math_fround x), (Math_fround y), (Math_fround z).
  repeat split; try assumption; lra.
Defined.

End Placement.

(* ================================================================== *)
(** ** The size and bloom controls *)
(* ================================================================== *)

Section Controls.
Import JS ParticleSystem ParticleControls.

Lemma size_loop (size : R) (sz : list num) (g : rng) (n k : nat) :
  length sz = n -> (k <= n)%nat ->
  let r := for_loop k (size_step size) (sz, g) in
  length (fst r) = n
  /\ snd r = advance g k
  /\ forall i, get (fst r) i
       = if Nat.ltb i k
         then Some (size * (0.5 + draws g (next g + i)%nat * 0.5))
         else get sz i.
Proof.
  intros Hlen. induction k as [| k IH]; intros Hk; cbn zeta.
  - cbn [for_loop seq fold_left fst snd]. split; [exact Hlen |].
    split; [| reflexivity]. unfold advance. destruct g. cbn. f_equal. lia.
  - rewrite for_loop_S. destruct (IH ltac:(lia)) as (Hl & Hg & Hget).
    destruct (for_loop k (size_step size) (sz, g)) as [sk gk].
    cbn [fst snd] in *. subst gk.
    unfold size_step. cbn [random advance draws next fst snd].
    split; [now rewrite length_tset |].
    split; [unfold advance; f_equal; lia |].
    intros i. rewrite get_tset by lia.
    destruct (Nat.eqb_spec k i) as [<- | N].
    + replace (Nat.ltb k (S k)) with true by (symmetry; apply Nat.ltb_lt; lia).
      reflexivity.
    + rewrite Hget.
      destruct (Nat.ltb_spec i k), (Nat.ltb_spec i (S k)); try lia; reflexivity.
Qed.

(** X16.  [setParticleSize size] redraws every particle's size as [size]
    times 0.5 + 0.5 r (creation uses 0.4 + 0.6 r), one random number per
    particle, records [size], and leaves the positions, the targets and the
    originals as they are.  The size held by the [Float32Array] lies between
    the binary32 values of [size] / 2 and of [size]. *)
Theorem setParticleSize_redraws (size : R) (s : system) :
  length (sizes s) = particleCount s ->
  let s' := setParticleSize size s in
  particleSize s' = size
  /\ rand s' = advance (rand s) (particleCount s)
  /\ positions s' = positions s
  /\ targetPositions s' = targetPositions s
  /\ originalPositions s' = originalPositions s
  /\ length (sizes s') = particleCount s
  /\ forall i, (i < particleCount s)%nat ->
       get (sizes s') i
       = Some (size * (0.5 + draws (rand s) (next (rand s) + i)%nat * 0.5))
       /\ (unit_draws (draws (rand s)) -> 0 <= size ->
           exists x, get (sizes s') i = Some x
                     /\ held (sizes s') i = Some (Math_fround x)
                     /\ Math_fround (0.5 * size) <= Math_fround x
                        <= Math_fround size).
Proof.
  intros Hlen s'. subst s'. unfold setParticleSize.
  destruct (size_loop size (sizes s) (rand s) (particleCount s)
              (particleCount s) Hlen (Nat.le_refl _)) as (Hl & Hg & Hget).
  destruct (for_loop _ _ _) as [sz g]. cbn [fst snd] in *.
  cbn [particleSize rand positions targetPositions originalPositions sizes].
  repeat split; auto.
  - rewrite Hget. apply Nat.ltb_lt in H. now rewrite H.
  - intros Hunit Hsize.
    assert (E : get sz i
                = Some (size * (0.5 + draws (rand s) (next (rand s) + i)%nat * 0.5))).
    { rewrite Hget. apply Nat.ltb_lt in H. now rewrite H. }
    eexists. split; [exact E |]. split; [apply held_get, E |].
    pose proof (Hunit (next (rand s) + i)%nat).
    apply fround_between. nra.
Qed.

Lemma setParticleSize_redraws_witness :
  length (sizes sample_system) = particleCount sample_system
  /\ (1 < particleCount sample_system)%nat
  /\ unit_draws (draws (rand sample_system))
  /\ 0 <= 3
  /\ exists x, held (sizes (setParticleSize 3 sample_system)) 1 = Some x
               /\ 1.5 <= x <= 3.
Proof.
  split; [reflexivity |]. split; [simpl; lia |].
  split; [exact ramp_unit |]. split; [lra |].
  destruct (setParticleSize_redraws 3 sample_system eq_refl)
    as (_ & _ & _ & _ & _ & _ & Hcell).
  destruct (Hcell 1%nat ltac:(simpl; lia)) as [_ Hrange].
  destruct (Hrange ramp_unit ltac:(lra)) as (x & _ & Hx & Hb).
  exists (Math_fround x). split; [exact Hx |].
  pose proof (fround_half 3 ltac:(lia)) as F. pose proof (fround_IZR 3 ltac:(lia)) as F'.
  replace (0.5 * 3) with (IZR 3 / 2) in Hb by lra.
  rewrite F, F' in Hb. lra.
Defined.

(** X17.  The shader uniform always equals [bloomStrength] after either
    bloom setter.  Disabling bloom writes 0 into [bloomStrength] itself, so
    enabling it again leaves the strength at 0: the earlier value is lost
    until [setBloomStrength] is called again, which in turn sets the uniform
    even while bloom is disabled. *)
Theorem bloom_toggle_loses_strength (b : bloom) :
  (forall v, uniform (setBloomStrength v b) = v
             /\ bloomStrength (setBloomStrength v b) = v
             /\ bloomEnabled (setBloomStrength v b) = bloomEnabled b)
  /\ (forall e, uniform (setBloomEnabled e b) = bloomStrength (setBloomEnabled e b)
                /\ bloomEnabled (setBloomEnabled e b) = e)
  /\ bloomStrength (setBloomEnabled true b) = bloomStrength b
  /\ bloomStrength (setBloomEnabled false b) = 0
  /\ bloomStrength (setBloomEnabled true (setBloomEnabled false b)) = 0
  /\ uniform (setBloomEnabled true (setBloomEnabled false b)) = 0
  /\ (forall v, uniform (setBloomStrength v (setBloomEnabled false b)) = v
                /\ bloomEnabled (setBloomStrength v (setBloomEnabled false b))
                   = false).
Proof.
  repeat split.
Qed.

End Controls.

(* ================================================================== *)
(** ** Further properties of the open / closed variant *)
(* ================================================================== *)

Section BinaryMore.
Import JS Threshold ThresholdScene.

(** X18.  [detectHandGesture] throws exactly on a list of fewer than 21
    landmarks; [onHandsResults] then throws as well, having written
    nothing. *)
Theorem detectHandGesture_needs_21 (lm : list landmark) :
  (detectHandGesture lm = None <-> (length lm < 21)%nat)
  /\ ((length lm < 21)%nat ->
      forall rest s,
        onHandsResults (lm :: rest) s = None
        /\ perform (Hands (lm :: rest)) s = s).
Proof.
  assert (Hshort : (length lm < 21)%nat -> detectHandGesture lm = None).
  { intros Hlen. unfold detectHandGesture.
    assert (H20 : nth_error lm 20 = None) by (apply nth_error_None; lia).
    rewrite H20.
    destruct (nth_error lm 4), (nth_error lm 8), (nth_error lm 12),
             (nth_error lm 16); reflexivity. }
  split.
  - split; [| exact Hshort].
    intros Hnone. destruct (Nat.lt_ge_cases (length lm) 21) as [H | H]; [exact H |].
    rewrite (detectHandGesture_complete lm H) in Hnone. discriminate.
  - intros Hlen rest s. unfold perform, onHandsResults.
    rewrite (Hshort Hlen). now split.
Qed.

Lemma detectHandGesture_needs_21_witness :
  (length (firstn 20 upright_hand) < 21)%nat
  /\ perform (Hands [firstn 20 upright_hand]) sample_globals = sample_globals.
Proof.
  split; [simpl; lia |].
  destruct (detectHandGesture_needs_21 (firstn 20 upright_hand)) as [_ H].
  apply (H ltac:(simpl; lia) [] sample_globals).
Defined.

(** X19.  When the thumb tip or keypoint 2 carries no z, their distance is
    NaN and the thumb is never counted: the hand is then open exactly when at
    least 3 of the other four fingers are extended.  In every case the thumb
    adds at most one to the count of those four. *)
Theorem thumb_without_depth (lm : list landmark) :
  (21 <= length lm)%nat ->
  (fingers_up lm <= extended_fingers lm <= fingers_up lm + 1)%nat
  /\ (lz (joint lm 4) = None \/ lz (joint lm 2) = None ->
      extended_fingers lm = fingers_up lm
      /\ (detectHandGesture lm = Some open <-> (3 <= fingers_up lm)%nat)).
Proof.
  intros Hlen. unfold extended_fingers, extendedCount, fingers_up. split.
  - destruct (thumbExtended (joint lm 4) (joint lm 2)); cbn [count]; lia.
  - intros Hz.
    assert (Hthumb : thumbExtended (joint lm 4) (joint lm 2) = false).
    { unfold thumbExtended, distance.
      destruct Hz as [-> | ->]; [reflexivity |].
      now destruct (lz (joint lm 4)). }
    split; [rewrite Hthumb; cbn [count]; lia |].
    rewrite (detectHandGesture_complete lm Hlen).
    unfold extended_fingers, extendedCount. rewrite Hthumb. cbn [count Nat.add].
    destruct (Nat.leb_spec 3
                (count (fingerExtended (joint lm 8) (joint lm 5))
                 + count (fingerExtended (joint lm 12) (joint lm 9))
                 + count (fingerExtended (joint lm 16) (joint lm 13))
                 + count (fingerExtended (joint lm 20) (joint lm 17))));
      split; intros H'; try reflexivity; try discriminate; lia.
Qed.

Lemma thumb_without_depth_witness :
  (21 <= length (map (fun p => {| lx := lx p; ly := ly p; lz := None |})
                     upright_hand))%nat
  /\ extended_fingers (map (fun p => {| lx := lx p; ly := ly p; lz := None |})
                           upright_hand)
     = fingers_up (map (fun p => {| lx := lx p; ly := ly p; lz := None |})
                       upright_hand).
Proof.
  split; [simpl; lia |].
  destruct (thumb_without_depth
              (map (fun p => {| lx := lx p; ly := ly p; lz := None |})
                   upright_hand) ltac:(simpl; lia)) as [_ H].
  apply H. left. reflexivity.
Defined.

(** *** The scale *)

Lemma perform_scale_ok (e : step) (s : globals) :
  scale_ok s -> scale_ok (perform e s).
Proof.
  intros [Hc Ht]. destruct e as [hands |]; unfold perform.
  - unfold onHandsResults. destruct hands as [| lm rest].
    + split; cbn; lra.
    + destruct (detectHandGesture lm) as [[|] |]; split; cbn; lra.
  - unfold animate, scale_ok. cbn [currentScale targetScale]. split; lra.
Qed.

(** X20.  Whatever camera results and animation frames follow one another,
    the current and the target scale stay within [0.3, 1.5] once they are
    there (both start at 1): after a result the target is 1.5, 0.3, 1 (no
    hand) or unchanged (the result made the handler throw). *)
Theorem scale_stays_in_range (es : list step) (s : globals) :
  scale_ok s ->
  scale_ok (perform_all es s)
  /\ (forall hands,
        targetScale (perform (Hands hands) s) = 1.5
        \/ targetScale (perform (Hands hands) s) = 0.3
        \/ targetScale (perform (Hands hands) s) = 1.0
        \/ perform (Hands hands) s = s)
  /\ (forall rest, targetScale (perform (Hands []) s) = 1.0
                   /\ isHandOpen (perform (Hands []) s) = isHandOpen s
                   /\ currentScale (perform (Hands rest) s) = currentScale s).
Proof.
  intros Hs. split; [| split].
  - revert s Hs. induction es as [| e es IH]; intros s Hs; [exact Hs |].
    unfold perform_all. cbn [fold_left]. apply IH. now apply perform_scale_ok.
  - intros hands. unfold perform, onHandsResults.
    destruct hands as [| lm rest]; [cbn; auto |].
    destruct (detectHandGesture lm) as [[|] |]; cbn; auto.
  - intros rest. split; [reflexivity |]. split; [reflexivity |].
    unfold perform, onHandsResults. destruct rest as [| lm rest]; [reflexivity |].
    destruct (detectHandGesture lm) as [[|] |]; reflexivity.
Qed.

Lemma scale_stays_in_range_witness :
  scale_ok sample_globals
  /\ scale_ok (perform_all [Hands [upright_hand]; Tick; Tick; Hands []; Tick]
                           sample_globals).
Proof.
  assert (H : scale_ok sample_globals) by (unfold scale_ok; cbn; lra).
  split; [exact H |].
  apply (scale_stays_in_range _ sample_globals H).
Defined.

Lemma ticks_keep (K : nat) (s : globals) :
  length (positions s) = (particleCount s * 3)%nat ->
  particleCount (ticks K s) = particleCount s
  /\ targetScale (ticks K s) = targetScale s
  /\ initialPositions (ticks K s) = initialPositions s
  /\ length (positions (ticks K s)) = (particleCount s * 3)%nat.
Proof.
  intros Hlen. induction K as [| K (I1 & I2 & I3 & I4)]; [now repeat split |].
  cbn [ticks]. unfold animate at 1 2 3 4.
  cbn [particleCount targetScale initialPositions positions].
  repeat split; try assumption.
  rewrite I1.
  now apply (scale_loop (initialPositions (ticks K s)) _ (positions (ticks K s))
               (particleCount s) (particleCount s) I4 (Nat.le_refl _)).
Qed.

(** X21.  With no new camera result, [K] animation frames bring the current
    scale geometrically to the target: the gap is the initial gap times
    0.95 ^ K.  After at least one frame every rendered cell is its initial
    value times the current scale, whatever was rendered before. *)
Theorem scale_converges (K : nat) (s : globals) :
  length (positions s) = (particleCount s * 3)%nat ->
  currentScale (ticks K s)
  = targetScale s + (currentScale s - targetScale s) * 0.95 ^ K
  /\ Rabs (currentScale (ticks K s) - targetScale s)
     <= Rabs (currentScale s - targetScale s)
  /\ ((0 < K)%nat ->
      forall j, (j < particleCount s * 3)%nat ->
        get (positions (ticks K s)) j
        = mul (get (initialPositions s) j) (Some (currentScale (ticks K s)))).
Proof.
  intros Hlen.
  assert (Hclosed : forall k,
            currentScale (ticks k s)
            = targetScale s + (currentScale s - targetScale s) * 0.95 ^ k).
  { induction k as [| k IH]; [cbn [ticks pow]; lra |].
    cbn [ticks]. unfold animate at 1. cbn [currentScale].
    destruct (ticks_keep k s Hlen) as (_ & I2 & _). rewrite I2, IH.
    rewrite <- tech_pow_Rmult. lra. }
  split; [apply Hclosed |]. split.
  - rewrite Hclosed.
    replace (targetScale s + (currentScale s - targetScale s) * 0.95 ^ K
             - targetScale s)
      with ((currentScale s - targetScale s) * 0.95 ^ K) by ring.
    assert (H0 : 0 <= 0.95 ^ K) by (apply pow_le; lra).
    assert (H1 : 0.95 ^ K <= 1).
    { apply Rle_trans with (1 ^ K); [apply pow_incr; lra | rewrite pow1; lra]. }
    rewrite Rabs_mult, (Rabs_right (0.95 ^ K)) by lra.
    pose proof (Rabs_pos (currentScale s - targetScale s)). nra.
  - intros HK j Hj. destruct K as [| k]; [lia |]. cbn [ticks].
    destruct (ticks_keep k s Hlen) as (I1 & I2 & I3 & I4).
    unfold animate at 1 2. cbn [positions currentScale].
    destruct (scale_loop (initialPositions (ticks k s))
                (currentScale (ticks k s)
                 + (targetScale (ticks k s) - currentScale (ticks k s)) * 0.05)
                (positions (ticks k s)) (particleCount s)
                (particleCount (ticks k s)) I4 ltac:(lia)) as [_ Hget].
    rewrite Hget, I1, I3. apply Nat.ltb_lt in Hj. now rewrite Hj.
Qed.

Lemma scale_converges_witness :
  length (positions sample_globals) = (particleCount sample_globals * 3)%nat
  /\ (0 < 4)%nat /\ (1 < particleCount sample_globals * 3)%nat
  /\ get (positions (ticks 4 (with_target true 1.5 sample_globals))) 1
     = mul (Some 2)
           (Some (currentScale (ticks 4 (with_target true 1.5 sample_globals)))).
Proof.
  split; [reflexivity |]. split; [lia |]. split; [simpl; lia |].
  destruct (scale_converges 4 (with_target true 1.5 sample_globals) eq_refl)
    as (_ & _ & Hcells).
  apply (Hcells ltac:(lia) 1%nat). simpl. lia.
Defined.

(** *** Creating the scene *)

Lemma scene_place_rng (pat : pattern) (g : rng) :
  snd (place pat g) = ParticleSystem.advance g 3.
Proof.
  unfold ParticleSystem.advance.
  destruct pat; cbn [place random snd draws next]; f_equal; lia.
Qed.

Lemma scene_loop (pat : pattern) (n : nat) (g : rng) (k : nat) :
  (k <= n)%nat ->
  let r := for_loop k (create_step pat)
                    (Float32Array (n * 3), Float32Array (n * 3), g) in
  fst (fst r) = snd (fst r)
  /\ length (fst (fst r)) = (n * 3)%nat
  /\ snd r = ParticleSystem.advance g (3 * k)
  /\ forall i, (i < k)%nat ->
       (get (fst (fst r)) (i * 3), get (fst (fst r)) (i * 3 + 1),
        get (fst (fst r)) (i * 3 + 2))
       = fst (place pat (ParticleSystem.advance g (3 * i))).
Proof.
  induction k as [| k IH]; intros Hk; cbn zeta.
  - cbn [for_loop seq fold_left fst snd]. rewrite length_Float32Array.
    split; [reflexivity |]. split; [reflexivity |].
    split; [| intros i Hi; lia].
    unfold ParticleSystem.advance. destruct g. cbn. f_equal. lia.
  - rewrite for_loop_S. specialize (IH ltac:(lia)). cbn zeta in IH.
    destruct (for_loop k _ _) as [[pk qk] gk]. cbn [fst snd] in IH.
    destruct IH as (Heq & Hlen & Hg & Hcells). subst qk.
    unfold create_step.
    pose proof (scene_place_rng pat gk) as Hrng.
    destruct (place pat gk) as [[[x y] z] g'] eqn:Hplace. cbn [fst snd] in *.
    split; [reflexivity |].
    split; [now rewrite !length_tset |].
    split.
    { rewrite Hrng, Hg. unfold ParticleSystem.advance. cbn. f_equal. lia. }
    intros i Hi. rewrite !get_tset by (rewrite ?length_tset; lia).
    destruct (Nat.eq_dec i k) as [-> | Hne].
    + rewrite <- Hg, Hplace. cbn [fst]. rewrite !Nat.eqb_refl.
      repeat match goal with
             | |- context [Nat.eqb ?a ?b] =>
                 replace (Nat.eqb a b) with false
                   by (symmetry; apply Nat.eqb_neq; lia)
             end.
      reflexivity.
    + rewrite <- (Hcells i) by lia.
      repeat match goal with
             | |- context [Nat.eqb ?a ?b] =>
                 replace (Nat.eqb a b) with false
                   by (symmetry; apply Nat.eqb_neq; lia)
             end.
      reflexivity.
Qed.

(** X22.  [createParticleSystem] leaves the rendered and the initial
    positions equal, both of length 3 * particleCount, consumes three random
    numbers per particle and touches neither scale, so an ongoing expansion
    or contraction carries over to the new pattern.  Both buffers are
    [Float32Array]s.  With draws in [0, 1) a cube particle is held within
    [-12.5, 12.5] on each axis and a cloud particle within [-15, 15]; a
    sphere particle is computed at a distance from the centre between 15 and
    25 and held within [-25, 25] on each axis, no coordinate more than
    2 ^ -20 from the computed one. *)
Theorem scene_creation (pat : pattern) (g : rng) (s : globals) :
  let s' := fst (createParticleSystem pat g s) in
  positions s' = initialPositions s'
  /\ length (positions s') = (particleCount s * 3)%nat
  /\ particleCount s' = particleCount s
  /\ snd (createParticleSystem pat g s)
     = ParticleSystem.advance g (3 * particleCount s)
  /\ currentScale s' = currentScale s
  /\ targetScale s' = targetScale s
  /\ forall i, (i < particleCount s)%nat -> unit_draws (draws g) ->
       exists x y z,
         get (positions s') (i * 3) = Some x
         /\ get (positions s') (i * 3 + 1) = Some y
         /\ get (positions s') (i * 3 + 2) = Some z
         /\ held (positions s') (i * 3) = Some (Math_fround x)
         /\ held (positions s') (i * 3 + 1) = Some (Math_fround y)
         /\ held (positions s') (i * 3 + 2) = Some (Math_fround z)
         /\ (pat = cube ->
             -12.5 <= Math_fround x <= 12.5 /\ -12.5 <= Math_fround y <= 12.5
             /\ -12.5 <= Math_fround z <= 12.5)
         /\ (pat = random_cloud ->
             -15 <= Math_fround x <= 15 /\ -15 <= Math_fround y <= 15
             /\ -15 <= Math_fround z <= 15)
         /\ (pat = sphere ->
             15 * 15 <= x * x + y * y + z * z <= 25 * 25
             /\ (-25 <= Math_fround x <= 25 /\ -25 <= Math_fround y <= 25
                 /\ -25 <= Math_fround z <= 25)
             /\ Rabs (Math_fround x - x) <= 1 / 1048576
             /\ Rabs (Math_fround y - y) <= 1 / 1048576
             /\ Rabs (Math_fround z - z) <= 1 / 1048576).
Proof.
  intros s'. subst s'. unfold createParticleSystem.
  destruct (scene_loop pat (particleCount s) g (particleCount s) (Nat.le_refl _))
    as (Heq & Hlen & Hg & Hcells).
  destruct (for_loop _ _ _) as [[p q] g']. cbn [fst snd] in *.
  cbn [positions initialPositions particleCount currentScale targetScale].
  split; [exact Heq |]. split; [exact Hlen |]. split; [reflexivity |].
  split; [exact Hg |]. split; [reflexivity |]. split; [reflexivity |].
  intros i Hi Hunit. specialize (Hcells i Hi).
  set (gi := ParticleSystem.advance g (3 * i)) in Hcells.
  pose proof (Hunit (next gi)) as U0.
  pose proof (Hunit (S (next gi))) as U1.
  pose proof (Hunit (S (S (next gi)))) as U2.
  assert (Hd : draws gi = draws g) by reflexivity.
  assert (Hbox15 : forall c, -15 <= c <= 15 -> -15 <= Math_fround c <= 15).
  { intros c Hc. apply (box_held c (-15) 15 15); [reflexivity | lra | lia | lra]. }
  assert (Hbox25 : forall c, -25 <= c <= 25 -> -25 <= Math_fround c <= 25).
  { intros c Hc. apply (box_held c (-25) 25 25); [reflexivity | lra | lia | lra]. }
  assert (Hbox12 : forall c, -12.5 <= c <= 12.5 -> -12.5 <= Math_fround c <= 12.5).
  { intros c Hc. apply (half_box_held c (-12.5) 12.5 25); [lra | lra | lia | lra]. }
  destruct pat; cbn [place random fst snd draws next] in Hcells;
    rewrite ?Hd in Hcells.
  - rewrite (Math_acos_unit _ U1) in Hcells. cbn [lift1] in Hcells.
    apply triple_eq in Hcells. destruct Hcells as (X & Y & Z).
    cells_held X Y Z.
    split; [intros E; discriminate |]. split; [intros E; discriminate |].
    intros _.
    set (x := (15 + _ * 10) * sin _ * cos _).
    set (y := (15 + _ * 10) * sin _ * sin _).
    set (z := (15 + _ * 10) * cos _).
    assert (Hshell : 15 * 15 <= x * x + y * y + z * z <= 25 * 25).
    { subst x y z. rewrite sphere_norm. split; nra. }
    assert (Hx : -25 <= x <= 25) by (split; nra).
    assert (Hy : -25 <= y <= 25) by (split; nra).
    assert (Hz : -25 <= z <= 25) by (split; nra).
    split; [exact Hshell |].
    split; [split; [| split]; now apply Hbox25 |].
    split; [| split]; apply fround_error_32; apply Rabs_def1; lra.
  - apply triple_eq in Hcells. destruct Hcells as (X & Y & Z).
    cells_held X Y Z.
    split; [intros _; split; [| split]; apply Hbox12; lra |].
    split; intros E; discriminate.
  - apply triple_eq in Hcells. destruct Hcells as (X & Y & Z).
    cells_held X Y Z.
    split; [intros E; discriminate |].
    split; [intros _; split; [| split]; apply Hbox15; lra |].
    intros E; discriminate.
Qed.

Lemma scene_creation_witness :
  (0 < particleCount sample_globals)%nat /\ unit_draws (draws ParticleSystem.ramp)
  /\ exists x y z,
       held (positions (fst (createParticleSystem sphere ParticleSystem.ramp sample_globals)))
            (0 * 3) = Some x
       /\ held (positions (fst (createParticleSystem sphere ParticleSystem.ramp sample_globals)))
               (0 * 3 + 1) = Some y
       /\ held (positions (fst (createParticleSystem sphere ParticleSystem.ramp sample_globals)))
               (0 * 3 + 2) = Some z
       /\ -25 <= x <= 25 /\ -25 <= y <= 25 /\ -25 <= z <= 25.
Proof.
  split; [simpl; lia |]. split; [exact ramp_unit |].
  destruct (scene_creation sphere ParticleSystem.ramp sample_globals)
    as (_ & _ & _ & _ & _ & _ & Hcells).
  destruct (Hcells 0%nat ltac:(simpl; lia) ramp_unit)
    as (x & y & z & _ & _ & _ & X & Y & Z & _ & _ & Hs).
  destruct (Hs eq_refl) as (_ & (Hx & Hy & Hz) & _).
  exists (Math_fround x), (Math_fround y), (Math_fround z).
  repeat split; try assumption; lra.
Defined.

End BinaryMore.
